(** * go-webspider: the crawl engine of [webspider.SpiderWebsite]

    A shallow embedding of the package [webspider]: the link classifier
    ([sanitizeURL], [shouldCrawlURL], [isFileURL],
    [processLinkFromResponse], [extractLinks]) as functions over strings and
    finite sets, and the scheduler loop with its worker goroutines as a
    labelled transition system over an explicit crawl state. *)

From Stdlib Require Import ZArith Lia Ascii String List.
From Stdlib Require Import Relation_Operators Lexicographic_Product.
From stdpp Require Import gmap strings list.

Local Open Scope Z_scope.

(** ** Go's [strings] package

    A Go string is a sequence of bytes, here a [string] of 8-bit
    characters.  The byte-level functions are written out; the two
    functions that depend on Unicode tables ([TrimSpace], [ToLower]) are
    operations of the class [GoLib] below. *)

Module strings.

Fixpoint HasSuffix (s suffix : string) : bool :=
  if String.eqb s suffix then true
  else match s with
       | EmptyString => false
       | String _ s' => HasSuffix s' suffix
       end.

Fixpoint CutPrefix (s prefix : string) {struct prefix} : option string :=
  match prefix, s with
  | EmptyString, _ => Some s
  | String a p', String b s' =>
      if Ascii.eqb a b then CutPrefix s' p' else None
  | String _ _, EmptyString => None
  end.

Definition HasPrefix (s prefix : string) : bool :=
  match CutPrefix s prefix with
  | Some _ => true
  | None => false
  end.

Definition TrimPrefix (s prefix : string) : string :=
  match CutPrefix s prefix with
  | Some rest => rest
  | None => s
  end.

Fixpoint Contains (s substr : string) : bool :=
  if HasPrefix s substr then true
  else match s with
       | EmptyString => false
       | String _ s' => Contains s' substr
       end.

End strings.

(** ** Go's [net/url]: the [URL] struct *)

Record Userinfo : Type := mkUserinfo {
  username : string;
  password : option string
}.

Record URL : Type := mkURL {
  Scheme : string;
  Opaque : string;
  User : option Userinfo;
  Host : string;
  Path : string;
  RawPath : string;
  OmitHost : bool;
  ForceQuery : bool;
  RawQuery : string;
  Fragment : string;
  RawFragment : string
}.

(** The assignment to [u.Fragment]. *)
Definition set_Fragment (u : URL) (f : string) : URL :=
  {| Scheme := Scheme u; Opaque := Opaque u; User := User u; Host := Host u;
     Path := Path u; RawPath := RawPath u; OmitHost := OmitHost u;
     ForceQuery := ForceQuery u; RawQuery := RawQuery u; Fragment := f;
     RawFragment := RawFragment u |}.

(** [IsAbs] reports whether the scheme is non-empty. *)
Definition IsAbs (u : URL) : bool := negb (String.eqb (Scheme u) "").

(** The functions of Go's standard library that the package calls and that
    are not part of the repository.  The crawler is verified for every
    implementation of them. *)
Class GoLib : Type := {
  (** [strings.TrimSpace] *)
  TrimSpace : string -> string;
  (** [strings.ToLower] *)
  ToLower : string -> string;
  (** [url.Parse]; [None] is a non-nil error *)
  url_Parse : string -> option URL;
  (** [base.ResolveReference(ref)] *)
  url_ResolveReference : URL -> URL -> URL;
  (** [u.String()] *)
  url_String : URL -> string;
  (** [u.Query().Get(key)] *)
  url_Query_Get : URL -> string -> string
}.

(** ** [sanitizeRegex]

    The pattern is anchored: the literal http, an optional s, the literal
    colon-slash-slash, and then one or more characters outside a class.  The
    class excludes white space, which in Go's regexp syntax is tab, line
    feed, form feed, carriage return and space, and the five characters
    double quote, closing parenthesis, single quote, closing bracket and
    closing brace.  Every excluded character is ASCII, and no byte of a
    multi-byte UTF-8 sequence is ASCII, so matching byte by byte agrees with
    matching rune by rune. *)

Definition sanitizeClass (c : ascii) : bool :=
  negb (existsb (Ascii.eqb c)
          ["009"; "010"; "012"; "013"; " "; "034"; ")"; "'"; "]"; "}"]%char).

Fixpoint takeWhile (f : ascii -> bool) (s : string) : string :=
  match s with
  | EmptyString => EmptyString
  | String c s' => if f c then String c (takeWhile f s') else EmptyString
  end.

(** One alternative for the optional s: the literal [lit] and then one or more
    characters of the class, as many as there are. *)
Definition matchAfter (lit s : string) : option string :=
  match strings.CutPrefix s lit with
  | Some rest =>
      match takeWhile sanitizeClass rest with
      | EmptyString => None
      | m => Some (lit +:+ m)
      end
  | None => None
  end.

(** [sanitizeRegex.FindString]: the match is anchored at the start; the
    greedy optional s is tried with the s first and without it on failure;
    no match is the empty string. *)
Definition sanitizeRegex_FindString (s : string) : string :=
  match matchAfter "https://" s with
  | Some m => m
  | None =>
      match matchAfter "http://" s with
      | Some m => m
      | None => ""
      end
  end.

Definition fileExtensions : list string :=
  [".pdf"; ".doc"; ".docx";
   ".xls"; ".xlsx"; ".ppt"; ".pptx";
   ".zip"; ".rar"; ".gz"; ".tar";
   ".svg"; ".png"; ".jpg"; ".jpeg"; ".gif"].

(** The result of [webcrawl.CrawlWebsite] as the package [webspider] reads
    it.  The package [webcrawl] declares [CrawlResult] with the fields
    [Content], [CrawledURLs], [PagesCrawled], [PageErrors] and [Links], and
    [LinkData] with the fields [Href], [Text] and [BaseDomain]; the spider
    reads [Content] and [Links] of a result and [Href] and [Text] of a
    link, and these are the fields kept here.  The link records in full
    are in the module [Webcrawl] below, with the projection
    [Webcrawl.asCrawlResult]. *)
Module webcrawl.

Record Link : Type := mkLink { Href : string; Text : string }.

Record Links : Type := mkLinks {
  Internal : list Link;
  External : list Link
}.

Record CrawlResult : Type := mkCrawlResult {
  Content : string;
  Links_ : Links
}.

End webcrawl.

Section Classifier.
Context `{GoLib}.

Definition sanitizeURL (rawURL : string) : string :=
  sanitizeRegex_FindString (TrimSpace rawURL).

Definition shouldCrawlURL (targetURL baseURL : URL) (crawlSubDomain : bool)
  : bool :=
  let targetHost := ToLower (Host targetURL) in
  let baseHost := ToLower (Host baseURL) in
  if String.eqb targetHost baseHost then true
  else if crawlSubDomain then
    let targetHostClean := strings.TrimPrefix targetHost "www." in
    let baseHostClean := strings.TrimPrefix baseHost "www." in
    strings.HasSuffix targetHostClean ("." +:+ baseHostClean)
    || strings.HasSuffix baseHostClean ("." +:+ targetHostClean)
  else false.

Definition isFileURL (u : URL) : bool :=
  if String.eqb (url_Query_Get u "download") "1" then true
  else
    let path := ToLower (Path u) in
    let query := ToLower (RawQuery u) in
    if existsb (strings.HasSuffix path) fileExtensions then true
    else if strings.Contains path "/resource/" then true
    else if strings.Contains query "item=form"
            || strings.Contains query "item=statute" then true
    else false.

(** The two sets are Go maps [map[string]bool] in which only [true] is
    ever stored; the function mutates them, here it returns them. *)
Definition processLinkFromResponse (href text baseURL : string)
    (parsedBaseURL : URL) (crawlSubDomain : bool)
    (crawlableLinkSet fileLinkSet : gset string)
  : gset string * gset string :=
  if String.eqb href "" || strings.HasPrefix href "#"
  then (crawlableLinkSet, fileLinkSet)
  else
    let sanitizedLink := sanitizeURL href in
    if String.eqb sanitizedLink "" then (crawlableLinkSet, fileLinkSet)
    else
      match url_Parse sanitizedLink with
      | None => (crawlableLinkSet, fileLinkSet)
      | Some parsed =>
          let resolved :=
            if negb (IsAbs parsed) then
              match url_Parse baseURL with
              | None => None
              | Some base => Some (url_ResolveReference base parsed)
              end
            else Some parsed in
          match resolved with
          | None => (crawlableLinkSet, fileLinkSet)
          | Some resolvedURL =>
              if shouldCrawlURL resolvedURL parsedBaseURL crawlSubDomain
              then
                let resolvedURL := set_Fragment resolvedURL "" in
                let cleanURL := url_String resolvedURL in
                if isFileURL resolvedURL
                then (crawlableLinkSet, {[cleanURL]} ∪ fileLinkSet)
                else ({[cleanURL]} ∪ crawlableLinkSet, fileLinkSet)
              else (crawlableLinkSet, fileLinkSet)
          end
      end.

(** The loop of [extractLinks] over [crawlResult.Links.Internal]. *)
Fixpoint extractLoop (links : list webcrawl.Link) (baseURL : string)
    (parsedBaseURL : URL) (crawlSubDomain : bool)
    (sets : gset string * gset string) : gset string * gset string :=
  match links with
  | [] => sets
  | link :: rest =>
      let href := TrimSpace (webcrawl.Href link) in
      let sets' :=
        if String.eqb href "" then sets
        else processLinkFromResponse href (webcrawl.Text link) baseURL
               parsedBaseURL crawlSubDomain (fst sets) (snd sets) in
      extractLoop rest baseURL parsedBaseURL crawlSubDomain sets'
  end.

Definition extractLinkSets (crawlResult : webcrawl.CrawlResult)
    (baseURL : string) (parsedBaseURL : URL) (crawlSubDomain : bool)
  : gset string * gset string :=
  extractLoop (webcrawl.Internal (webcrawl.Links_ crawlResult)) baseURL
    parsedBaseURL crawlSubDomain (∅, ∅).

(** [extractLinks] turns the two sets into slices by ranging over the
    maps; Go leaves the iteration order of a map unspecified, so every
    ordering of the elements is a possible return value. *)
Definition extractLinks (crawlResult : webcrawl.CrawlResult)
    (baseURL : string) (parsedBaseURL : URL) (crawlSubDomain : bool)
    (crawlableLinks fileLinks : list string) : Prop :=
  let sets := extractLinkSets crawlResult baseURL parsedBaseURL
                crawlSubDomain in
  crawlableLinks ≡ₚ elements (fst sets) ∧ fileLinks ≡ₚ elements (snd sets).

End Classifier.

(** ** [removeMarkdownLinks]

    The pattern is an opening bracket, a group of characters other than the
    closing bracket, the closing bracket, an opening parenthesis, characters
    other than the closing parenthesis, and the closing parenthesis; every
    match, leftmost first and without overlap, is replaced by its group.
    At an opening bracket the only candidate match takes the text up to the
    first closing bracket and the target up to the first closing
    parenthesis. *)

Fixpoint splitAt (c : ascii) (s : string) : option (string * string) :=
  match s with
  | EmptyString => None
  | String a s' =>
      if Ascii.eqb a c then Some (EmptyString, s')
      else match splitAt c s' with
           | Some (l, r) => Some (String a l, r)
           | None => None
           end
  end.

(** The group and the rest of the input when a link starts at the head of
    [s]. *)
Definition matchMarkdownLink (s : string) : option (string * string) :=
  match s with
  | String "["%char s1 =>
      match splitAt "]"%char s1 with
      | Some (text, String "("%char s2) =>
          match splitAt ")"%char s2 with
          | Some (_, rest) => Some (text, rest)
          | None => None
          end
      | _ => None
      end
  | _ => None
  end.

Fixpoint replaceLinks (fuel : nat) (s : string) : string :=
  match fuel with
  | O => s
  | S fuel' =>
      match matchMarkdownLink s with
      | Some (text, rest) => text +:+ replaceLinks fuel' rest
      | None =>
          match s with
          | EmptyString => EmptyString
          | String a s' => String a (replaceLinks fuel' s')
          end
      end
  end.

(** Every round consumes at least one character, so the length of the
    input is fuel enough. *)
Definition removeMarkdownLinks (content : string) : string :=
  replaceLinks (String.length content) content.

(** ** Machine integers and channels *)

(** Go's [int] on a 64-bit platform: arithmetic wraps around. *)
Definition int_min : Z := - 2 ^ 63.
Definition int_max : Z := 2 ^ 63 - 1.
Definition wrap (z : Z) : Z := (z + 2 ^ 63) mod 2 ^ 64 - 2 ^ 63.
Definition is_int (z : Z) : Prop := int_min <= z <= int_max.

(** A buffered channel: the values in its buffer, oldest first, and the
    capacity it was made with. *)
Record chan (A : Type) : Type := mkChan { buf : list A; cap : Z }.
Arguments mkChan {A} _ _.
Arguments buf {A} _.
Arguments cap {A} _.

(** [make(chan T, size)] is [makechan] of the runtime: it panics with
    size out of range when the size is negative or when a buffer of [size]
    elements of [elemSize] bytes does not fit under [maxAlloc - hchanSize].
    On a 64-bit platform with 48 bits of heap address [maxAlloc] is 2^48,
    and the channel header of the Go release the module asks for takes 104
    bytes.  Running out of memory below that limit is a fatal error of the
    runtime that depends on the machine; it is outside the model, as for
    every other allocation. *)
Definition maxAlloc : Z := 2 ^ 48.
Definition hchanSize : Z := 104.

Definition makechan {A} (elemSize size : Z) : option (chan A) :=
  if (size <? 0) || (maxAlloc - hchanSize <? elemSize * size) then None
  else Some (mkChan [] size).

(** The size in bytes of a [urlJob], a string header and an int, and of
    the empty struct. *)
Definition sizeof_urlJob : Z := 24.
Definition sizeof_struct0 : Z := 0.

Definition chan_full {A} (c : chan A) : bool :=
  Z.of_nat (length (buf c)) >=? cap c.

Definition chan_push {A} (c : chan A) (x : A) : chan A :=
  mkChan (buf c ++ [x]) (cap c).

(** ** The data of the package *)

Record SpiderOptions : Type := mkSpiderOptions {
  MaxPages : Z;
  MaxDepth : Z;
  CrawlSubDomain : bool;
  Timeout : Z;
  Concurrency : Z;
  DelayBetween : Z
}.

Record SpiderResult : Type := mkSpiderResult {
  Content : string;
  CrawledURLs : list string;
  DetectedFileUrls : list string;
  TotalPages : Z;
  SuccessfulPages : Z;
  FailedPages : gmap string string;
  ProcessingTime : Z
}.

Record urlJob : Type := mkUrlJob { url : string; depth : Z }.

(** Durations are in nanoseconds. *)
Definition DefaultSpiderOptions : SpiderOptions :=
  {| MaxPages := 100;
     MaxDepth := 3;
     CrawlSubDomain := true;
     Timeout := 30 * 1000000000;
     Concurrency := 5;
     DelayBetween := 1 * 1000000000 |}.

Definition set_MaxPages (o : SpiderOptions) (n : Z) : SpiderOptions :=
  {| MaxPages := n; MaxDepth := MaxDepth o;
     CrawlSubDomain := CrawlSubDomain o; Timeout := Timeout o;
     Concurrency := Concurrency o; DelayBetween := DelayBetween o |}.

(** What [webcrawl.CrawlWebsite] returned: an error with its message, or a
    result. *)
Inductive FetchOutcome : Type :=
  | FetchErr (reason : string)
  | FetchOk (r : webcrawl.CrawlResult).

(** ** The state of one call of [SpiderWebsite] *)

(** Where the scheduler loop stands. *)
Inductive SchedPC : Type :=
  | SSelect                 (* at the select of the for loop *)
  | SAcquire (job : urlJob) (* job admitted, sending on the semaphore *)
  | SWait                   (* left the loop, at wg.Wait() *)
  | SReturned.              (* returned result, nil *)

(** Where a worker goroutine stands. *)
Inductive WorkerPC : Type :=
  | WFetch                                   (* before CrawlWebsite *)
  | WExtract (r : webcrawl.CrawlResult)      (* before extractLinks *)
  | WSend (links : list string)              (* in the loop over the links *)
  | WDeferActive                             (* deferred activeWorkers-- *)
  | WDeferSem                                (* deferred <-semaphore *)
  | WDeferDone                               (* deferred wg.Done() *)
  | WExited.

Record Worker : Type := mkWorker {
  currentURL : string;
  currentDepth : Z;
  wpc : WorkerPC
}.

Record State : Type := mkState {
  options : SpiderOptions;      (* the struct behind the options pointer *)
  parsedURL : URL;
  result : SpiderResult;
  visitedURLs : gset string;
  urlJobs : chan urlJob;
  semaphore : chan unit;
  activeWorkers : Z;
  wg : nat;
  workers : list Worker;        (* the goroutines started, in order *)
  pc : SchedPC;
  infoLog : list (list string)  (* the file lists given to logger.Info *)
}.

Definition upd_result (f : SpiderResult -> SpiderResult) (s : State) : State :=
  mkState (options s) (parsedURL s) (f (result s)) (visitedURLs s)
    (urlJobs s) (semaphore s) (activeWorkers s) (wg s) (workers s) (pc s)
    (infoLog s).
Definition set_visitedURLs (v : gset string) (s : State) : State :=
  mkState (options s) (parsedURL s) (result s) v
    (urlJobs s) (semaphore s) (activeWorkers s) (wg s) (workers s) (pc s)
    (infoLog s).
Definition set_urlJobs (c : chan urlJob) (s : State) : State :=
  mkState (options s) (parsedURL s) (result s) (visitedURLs s)
    c (semaphore s) (activeWorkers s) (wg s) (workers s) (pc s)
    (infoLog s).
Definition set_semaphore (c : chan unit) (s : State) : State :=
  mkState (options s) (parsedURL s) (result s) (visitedURLs s)
    (urlJobs s) c (activeWorkers s) (wg s) (workers s) (pc s)
    (infoLog s).
Definition set_activeWorkers (n : Z) (s : State) : State :=
  mkState (options s) (parsedURL s) (result s) (visitedURLs s)
    (urlJobs s) (semaphore s) n (wg s) (workers s) (pc s)
    (infoLog s).
Definition set_wg (n : nat) (s : State) : State :=
  mkState (options s) (parsedURL s) (result s) (visitedURLs s)
    (urlJobs s) (semaphore s) (activeWorkers s) n (workers s) (pc s)
    (infoLog s).
Definition set_workers (ws : list Worker) (s : State) : State :=
  mkState (options s) (parsedURL s) (result s) (visitedURLs s)
    (urlJobs s) (semaphore s) (activeWorkers s) (wg s) ws (pc s)
    (infoLog s).
Definition set_pc (p : SchedPC) (s : State) : State :=
  mkState (options s) (parsedURL s) (result s) (visitedURLs s)
    (urlJobs s) (semaphore s) (activeWorkers s) (wg s) (workers s) p
    (infoLog s).
Definition set_infoLog (l : list (list string)) (s : State) : State :=
  mkState (options s) (parsedURL s) (result s) (visitedURLs s)
    (urlJobs s) (semaphore s) (activeWorkers s) (wg s) (workers s) (pc s)
    l.

Definition set_wpc (p : WorkerPC) (w : Worker) : Worker :=
  mkWorker (currentURL w) (currentDepth w) p.

(** Worker [i], which is [w], moves on to [p]. *)
Definition set_worker (i : nat) (w : Worker) (p : WorkerPC) (s : State)
  : State :=
  set_workers (<[i := set_wpc p w]> (workers s)) s.

(** The writes to the fields of [result]. *)
Definition incr_TotalPages (r : SpiderResult) : SpiderResult :=
  mkSpiderResult (Content r) (CrawledURLs r) (DetectedFileUrls r)
    (wrap (TotalPages r + 1)) (SuccessfulPages r) (FailedPages r)
    (ProcessingTime r).
Definition record_failure (u reason : string) (r : SpiderResult)
  : SpiderResult :=
  mkSpiderResult (Content r) (CrawledURLs r) (DetectedFileUrls r)
    (TotalPages r) (SuccessfulPages r) (<[u := reason]> (FailedPages r))
    (ProcessingTime r).
Definition newline : string := String "010"%char EmptyString.
Definition record_success (u cleanedContent : string) (r : SpiderResult)
  : SpiderResult :=
  mkSpiderResult
    (Content r +:+ newline +:+ newline +:+ "# URL: " +:+ u +:+ newline
       +:+ newline +:+ cleanedContent)
    (CrawledURLs r ++ [u]) (DetectedFileUrls r)
    (TotalPages r) (wrap (SuccessfulPages r + 1)) (FailedPages r)
    (ProcessingTime r).
Definition append_files (fileLinks : list string) (r : SpiderResult)
  : SpiderResult :=
  mkSpiderResult (Content r) (CrawledURLs r)
    (DetectedFileUrls r ++ fileLinks)
    (TotalPages r) (SuccessfulPages r) (FailedPages r) (ProcessingTime r).
Definition set_ProcessingTime (t : Z) (r : SpiderResult) : SpiderResult :=
  mkSpiderResult (Content r) (CrawledURLs r) (DetectedFileUrls r)
    (TotalPages r) (SuccessfulPages r) (FailedPages r) t.

(** ** The crawl as a transition system

    One event is one atomic action of the scheduler loop or of a worker
    goroutine.  What the program does not determine comes with the event:
    the outcome of a fetch, the order in which a map is ranged over, the
    time elapsed. *)
Inductive Event : Type :=
  | EvRecv                      (* select: case job := <-urlJobs *)
  | EvAcquire                   (* semaphore <- struct{}{}, go func *)
  | EvTimeout                   (* select: case <-time.After *)
  | EvJoin (finalFileList : list string) (elapsed : Z)
                                (* wg.Wait() returns, finalization *)
  | EvFetch (i : nat) (o : FetchOutcome)
                                (* worker i: CrawlWebsite and bookkeeping *)
  | EvExtract (i : nat) (crawlableLinks fileLinks : list string)
                                (* worker i: extractLinks, file links *)
  | EvSend (i : nat)            (* worker i: one round of the send loop *)
  | EvDefer (i : nat).          (* worker i: its next deferred call *)

(** How far the prologue of [SpiderWebsite] gets. *)
Inductive Start : Type :=
  | StartError                  (* return nil, err *)
  | StartPanic                  (* make(chan): size out of range *)
  | Started (s : State).

Section Crawl.
Context `{GoLib}.

#[global] Instance extractLinks_dec r b p c l1 l2 :
  Decision (extractLinks r b p c l1 l2).
Proof. unfold extractLinks. apply _. Defined.

Definition emptyResult : SpiderResult :=
  {| Content := ""; CrawledURLs := []; DetectedFileUrls := [];
     TotalPages := 0; SuccessfulPages := 0; FailedPages := ∅;
     ProcessingTime := 0 |}.

(** The options the call works with: the defaults for a nil pointer, and
    [MaxPages] written to 1 when it is not positive. *)
Definition effectiveOptions (options : option SpiderOptions)
  : SpiderOptions :=
  let o := match options with
           | None => DefaultSpiderOptions
           | Some o => o
           end in
  if MaxPages o <=? 0 then set_MaxPages o 1 else o.

(** [SpiderWebsite] up to the loop.  The two channels are made in the
    order of the source, the queue first; either [make] panics when its
    size is out of range.  A queue made with capacity at least one takes
    the seed job without blocking; the capacity is never zero, since twice
    a positive [int] wraps to a negative number or is at least two. *)
Definition SpiderWebsite_start (targetURL : string)
    (options : option SpiderOptions) : Start :=
  let options := effectiveOptions options in
  match url_Parse targetURL with
  | None => StartError
  | Some parsedURL =>
      match makechan sizeof_urlJob (wrap (MaxPages options * 2)) with
      | None => StartPanic
      | Some urlJobs =>
          let urlJobs := chan_push urlJobs (mkUrlJob targetURL 0) in
          match makechan sizeof_struct0 (Concurrency options) with
          | None => StartPanic
          | Some semaphore =>
              Started
                {| options := options;
                   parsedURL := parsedURL;
                   result := emptyResult;
                   visitedURLs := ∅;
                   urlJobs := urlJobs;
                   semaphore := semaphore;
                   activeWorkers := 0;
                   wg := 0%nat;
                   workers := [];
                   pc := SSelect;
                   infoLog := [] |}
          end
      end
  end.

(** Lines 95 to 102: mark the URL and count the page. *)
Definition admitJob (job : urlJob) (s : State) : State :=
  set_pc (SAcquire job)
    (upd_result incr_TotalPages
       (set_visitedURLs ({[url job]} ∪ visitedURLs s) s)).

(** [case job := <-urlJobs] up to the send on the semaphore. *)
Definition recv (s : State) : option State :=
  match pc s, buf (urlJobs s) with
  | SSelect, job :: rest =>
      let s := set_urlJobs (mkChan rest (cap (urlJobs s))) s in
      if (TotalPages (result s) >=? MaxPages (options s))
         || (depth job >? MaxDepth (options s))
      then Some s
      else if decide (url job ∈ visitedURLs s) then Some s
      else Some (admitJob job s)
  | _, _ => None
  end.

(** The send on the semaphore goes through when its buffer has room (an
    unbuffered semaphore never has a receiver waiting, as workers only
    exist after a send); then the goroutine is started and the loop
    checks the page limit. *)
Definition acquire (s : State) : option State :=
  match pc s with
  | SAcquire job =>
      if chan_full (semaphore s) then None
      else
        let s := set_semaphore (chan_push (semaphore s) tt) s in
        let s := set_wg (S (wg s)) s in
        let s := set_activeWorkers (wrap (activeWorkers s + 1)) s in
        let s := set_workers
                   (workers s ++ [mkWorker (url job) (depth job) WFetch])
                   s in
        if TotalPages (result s) >=? MaxPages (options s)
        then Some (set_pc SWait s)
        else Some (set_pc SSelect s)
  | _ => None
  end.

Definition timeout (s : State) : option State :=
  match pc s with
  | SSelect =>
      if (activeWorkers s =? 0)
         && (Z.of_nat (length (buf (urlJobs s))) =? 0)
      then Some (set_pc SWait s)
      else Some s
  | _ => None
  end.

(** After [wg.Wait()]: the deduplicated file list is built and given to
    the logger when there are file URLs; [result] only gets its
    processing time. *)
Definition join (finalFileList : list string) (elapsed : Z) (s : State)
  : option State :=
  match pc s, wg s with
  | SWait, O =>
      let uniqueFileUrls : gset string :=
        list_to_set (DetectedFileUrls (result s)) in
      if decide (finalFileList ≡ₚ elements uniqueFileUrls) then
        let s := if 0 <? Z.of_nat (length (DetectedFileUrls (result s)))
                 then set_infoLog (infoLog s ++ [finalFileList]) s
                 else s in
        Some (set_pc SReturned (upd_result (set_ProcessingTime elapsed) s))
      else None
  | _, _ => None
  end.

Definition fetch (i : nat) (o : FetchOutcome) (s : State) : option State :=
  match workers s !! i with
  | Some w =>
      match wpc w, o with
      | WFetch, FetchErr reason =>
          Some (set_worker i w WDeferActive
                  (upd_result (record_failure (currentURL w) reason) s))
      | WFetch, FetchOk r =>
          let cleanedContent :=
            removeMarkdownLinks (webcrawl.Content r) in
          let s := upd_result
                     (record_success (currentURL w) cleanedContent) s in
          if currentDepth w <? MaxDepth (options s)
          then Some (set_worker i w (WExtract r) s)
          else Some (set_worker i w WDeferActive s)
      | _, _ => None
      end
  | None => None
  end.

Definition extract (i : nat) (crawlableLinks fileLinks : list string)
    (s : State) : option State :=
  match workers s !! i with
  | Some w =>
      match wpc w with
      | WExtract r =>
          if decide (extractLinks r (currentURL w) (parsedURL s)
                       (CrawlSubDomain (options s))
                       crawlableLinks fileLinks)
          then Some (set_worker i w (WSend crawlableLinks)
                       (upd_result (append_files fileLinks) s))
          else None
      | _ => None
      end
  | None => None
  end.

(** One round of the loop over the links: a send that does not block,
    the link dropped when the channel is full; the loop ends on the empty
    list. *)
Definition send (i : nat) (s : State) : option State :=
  match workers s !! i with
  | Some w =>
      match wpc w with
      | WSend [] => Some (set_worker i w WDeferActive s)
      | WSend (link :: rest) =>
          let job := mkUrlJob link (wrap (currentDepth w + 1)) in
          let s := if chan_full (urlJobs s) then s
                   else set_urlJobs (chan_push (urlJobs s) job) s in
          Some (set_worker i w (WSend rest) s)
      | _ => None
      end
  | None => None
  end.

(** The deferred calls run last in, first out.  [wg.Done()] finds the
    counter positive, as the worker was added to it: the predecessor stands
    for the decrement. *)
Definition defer (i : nat) (s : State) : option State :=
  match workers s !! i with
  | Some w =>
      match wpc w with
      | WDeferActive =>
          Some (set_worker i w WDeferSem
                  (set_activeWorkers (wrap (activeWorkers s - 1)) s))
      | WDeferSem =>
          match buf (semaphore s) with
          | _ :: rest =>
              Some (set_worker i w WDeferDone
                      (set_semaphore (mkChan rest (cap (semaphore s))) s))
          | [] => None
          end
      | WDeferDone =>
          Some (set_worker i w WExited (set_wg (Nat.pred (wg s)) s))
      | _ => None
      end
  | None => None
  end.

Definition step (s : State) (e : Event) : option State :=
  match e with
  | EvRecv => recv s
  | EvAcquire => acquire s
  | EvTimeout => timeout s
  | EvJoin finalFileList elapsed => join finalFileList elapsed s
  | EvFetch i o => fetch i o s
  | EvExtract i crawlableLinks fileLinks =>
      extract i crawlableLinks fileLinks s
  | EvSend i => send i s
  | EvDefer i => defer i s
  end.

(** The state after a sequence of events, when each is enabled. *)
Fixpoint run (s : State) (t : list Event) : option State :=
  match t with
  | [] => Some s
  | e :: t' =>
      match step s e with
      | Some s' => run s' t'
      | None => None
      end
  end.

(** The jobs that [recv] admits along a run, in order. *)
Definition admits (s : State) (e : Event) : option urlJob :=
  match e, step s e with
  | EvRecv, Some s' =>
      match pc s' with
      | SAcquire job => Some job
      | _ => None
      end
  | _, _ => None
  end.

Fixpoint admissions (s : State) (t : list Event) : list urlJob :=
  match t with
  | [] => []
  | e :: t' =>
      match step s e with
      | Some s' =>
          match admits s e with
          | Some job => job :: admissions s' t'
          | None => admissions s' t'
          end
      | None => []
      end
  end.

(** What a call of [SpiderWebsite] returns: [None] for [nil, err], and
    [Some r] for [r, nil], which is the result when the crawl has run to
    the return statement. *)
Inductive Returns (targetURL : string) (options : option SpiderOptions)
  : option SpiderResult → Prop :=
  | ReturnsError :
      SpiderWebsite_start targetURL options = StartError →
      Returns targetURL options None
  | ReturnsResult (s0 s : State) (t : list Event) :
      SpiderWebsite_start targetURL options = Started s0 →
      run s0 t = Some s →
      pc s = SReturned →
      Returns targetURL options (Some (result s)).

End Crawl.

(** ** A reference implementation of the library functions

    An executable instance of [GoLib] on which the crawler can be run.  It
    follows Go's [strings] and [net/url] on ASCII strings and on URLs made
    of a scheme, a host of letters, digits, dots and hyphens, a path of
    unreserved characters and slashes, a query and a fragment; [Parse]
    answers [None] on anything else (user information, ports, brackets,
    percent escapes), also where Go would accept it. *)
Module RefLib.

Definition inRange (lo hi : N) (c : ascii) : bool :=
  let n := N_of_ascii c in ((lo <=? n) && (n <=? hi))%N.

Definition isSpace (c : ascii) : bool :=
  inRange 9 13 c || Ascii.eqb c " ".

Definition isLetter (c : ascii) : bool := inRange 65 90 c || inRange 97 122 c.
Definition isDigit (c : ascii) : bool := inRange 48 57 c.

Fixpoint dropSpace (s : string) : string :=
  match s with
  | String c s' => if isSpace c then dropSpace s' else s
  | EmptyString => EmptyString
  end.

Definition TrimSpace (s : string) : string :=
  String.rev (dropSpace (String.rev (dropSpace s))).

Definition lowerChar (c : ascii) : ascii :=
  if inRange 65 90 c then ascii_of_N (N_of_ascii c + 32) else c.

Fixpoint ToLower (s : string) : string :=
  match s with
  | String c s' => String (lowerChar c) (ToLower s')
  | EmptyString => EmptyString
  end.

Fixpoint forallb_string (f : ascii -> bool) (s : string) : bool :=
  match s with
  | String c s' => f c && forallb_string f s'
  | EmptyString => true
  end.

(** [strings.Cut] at a one-byte separator. *)
Definition Cut (s : string) (sep : ascii) : string * string * bool :=
  match splitAt sep s with
  | Some (before, after) => (before, after, true)
  | None => (s, EmptyString, false)
  end.

(** [getScheme]: [None] is the error of a colon in first place. *)
Fixpoint getScheme (first : bool) (acc rest : string)
  : option (string * string) :=
  match rest with
  | EmptyString => Some (EmptyString, String.rev acc)
  | String c rest' =>
      if isLetter c then getScheme false (String c acc) rest'
      else if isDigit c || existsb (Ascii.eqb c) ["+"; "-"; "."]%char then
        if first then Some (EmptyString, String.rev acc +:+ rest)
        else getScheme false (String c acc) rest'
      else if Ascii.eqb c ":" then
        if first then None else Some (String.rev acc, rest')
      else Some (EmptyString, String.rev acc +:+ rest)
  end.

Definition hostChar (c : ascii) : bool :=
  isLetter c || isDigit c || existsb (Ascii.eqb c) ["-"; "."; "_"; "~"]%char.

Definition pathChar (c : ascii) : bool := hostChar c || Ascii.eqb c "/".

Definition isControl (c : ascii) : bool :=
  inRange 0 31 c || Ascii.eqb c "127".

Definition Parse (rawURL : string) : option URL :=
  let '(u, frag, _) := Cut rawURL "#" in
  if negb (forallb_string (fun c => negb (isControl c)) u) then None
  else if negb (forallb_string pathChar frag) then None
  else
    match getScheme true EmptyString u with
    | None => None
    | Some (scheme, rest) =>
        let scheme := ToLower scheme in
        let '(rest, query, found) := Cut rest "?" in
        let force := found && String.eqb query "" in
        if negb (strings.HasPrefix rest "/") then
          if negb (String.eqb scheme "") then
            Some (mkURL scheme rest None "" "" "" false force query frag "")
          else if strings.Contains (fst (fst (Cut rest "/"))) ":" then None
          else if forallb_string pathChar rest then
            Some (mkURL scheme "" None "" rest "" false force query frag "")
          else None
        else if (negb (String.eqb scheme "")
                 || negb (strings.HasPrefix rest "///"))
                && strings.HasPrefix rest "//" then
          let authority := strings.TrimPrefix rest "//" in
          let '(host, path, slash) := Cut authority "/" in
          let path := if slash then String "/" path else EmptyString in
          if forallb_string hostChar host && forallb_string pathChar path
          then Some (mkURL scheme "" None host path "" false force query
                       frag "")
          else None
        else if forallb_string pathChar rest then
          Some (mkURL scheme "" None "" rest ""
                  (negb (String.eqb scheme "")) force query frag "")
        else None
    end.

(** [String] for a URL without user information whose parts need no
    escaping. *)
Definition String_ (u : URL) : string :=
  let nonEmpty (s : string) := negb (String.eqb s "") in
  let scheme := if nonEmpty (Scheme u) then Scheme u +:+ ":" else "" in
  let body :=
    if nonEmpty (Opaque u) then Opaque u
    else
      let authority :=
        if nonEmpty (Scheme u) || nonEmpty (Host u) then
          if OmitHost u && String.eqb (Host u) "" then ""
          else (if nonEmpty (Host u) || nonEmpty (Path u) then "//" else "")
               +:+ Host u
        else "" in
      let slash :=
        if nonEmpty (Path u) && negb (strings.HasPrefix (Path u) "/")
           && nonEmpty (Host u) then "/" else "" in
      let dot :=
        if String.eqb (scheme +:+ authority +:+ slash) ""
           && strings.Contains (fst (fst (Cut (Path u) "/"))) ":"
        then "./" else "" in
      authority +:+ slash +:+ dot +:+ Path u in
  let query :=
    if ForceQuery u || nonEmpty (RawQuery u) then "?" +:+ RawQuery u
    else "" in
  let fragment := if nonEmpty (Fragment u) then "#" +:+ Fragment u else "" in
  scheme +:+ body +:+ query +:+ fragment.

(** [ResolveReference] for a reference that is a path without dot
    segments, with or without query and fragment; any other reference is
    returned with the scheme of the base. *)
Definition ResolveReference (base ref : URL) : URL :=
  let scheme := if String.eqb (Scheme ref) "" then Scheme base
                else Scheme ref in
  if negb (String.eqb (Scheme ref) "") || negb (String.eqb (Host ref) "")
     || negb (String.eqb (Opaque ref) "") || String.eqb (Path ref) ""
  then mkURL scheme (Opaque ref) (User ref) (Host ref) (Path ref)
         (RawPath ref) (OmitHost ref) (ForceQuery ref) (RawQuery ref)
         (Fragment ref) (RawFragment ref)
  else
    let dir :=
      match splitAt "/" (String.rev (Path base)) with
      | Some (_, d) => String.rev d +:+ "/"
      | None => "/"
      end in
    let path := if strings.HasPrefix (Path ref) "/" then Path ref
                else dir +:+ Path ref in
    mkURL scheme "" (User base) (Host base) path "" (OmitHost ref)
      (ForceQuery ref) (RawQuery ref) (Fragment ref) (RawFragment ref).

(** [Query().Get]: the value of the first pair with the key, among the
    pairs that need no unescaping. *)
Fixpoint queryGet (fuel : nat) (query key : string) : string :=
  match fuel with
  | O => ""
  | S fuel' =>
      let '(kv, rest, more) := Cut query "&" in
      let '(k, v, _) := Cut kv "=" in
      let plain (s : string) :=
        forallb_string
          (fun c => negb (existsb (Ascii.eqb c) ["%"; "+"; ";"]%char)) s in
      if plain kv && String.eqb k key && negb (String.eqb kv "") then v
      else if more then queryGet fuel' rest key else ""
  end.

Definition Query_Get (u : URL) (key : string) : string :=
  queryGet (S (String.length (RawQuery u))) (RawQuery u) key.

Definition lib : GoLib :=
  Build_GoLib TrimSpace ToLower Parse ResolveReference String_ Query_Get.

End RefLib.

(** ** What the spec says about scope, in its own words *)

(** [x] is a dot-suffix of [y]: [y] ends with a dot followed by [x]. *)
Definition dotSuffix (x y : string) : Prop := ∃ p, y = p +:+ "." +:+ x.

(** [h'] is [h] after stripping one leading [www.]. *)
Definition stripWww (h h' : string) : Prop :=
  h = "www." +:+ h' ∨ ((∀ r, h ≠ "www." +:+ r) ∧ h' = h).

(** Scope eligibility as the spec states it: the hosts are equal up to
    case, or subdomains are crawled and one of the two hosts, both taken
    up to case and stripped, is a dot-suffix of the other. *)
Definition inScope `{GoLib} (target base : string) (crawlSubDomain : bool)
  : Prop :=
  ToLower target = ToLower base
  ∨ (crawlSubDomain = true
     ∧ ∃ t b, stripWww (ToLower target) t ∧ stripWww (ToLower base) b
              ∧ (dotSuffix b t ∨ dotSuffix t b)).

(** The URL [https://host/], as [url.Parse] gives it. *)
Definition hostURL (host : string) : URL :=
  mkURL "https" "" None host "/" "" false false "" "" "".

(** What [url.Parse] and [String] are relied on for when a link is said to
    be absolute: a string that begins with a scheme and a colon parses to
    that scheme, and a URL with a scheme prints with it in front. *)
Class GoLibLaws (L : GoLib) : Prop := {
  Parse_http : ∀ s u,
    url_Parse s = Some u → strings.HasPrefix s "http://" = true →
    Scheme u = "http";
  Parse_https : ∀ s u,
    url_Parse s = Some u → strings.HasPrefix s "https://" = true →
    Scheme u = "https";
  String_scheme : ∀ u,
    Scheme u ≠ "" →
    strings.HasPrefix (url_String u) (Scheme u +:+ ":") = true
}.



(** A URL string the classifier may emit: the rendering of an absolute URL
    whose scheme is http or https, and so a string that starts with one of
    the two schemes and a colon. *)
Definition absoluteHttp `{GoLib} (c : string) : Prop :=
  ∃ u, IsAbs u = true ∧ (Scheme u = "http" ∨ Scheme u = "https")
       ∧ c = url_String u
       ∧ (strings.HasPrefix c "http:" = true
          ∨ strings.HasPrefix c "https:" = true).

(** A page, as the Fetcher returns it, with the given internal links. *)
Definition pageOf (text : string) (hrefs : list string)
  : webcrawl.CrawlResult :=
  webcrawl.mkCrawlResult text
    (webcrawl.mkLinks (map (fun h => webcrawl.mkLink h "") hrefs) []).

(** ** Invariants of the crawl *)

(** The job the scheduler has admitted and not yet started. *)
Definition pendingJob (p : SchedPC) : list urlJob :=
  match p with
  | SAcquire job => [job]
  | _ => []
  end.

Definition workerJob (w : Worker) : urlJob :=
  mkUrlJob (currentURL w) (currentDepth w).

(** The jobs admitted so far: those of the goroutines started and the one
    the scheduler is about to start. *)
Definition admittedJobs (s : State) : list urlJob :=
  (workerJob <$> workers s) ++ pendingJob (pc s).

(** The worker is past its call of [CrawlWebsite]. *)
Definition fetched (w : Worker) : Prop := wpc w ≠ WFetch.

(** The worker is extracting or enqueuing the links of its page. *)
Definition expanding (w : Worker) : Prop :=
  match wpc w with
  | WExtract _ | WSend _ => True
  | _ => False
  end.

(** What holds in every state of a crawl. *)
Record Safe (s : State) : Prop := mkSafe {
  safe_total : int_min <= TotalPages (result s) <= MaxPages (options s);
  safe_loop : pc s = SSelect → TotalPages (result s) < MaxPages (options s);
  safe_visited : ∀ u, u ∈ visitedURLs s ↔ u ∈ url <$> admittedJobs s;
  safe_nodup : NoDup (url <$> admittedJobs s);
  safe_crawled : ∀ u, u ∈ CrawledURLs (result s) →
    ∃ j w, workers s !! j = Some w ∧ currentURL w = u ∧ fetched w;
  safe_failed : ∀ u, u ∈ dom (FailedPages (result s)) →
    ∃ j w, workers s !! j = Some w ∧ currentURL w = u ∧ fetched w;
  safe_crawled_nodup : NoDup (CrawledURLs (result s));
  safe_disjoint : ∀ u, u ∈ CrawledURLs (result s) →
    u ∉ dom (FailedPages (result s));
  safe_depth : Forall (λ j, depth j <= MaxDepth (options s)) (admittedJobs s);
  safe_expand : ∀ j w, workers s !! j = Some w → expanding w →
    currentDepth w < MaxDepth (options s)
}.

(** ** Counters and a measure for termination *)

(** The worker holds a place in the semaphore. *)
Definition holdsToken (w : Worker) : nat :=
  match wpc w with
  | WDeferDone | WExited => 0
  | _ => 1
  end.

(** The worker is counted in [activeWorkers]. *)
Definition isActive (w : Worker) : nat :=
  match wpc w with
  | WDeferSem | WDeferDone | WExited => 0
  | _ => 1
  end.

(** The worker is counted in the wait group. *)
Definition isRunning (w : Worker) : nat :=
  match wpc w with
  | WExited => 0
  | _ => 1
  end.

(** The configurations of the spec: a page limit that is an [int], at
    least one worker at a time, a depth limit that is not negative. *)
Record wellFormed (o : SpiderOptions) : Prop := mkWellFormed {
  wf_MaxPages : is_int (MaxPages o);
  wf_Concurrency : 1 <= Concurrency o;
  wf_MaxDepth : 0 <= MaxDepth o
}.

Record Live (s : State) : Prop := mkLive {
  live_sem : length (buf (semaphore s)) = sum_list_with holdsToken (workers s);
  live_active :
    activeWorkers s = Z.of_nat (sum_list_with isActive (workers s));
  live_wg : wg s = sum_list_with isRunning (workers s);
  live_total :
    TotalPages (result s)
    = Z.of_nat (length (workers s) + length (pendingJob (pc s)));
  live_cap : 1 <= cap (semaphore s);
  live_max : 1 <= MaxPages (options s) <= int_max;
  live_depth : 0 <= MaxDepth (options s);
  live_returned : pc s = SReturned → wg s = 0%nat
}.

(** What is left to do before the fetches, and after them. *)
Definition fetchWeight (w : Worker) : nat :=
  match wpc w with
  | WFetch => 2
  | WExtract _ => 1
  | _ => 0
  end.

Definition sendWeight (w : Worker) : nat :=
  match wpc w with
  | WSend links => 2 * length links + 4
  | WDeferActive => 3
  | WDeferSem => 2
  | WDeferDone => 1
  | _ => 0
  end.

Definition pcWeight (p : SchedPC) : nat :=
  match p with
  | SSelect | SAcquire _ => 2
  | SWait => 1
  | SReturned => 0
  end.

Definition measure (s : State) : nat * nat :=
  ((4 * Z.to_nat (MaxPages (options s) - TotalPages (result s))
    + 3 * length (pendingJob (pc s))
    + sum_list_with fetchWeight (workers s))%nat,
   (sum_list_with sendWeight (workers s) + length (buf (urlJobs s))
    + pcWeight (pc s))%nat).

Definition measureLt : relation (nat * nat) := slexprod nat nat lt lt.

(** A Fetcher, as far as one crawl can tell: what it returns for each
    URL.  (No URL is fetched twice.) *)
Definition Fetcher : Type := string → FetchOutcome.

Definition obeys (F : Fetcher) (s : State) (e : Event) : Prop :=
  match e with
  | EvFetch i o =>
      ∃ w, workers s !! i = Some w ∧ o = F (currentURL w)
  | _ => True
  end.

Fixpoint obeying `{GoLib} (F : Fetcher) (s : State) (t : list Event) : Prop :=
  match t with
  | [] => True
  | e :: t' =>
      obeys F s e
      ∧ match step s e with
        | Some s' => obeying F s' t'
        | None => True
        end
  end.





(** ** Two crawls to run

    The seed https://a.test/ links to a page and to a file, and the page
    links to the same file. *)
Definition demoOptions : SpiderOptions :=
  mkSpiderOptions 10 2 true 30000000000 2 0.

Definition demoSeedPage : webcrawl.CrawlResult :=
  pageOf "seed" ["https://a.test/p1"; "https://a.test/doc.pdf"].

Definition demoP1Page : webcrawl.CrawlResult :=
  pageOf "p1" ["https://a.test/doc.pdf"].

Definition demoState0 : State :=
  {| options := demoOptions;
     parsedURL := hostURL "a.test";
     result := mkSpiderResult "" [] [] 0 0 ∅ 0;
     visitedURLs := ∅;
     urlJobs := mkChan [mkUrlJob "https://a.test/" 0] 20;
     semaphore := mkChan [] 2;
     activeWorkers := 0;
     wg := 0%nat;
     workers := [];
     pc := SSelect;
     infoLog := [] |}.

Definition demoTrace : list Event :=
  [EvRecv; EvAcquire; EvFetch 0 (FetchOk demoSeedPage);
   EvExtract 0 ["https://a.test/p1"] ["https://a.test/doc.pdf"];
   EvSend 0; EvSend 0; EvDefer 0; EvDefer 0; EvDefer 0;
   EvRecv; EvAcquire; EvFetch 1 (FetchOk demoP1Page);
   EvExtract 1 [] ["https://a.test/doc.pdf"];
   EvSend 1; EvDefer 1; EvDefer 1; EvDefer 1;
   EvTimeout; EvJoin ["https://a.test/doc.pdf"] 5].

Definition demoFinal : State :=
  default demoState0 (@run RefLib.lib demoState0 demoTrace).

(** The first state of that crawl, had ten pages been counted already. *)
Definition demoFull : State :=
  upd_result (fun r => mkSpiderResult "" [] [] 10 0 ∅ 0) demoState0.

(** The same seed when the Fetcher fails. *)
Definition demoErrTrace : list Event :=
  [EvRecv; EvAcquire; EvFetch 0 (FetchErr "connection refused");
   EvDefer 0; EvDefer 0; EvDefer 0; EvTimeout; EvJoin [] 7].

Definition demoErrFinal : State :=
  default demoState0 (@run RefLib.lib demoState0 demoErrTrace).

(** ** More invariants of the crawl *)

(** A link the classifier emits for the seed [seedURL]: the rendering,
    with the fragment cleared, of a URL that [shouldCrawlURL] accepts;
    [file] is what [isFileURL] answers for it. *)
Definition linkOf `{GoLib} (seedURL : URL) (crawlSubDomain file : bool)
    (c : string) : Prop :=
  ∃ u, shouldCrawlURL u seedURL crawlSubDomain = true
       ∧ isFileURL (set_Fragment u "") = file
       ∧ c = url_String (set_Fragment u "").

(** What a link with the href [href] adds to the two sets of
    [extractLinks]. *)
Definition linkYield `{GoLib} (href baseURL : string) (parsedBaseURL : URL)
    (crawlSubDomain : bool) : gset string * gset string :=
  let href := TrimSpace href in
  if String.eqb href "" then (∅, ∅)
  else processLinkFromResponse href "" baseURL parsedBaseURL crawlSubDomain
         ∅ ∅.

(** The links a worker has still to offer to the queue. *)
Definition toSend (w : Worker) : list string :=
  match wpc w with
  | WSend links => links
  | _ => []
  end.

(** Every URL the crawl holds, other than the seed, is a link of the
    classifier: in the queue, admitted, on its way to the queue; and every
    file URL detected is one of its file links. *)
Record InScope `{GoLib} (seed : string) (s : State) : Prop := mkInScope {
  scope_queue : ∀ j, j ∈ buf (urlJobs s) →
    url j = seed
    ∨ linkOf (parsedURL s) (CrawlSubDomain (options s)) false (url j);
  scope_admitted : ∀ j, j ∈ admittedJobs s →
    url j = seed
    ∨ linkOf (parsedURL s) (CrawlSubDomain (options s)) false (url j);
  scope_sending : ∀ i w c, workers s !! i = Some w → c ∈ toSend w →
    linkOf (parsedURL s) (CrawlSubDomain (options s)) false c;
  scope_files : ∀ f, f ∈ DetectedFileUrls (result s) →
    linkOf (parsedURL s) (CrawlSubDomain (options s)) true f
}.

(** The worker is past its call of [CrawlWebsite], as a number. *)
Definition hasFetched (w : Worker) : nat :=
  match wpc w with
  | WFetch => 0
  | _ => 1
  end.

(** The worker is in its call of [CrawlWebsite], or about to make it. *)
Definition fetching (w : Worker) : nat :=
  match wpc w with
  | WFetch => 1
  | _ => 0
  end.

(** The counters of the result against the goroutines. *)
Record Counted (s : State) : Prop := mkCounted {
  counted_success :
    SuccessfulPages (result s)
    = Z.of_nat (length (CrawledURLs (result s)));
  counted_sum :
    (length (CrawledURLs (result s)) + size (dom (FailedPages (result s)))
     = sum_list_with hasFetched (workers s))%nat;
  counted_fetched : ∀ i w, workers s !! i = Some w → fetched w →
    currentURL w ∈ CrawledURLs (result s)
    ∨ currentURL w ∈ dom (FailedPages (result s))
}.

(** The semaphore and the wait group against the goroutines, in every
    configuration. *)
Record Tokens (s : State) : Prop := mkTokens {
  tok_sem : length (buf (semaphore s)) = sum_list_with holdsToken (workers s);
  tok_room : Z.of_nat (length (buf (semaphore s))) <= cap (semaphore s);
  tok_cap : cap (semaphore s) = Concurrency (options s);
  tok_wg : wg s = sum_list_with isRunning (workers s);
  tok_returned : pc s = SReturned → wg s = 0%nat
}.

(** The seed is still the only job of the queue, or it has been
    admitted. *)
Definition SeedFirst (seed : string) (s : State) : Prop :=
  (buf (urlJobs s) = [mkUrlJob seed 0] ∧ workers s = [] ∧ pc s = SSelect
   ∧ visitedURLs s = ∅ ∧ TotalPages (result s) = 0)
  ∨ seed ∈ url <$> admittedJobs s.

(** The queue within its capacity. *)
Definition QueueFits (s : State) : Prop :=
  Z.of_nat (length (buf (urlJobs s))) <= cap (urlJobs s).

(** Once the loop is left: the page limit is reached, or nothing is queued
    and no goroutine is left that could queue a link. *)
Definition Drained (s : State) : Prop :=
  pc s = SWait ∨ pc s = SReturned →
  MaxPages (options s) <= TotalPages (result s)
  ∨ (buf (urlJobs s) = []
     ∧ ∀ i w, workers s !! i = Some w → isActive w = 0%nat).

(** The text [SpiderWebsite] appends to [result.Content] for a page. *)
Definition pageSection (currentURL cleanedContent : string) : string :=
  newline +:+ newline +:+ "# URL: " +:+ currentURL +:+ newline +:+ newline
    +:+ cleanedContent.

Definition joinStrings (l : list string) : string :=
  foldr String.append "" l.

(** The page a step crawls with success: its URL and the text the Fetcher
    returned. *)
Definition crawls (s : State) (e : Event) : option (string * string) :=
  match e with
  | EvFetch i (FetchOk r) =>
      match workers s !! i with
      | Some w => Some (currentURL w, webcrawl.Content r)
      | None => None
      end
  | _ => None
  end.

(** The pages crawled with success along a run, in order. *)
Fixpoint crawled `{GoLib} (s : State) (t : list Event)
  : list (string * string) :=
  match t with
  | [] => []
  | e :: t' =>
      match step s e with
      | Some s' => option_list (crawls s e) ++ crawled s' t'
      | None => []
      end
  end.

(** ** The package [webcrawl]: the links and the text of a page

    The document is looked at through goquery.  Of a node the package
    reads its name, its text and its href attribute; of a selection, its
    child nodes and the anchors with an href below it. *)
Module goquery.

Record Node : Type := mkNode {
  NodeName : string;            (* goquery.NodeName(s) *)
  Text : string;                (* s.Text() *)
  Attr_href : option string     (* s.Attr(href): the value, if it exists *)
}.

Record Selection : Type := mkSelection {
  Contents : list Node;         (* selection.Contents() *)
  Find_a_href : list Node       (* selection.Find(a[href]) *)
}.

End goquery.

(** [strings.Repeat] for a count that is not negative (a negative count
    panics; the package takes the count from [parseInt]). *)
Fixpoint strings_Repeat (s : string) (count : nat) : string :=
  match count with
  | O => ""
  | S n => s +:+ strings_Repeat s n
  end.

(** White space for Go's regexp: tab, line feed, form feed, carriage
    return and space. *)
Definition reSpace (c : ascii) : bool :=
  existsb (Ascii.eqb c) ["009"; "010"; "012"; "013"; " "]%char.

Definition isLF (c : ascii) : bool := Ascii.eqb c "010".

(** [multipleSpaces.ReplaceAllString] with one space as the replacement:
    every maximal run of white space becomes one space; [inRun] says that
    the character before was white space. *)
Fixpoint multipleSpaces_ReplaceAllString (inRun : bool) (content : string)
  : string :=
  match content with
  | EmptyString => EmptyString
  | String c rest =>
      if reSpace c then
        if inRun then multipleSpaces_ReplaceAllString true rest
        else String " " (multipleSpaces_ReplaceAllString true rest)
      else String c (multipleSpaces_ReplaceAllString false rest)
  end.

Fixpoint countLF (s : string) : nat :=
  match s with
  | EmptyString => 0
  | String c rest => ((if isLF c then 1 else 0) + countLF rest)%nat
  end.

(** What follows the last line feed of [s]. *)
Fixpoint afterLastLF (s : string) : string :=
  match s with
  | EmptyString => EmptyString
  | String c rest =>
      if (0 <? countLF rest)%nat then afterLastLF rest
      else if isLF c then rest
      else String c rest
  end.

Fixpoint dropWhile (f : ascii -> bool) (s : string) : string :=
  match s with
  | EmptyString => EmptyString
  | String c s' => if f c then dropWhile f s' else s
  end.

(** [multipleNewlines.ReplaceAllString] with two line feeds as the
    replacement.  The pattern is a line feed, white space, a line feed,
    white space, a line feed.  At a line feed the white space that follows
    is taken as far as it goes; a match needs two more line feeds in it and
    ends with the last of them, as both runs of white space are greedy. *)
Fixpoint multipleNewlines_ReplaceAllString (fuel : nat) (content : string)
  : string :=
  match fuel with
  | O => content
  | S fuel' =>
      match content with
      | EmptyString => EmptyString
      | String c rest =>
          let run := takeWhile reSpace rest in
          if isLF c && (2 <=? countLF run)%nat then
            newline +:+ newline
              +:+ multipleNewlines_ReplaceAllString fuel'
                    (afterLastLF run +:+ dropWhile reSpace rest)
          else String c (multipleNewlines_ReplaceAllString fuel' rest)
      end
  end.

(** The link records as the package declares them.  The spider reads the
    fields [Href] and [Text] of a link, and of the result of
    [CrawlWebsite] the fields [Content] and [Links]: the record
    [webcrawl.CrawlResult] above. *)
Module Webcrawl.

Record LinkData : Type := mkLinkData {
  Href : string;
  Text : string;
  BaseDomain : string
}.

Record Links : Type := mkLinks {
  Internal : list LinkData;
  External : list LinkData
}.

(** What the spider reads of a link and of the result for a page. *)
Definition asLink (l : LinkData) : webcrawl.Link :=
  webcrawl.mkLink (Href l) (Text l).

Definition asCrawlResult (content : string) (links : Links)
  : webcrawl.CrawlResult :=
  webcrawl.mkCrawlResult content
    (webcrawl.mkLinks (asLink <$> Internal links) (asLink <$> External links)).

Definition parseInt (s : string) : Z :=
  if String.eqb s "1" then 1
  else if String.eqb s "2" then 2
  else if String.eqb s "3" then 3
  else if String.eqb s "4" then 4
  else if String.eqb s "5" then 5
  else if String.eqb s "6" then 6
  else 1.

Section WithLib.
Context `{GoLib}.

(** The function given to [Each] in [extractLinks], on the two slices. *)
Definition eachAnchor (baseURLParsed : URL) (links : Links)
    (s : goquery.Node) : Links :=
  match goquery.Attr_href s with
  | None => links
  | Some href =>
      if String.eqb href "" then links
      else
        let text := TrimSpace (goquery.Text s) in
        let text := if String.eqb text "" then href else text in
        match url_Parse href with
        | None => links
        | Some linkURL =>
            let resolvedURL := url_ResolveReference baseURLParsed linkURL in
            let linkData :=
              {| Href := url_String resolvedURL;
                 Text := text;
                 BaseDomain := Host resolvedURL |} in
            if String.eqb (Host resolvedURL) (Host baseURLParsed)
            then mkLinks (Internal links ++ [linkData]) (External links)
            else mkLinks (Internal links) (External links ++ [linkData])
        end
  end.

Definition extractLinks (selection : goquery.Selection) (baseURL : string)
  : Links :=
  match url_Parse baseURL with
  | None => mkLinks [] []
  | Some baseURLParsed =>
      fold_left (eachAnchor baseURLParsed) (goquery.Find_a_href selection)
        (mkLinks [] [])
  end.

(** The function given to [Each] in [htmlToCleanText]: what it writes to
    the builder. *)
Definition eachNode (s : goquery.Node) : string :=
  let plain :=
    let text := TrimSpace (goquery.Text s) in
    if negb (String.eqb text "") then text +:+ " " else "" in
  if String.eqb (goquery.NodeName s) "#text" then plain
  else
    let tagName := goquery.NodeName s in
    if existsb (String.eqb tagName) ["h1"; "h2"; "h3"; "h4"; "h5"; "h6"] then
      let level := match tagName with
                   | String _ rest => rest
                   | EmptyString => EmptyString
                   end in
      let prefix := strings_Repeat "#" (Z.to_nat (parseInt level)) in
      newline +:+ newline +:+ prefix +:+ " "
        +:+ TrimSpace (goquery.Text s) +:+ newline +:+ newline
    else if String.eqb tagName "p" then
      newline +:+ TrimSpace (goquery.Text s) +:+ newline
    else if String.eqb tagName "br" then newline
    else if String.eqb tagName "li" then
      "- " +:+ TrimSpace (goquery.Text s) +:+ newline
    else if String.eqb tagName "blockquote" then
      newline +:+ "> " +:+ TrimSpace (goquery.Text s) +:+ newline
    else if String.eqb tagName "code" then
      "`" +:+ TrimSpace (goquery.Text s) +:+ "`"
    else if String.eqb tagName "pre" then
      newline +:+ "```" +:+ newline +:+ TrimSpace (goquery.Text s)
        +:+ newline +:+ "```" +:+ newline
    else plain.

(** What the function writes for the child nodes, after the first
    replacement. *)
Definition collapsedText (selection : goquery.Selection) : string :=
  multipleSpaces_ReplaceAllString false
    (joinStrings (eachNode <$> goquery.Contents selection)).

Definition htmlToCleanText (selection : goquery.Selection) : string :=
  let content := collapsedText selection in
  let content :=
    multipleNewlines_ReplaceAllString (String.length content) content in
  TrimSpace content.



End WithLib.

End Webcrawl.

(** What [Webcrawl.extractLinks] keeps true of the two slices while it
    goes over [n] anchors. *)
Definition linksOk `{GoLib} (baseURLParsed : URL) (n : nat)
    (links : Webcrawl.Links) : Prop :=
  (∀ l, l ∈ Webcrawl.Internal links →
        Webcrawl.BaseDomain l = Host baseURLParsed)
  ∧ (∀ l, l ∈ Webcrawl.External links →
          Webcrawl.BaseDomain l ≠ Host baseURLParsed)
  ∧ (∀ l, l ∈ Webcrawl.Internal links ++ Webcrawl.External links →
          Webcrawl.Text l ≠ ""
          ∧ ∃ u, Webcrawl.Href l = url_String u
                 ∧ Webcrawl.BaseDomain l = Host u)
  ∧ (length (Webcrawl.Internal links) + length (Webcrawl.External links)
     <= n)%nat.

(** ** The classifier, step by step *)




(** ** More crawls to run *)

(** No worker at a time, and a depth limit below zero. *)
Definition demoNoWorkerOptions : SpiderOptions :=
  mkSpiderOptions 10 2 true 30000000000 0 0.

Definition demoNoDepthOptions : SpiderOptions :=
  mkSpiderOptions 10 (-1) true 30000000000 2 0.

(** The first state of a crawl of https://a.test/ with these options. *)
Definition demoStateWith (o : SpiderOptions) : State :=
  {| options := o;
     parsedURL := hostURL "a.test";
     result := mkSpiderResult "" [] [] 0 0 ∅ 0;
     visitedURLs := ∅;
     urlJobs := mkChan [mkUrlJob "https://a.test/" 0] (MaxPages o * 2);
     semaphore := mkChan [] (Concurrency o);
     activeWorkers := 0;
     wg := 0%nat;
     workers := [];
     pc := SSelect;
     infoLog := [] |}.

(** A page of https://a.test/ with a link to a subdomain and a link to
    another site. *)
Definition demoSelection : goquery.Selection :=
  goquery.mkSelection
    [goquery.mkNode "h1" "Title" None;
     goquery.mkNode "#text" " some text " None;
     goquery.mkNode "p" "a paragraph" None]
    [goquery.mkNode "a" "sub" (Some "https://sub.a.test/x");
     goquery.mkNode "a" "other" (Some "https://b.test/")].


(** * Properties *)

#[local] Set Warnings "-clear-no-such-hyp".

(** ** Strings *)

Lemma append_cons (a : ascii) (s t : string) :
  String a s +:+ t = String a (s +:+ t).
Proof. reflexivity. Qed.

Lemma append_nil_l (s : string) : "" +:+ s = s.
Proof. reflexivity. Qed.

Lemma append_nil_r (s : string) : s +:+ "" = s.
Proof.
  induction s as [|a s IH]; [done |]. by rewrite append_cons, IH.
Qed.

Lemma append_assoc (a b c : string) : (a +:+ b) +:+ c = a +:+ (b +:+ c).
Proof.
  induction a as [|x a IH]; [done |]. by rewrite !append_cons, IH.
Qed.

Lemma CutPrefix_Some (s p r : string) :
  strings.CutPrefix s p = Some r ↔ s = p +:+ r.
Proof.
  revert s. induction p as [|a p IH]; intros s; simpl.
  - rewrite append_nil_l. split; congruence.
  - rewrite append_cons. destruct s as [|b s]; [split; discriminate |].
    destruct (Ascii.eqb_spec a b) as [->|Hne].
    + rewrite IH. split; congruence.
    + split; [discriminate | congruence].
Qed.

Lemma CutPrefix_None (s p : string) :
  strings.CutPrefix s p = None ↔ ∀ r, s ≠ p +:+ r.
Proof.
  destruct (strings.CutPrefix s p) as [r|] eqn:E.
  - apply CutPrefix_Some in E. split; [discriminate |].
    intros Hn. by destruct (Hn r).
  - split; [| done]. intros _ r Hr. apply CutPrefix_Some in Hr. congruence.
Qed.

Lemma HasPrefix_spec (s p : string) :
  strings.HasPrefix s p = true ↔ ∃ r, s = p +:+ r.
Proof.
  unfold strings.HasPrefix.
  destruct (strings.CutPrefix s p) as [r|] eqn:E.
  - apply CutPrefix_Some in E. split; [by exists r | done].
  - split; [done |]. intros [r Hr]. apply CutPrefix_Some in Hr. congruence.
Qed.

Lemma HasSuffix_spec (s suffix : string) :
  strings.HasSuffix s suffix = true ↔ ∃ p, s = p +:+ suffix.
Proof.
  induction s as [|a s IH]; cbn [strings.HasSuffix].
  - destruct (String.eqb_spec "" suffix) as [<-|Hne].
    + split; [by exists "" | done].
    + split; [done |].
      intros [[|b p] Hp]; rewrite ?append_nil_l, ?append_cons in Hp;
        congruence.
  - destruct (String.eqb_spec (String a s) suffix) as [<-|Hne].
    + split; [by exists "" | done].
    + rewrite IH. split.
      * intros [p ->]. by exists (String a p).
      * intros [[|b p] Hp]; rewrite ?append_nil_l, ?append_cons in Hp;
          [congruence |].
        exists p. congruence.
Qed.

Lemma TrimPrefix_strip (h : string) :
  stripWww h (strings.TrimPrefix h "www.").
Proof.
  unfold stripWww, strings.TrimPrefix.
  destruct (strings.CutPrefix h "www.") as [r|] eqn:E.
  - left. by apply CutPrefix_Some.
  - right. split; [| done]. by apply CutPrefix_None.
Qed.

Lemma stripWww_fun (h a b : string) : stripWww h a → stripWww h b → a = b.
Proof.
  intros [Ha|[Ha ->]] [Hb|[Hb ->]]; try done.
  - subst h. by apply (inj (String.append "www.")) in Hb.
  - by destruct (Hb a).
  - by destruct (Ha b).
Qed.

(** ** The link classifier *)

Section ClassifierFacts.
Context `{GoLib}.

Lemma shouldCrawlURL_inScope (targetURL baseURL : URL) (sub : bool) :
  shouldCrawlURL targetURL baseURL sub = true
  ↔ inScope (Host targetURL) (Host baseURL) sub.
Proof.
  unfold shouldCrawlURL, inScope.
  destruct (String.eqb_spec (ToLower (Host targetURL))
              (ToLower (Host baseURL))) as [Heq|Hne].
  { split; [by left | done]. }
  destruct sub.
  - rewrite orb_true_iff, !HasSuffix_spec. split.
    + intros Hs. right. split; [done |].
      eexists _, _. split; [apply TrimPrefix_strip |].
      split; [apply TrimPrefix_strip |]. exact Hs.
    + intros [? | [_ (t & b & Ht & Hb & Hs)]]; [done |].
      rewrite (stripWww_fun _ _ _ (TrimPrefix_strip _) Ht).
      rewrite (stripWww_fun _ _ _ (TrimPrefix_strip _) Hb).
      exact Hs.
  - split; [done |]. by intros [? | [? _]].
Qed.

Lemma shouldCrawlURL_exact (targetURL baseURL : URL) :
  shouldCrawlURL targetURL baseURL false = true
  ↔ ToLower (Host targetURL) = ToLower (Host baseURL).
Proof.
  unfold shouldCrawlURL.
  destruct (String.eqb_spec (ToLower (Host targetURL))
              (ToLower (Host baseURL))); by split.
Qed.

End ClassifierFacts.

Lemma HasPrefix_app (p r : string) : strings.HasPrefix (p +:+ r) p = true.
Proof. apply HasPrefix_spec. by exists r. Qed.

Lemma HasPrefix_app_assoc (p q r : string) :
  strings.HasPrefix (p +:+ q +:+ r) p = true.
Proof. apply HasPrefix_spec. by eexists. Qed.

Lemma matchAfter_Some (lit s m : string) :
  matchAfter lit s = Some m →
  strings.HasPrefix m lit = true ∧ strings.HasPrefix s lit = true ∧ m ≠ "".
Proof.
  unfold matchAfter.
  destruct (strings.CutPrefix s lit) as [rest|] eqn:E; [| done].
  destruct (takeWhile sanitizeClass rest) as [|a t] eqn:Et; [done |].
  intros [= <-]. split; [apply HasPrefix_app |].
  split.
  - apply HasPrefix_spec. exists rest. by apply CutPrefix_Some.
  - destruct lit; discriminate.
Qed.

Lemma FindString_cases (s : string) :
  sanitizeRegex_FindString s = ""
  ∨ strings.HasPrefix (sanitizeRegex_FindString s) "http://" = true
  ∨ strings.HasPrefix (sanitizeRegex_FindString s) "https://" = true.
Proof.
  unfold sanitizeRegex_FindString.
  destruct (matchAfter "https://" s) as [m|] eqn:E1.
  { apply matchAfter_Some in E1 as [? _]. auto. }
  destruct (matchAfter "http://" s) as [m|] eqn:E2.
  { apply matchAfter_Some in E2 as [? _]. auto. }
  by left.
Qed.

Lemma FindString_nonempty (s : string) :
  sanitizeRegex_FindString s ≠ "" →
  strings.HasPrefix s "http://" = true ∨ strings.HasPrefix s "https://" = true.
Proof.
  unfold sanitizeRegex_FindString.
  destruct (matchAfter "https://" s) as [m|] eqn:E1.
  { apply matchAfter_Some in E1 as (_ & ? & _). auto. }
  destruct (matchAfter "http://" s) as [m|] eqn:E2.
  { apply matchAfter_Some in E2 as (_ & ? & _). auto. }
  done.
Qed.

Lemma takeWhile_prefix (f : ascii → bool) (s : string) :
  ∃ rest, s = takeWhile f s +:+ rest
          ∧ match rest with
            | String c _ => f c = false
            | EmptyString => True
            end.
Proof.
  induction s as [|a s (rest & IH & Hstop)]; simpl.
  - by exists "".
  - destruct (f a) eqn:Ea.
    + exists rest. rewrite append_cons. by rewrite <- IH.
    + exists (String a s). by rewrite append_nil_l.
Qed.

(** A match is a leading substring of the input, and it stops only at the
    end or at a character of the excluded class. *)
Lemma FindString_leading (s : string) :
  ∃ rest, s = sanitizeRegex_FindString s +:+ rest
          ∧ (sanitizeRegex_FindString s ≠ "" →
             match rest with
             | String c _ => sanitizeClass c = false
             | EmptyString => True
             end).
Proof.
  assert (Hm : ∀ lit m, matchAfter lit s = Some m →
            ∃ rest, s = m +:+ rest
                    ∧ match rest with
                      | String c _ => sanitizeClass c = false
                      | EmptyString => True
                      end).
  { intros lit m. unfold matchAfter.
    destruct (strings.CutPrefix s lit) as [r|] eqn:E; [| done].
    apply CutPrefix_Some in E.
    destruct (takeWhile_prefix sanitizeClass r) as (rest & Hr & Hstop).
    destruct (takeWhile sanitizeClass r) as [|a t] eqn:Et; [done |].
    intros [= <-]. exists rest. split; [| done].
    rewrite append_assoc. by rewrite <- Hr. }
  unfold sanitizeRegex_FindString.
  destruct (matchAfter "https://" s) as [m|] eqn:E1.
  { destruct (Hm _ _ E1) as (rest & ? & ?). by exists rest. }
  destruct (matchAfter "http://" s) as [m|] eqn:E2.
  { destruct (Hm _ _ E2) as (rest & ? & ?). by exists rest. }
  exists s. by rewrite append_nil_l.
Qed.

Section ClassifierMore.
Context `{GoLib}.

Lemma sanitizeURL_cases (rawURL : string) :
  sanitizeURL rawURL = ""
  ∨ strings.HasPrefix (sanitizeURL rawURL) "http://" = true
  ∨ strings.HasPrefix (sanitizeURL rawURL) "https://" = true.
Proof. apply FindString_cases. Qed.

Lemma processLink_no_scheme (href text baseURL : string) (pb : URL)
    (sub : bool) (cs fs : gset string) :
  strings.HasPrefix (TrimSpace href) "http://" = false →
  strings.HasPrefix (TrimSpace href) "https://" = false →
  processLinkFromResponse href text baseURL pb sub cs fs = (cs, fs).
Proof.
  intros H1 H2. unfold processLinkFromResponse.
  destruct (String.eqb href "" || strings.HasPrefix href "#"); [done |].
  destruct (String.eqb_spec (sanitizeURL href) "") as [|Hne]; [done |].
  apply FindString_nonempty in Hne as [?|?]; congruence.
Qed.

(** What a link adds to the two sets does not depend on what they hold. *)
Lemma processLink_yield (href text baseURL : string) (pb : URL) (sub : bool)
    (cs fs : gset string) :
  processLinkFromResponse href text baseURL pb sub cs fs
  = (fst (processLinkFromResponse href text baseURL pb sub ∅ ∅) ∪ cs,
     snd (processLinkFromResponse href text baseURL pb sub ∅ ∅) ∪ fs).
Proof.
  unfold processLinkFromResponse.
  repeat case_match; simpl;
    by rewrite ?(right_id_L ∅ (∪)), ?(left_id_L ∅ (∪)).
Qed.


Lemma extractLoop_yield (links : list webcrawl.Link) (baseURL : string)
    (pb : URL) (sub : bool) (sets : gset string * gset string) :
  extractLoop links baseURL pb sub sets
  = (fst (extractLoop links baseURL pb sub (∅, ∅)) ∪ fst sets,
     snd (extractLoop links baseURL pb sub (∅, ∅)) ∪ snd sets).
Proof.
  revert sets. induction links as [|link rest IH]; intros [cs fs].
  - simpl. by rewrite !(left_id_L ∅ (∪)).
  - cbn [extractLoop]. rewrite IH. symmetry. rewrite IH. symmetry.
    destruct (String.eqb (TrimSpace (webcrawl.Href link)) ""); simpl.
    + by rewrite !(right_id_L ∅ (∪)).
    + rewrite (processLink_yield _ _ _ _ _ cs fs).
      rewrite (processLink_yield _ _ _ _ _ ∅ ∅). simpl.
      by rewrite !(right_id_L ∅ (∪)), !(assoc_L (∪)).
Qed.

Lemma extractLoop_idempotent (links : list webcrawl.Link) (baseURL : string)
    (pb : URL) (sub : bool) (sets : gset string * gset string) :
  extractLoop links baseURL pb sub (extractLoop links baseURL pb sub sets)
  = extractLoop links baseURL pb sub sets.
Proof.
  rewrite (extractLoop_yield links _ _ _ (extractLoop _ _ _ _ _)).
  rewrite (extractLoop_yield links _ _ _ sets). simpl.
  by rewrite !(assoc_L (∪)), !(idemp_L (∪)).
Qed.

Lemma extractLinks_deterministic (r : webcrawl.CrawlResult)
    (baseURL : string) (pb : URL) (sub : bool)
    (c1 f1 c2 f2 : list string) :
  extractLinks r baseURL pb sub c1 f1 →
  extractLinks r baseURL pb sub c2 f2 →
  c1 ≡ₚ c2 ∧ f1 ≡ₚ f2.
Proof.
  intros [Hc1 Hf1] [Hc2 Hf2].
  split; [by rewrite Hc1, Hc2 | by rewrite Hf1, Hf2].
Qed.

Lemma extractLinks_sets (r : webcrawl.CrawlResult)
    (baseURL : string) (pb : URL) (sub : bool) (c f : list string) :
  extractLinks r baseURL pb sub c f →
  NoDup c ∧ NoDup f
  ∧ (list_to_set c, list_to_set f) = extractLinkSets r baseURL pb sub.
Proof.
  intros [Hc Hf]. split_and!.
  - rewrite Hc. apply NoDup_elements.
  - rewrite Hf. apply NoDup_elements.
  - destruct (extractLinkSets r baseURL pb sub) as [cs fs]; simpl in *.
    f_equal; apply set_eq; intros x; rewrite elem_of_list_to_set.
    + by rewrite Hc, elem_of_elements.
    + by rewrite Hf, elem_of_elements.
Qed.

Context `{!GoLibLaws H}.

Lemma absoluteHttp_String (u : URL) :
  Scheme u = "http" ∨ Scheme u = "https" → absoluteHttp (url_String u).
Proof.
  intros Hs. exists u. split_and!; [| done | done |].
  - unfold IsAbs. by destruct Hs as [-> | ->].
  - destruct Hs as [Hs|Hs]; [left | right];
      (etrans; [| apply (String_scheme u); by rewrite Hs]); by rewrite Hs.
Qed.

Lemma processLink_emits (href text baseURL : string) (pb : URL) (sub : bool)
    (c : string) :
  c ∈ fst (processLinkFromResponse href text baseURL pb sub ∅ ∅)
      ∪ snd (processLinkFromResponse href text baseURL pb sub ∅ ∅) →
  absoluteHttp c.
Proof.
  unfold processLinkFromResponse.
  destruct (String.eqb href "" || strings.HasPrefix href "#");
    [set_solver |].
  destruct (String.eqb_spec (sanitizeURL href) "") as [|Hne]; [set_solver |].
  destruct (url_Parse (sanitizeURL href)) as [parsed|] eqn:Ep; [| set_solver].
  assert (Hs : Scheme parsed = "http" ∨ Scheme parsed = "https").
  { destruct (sanitizeURL_cases href) as [?|[Hp|Hp]]; [done | |].
    - left. eapply Parse_http; eauto.
    - right. eapply Parse_https; eauto. }
  assert (Habs : IsAbs parsed = true).
  { unfold IsAbs. by destruct Hs as [-> | ->]. }
  rewrite Habs. simpl.
  destruct (shouldCrawlURL parsed pb sub); [| set_solver].
  assert (absoluteHttp (url_String (set_Fragment parsed ""))).
  { by apply absoluteHttp_String. }
  destruct (isFileURL (set_Fragment parsed "")); simpl;
    rewrite ?(right_id_L ∅ (∪)), ?(left_id_L ∅ (∪)), elem_of_singleton;
    by intros ->.
Qed.

Lemma extractLoop_emits (links : list webcrawl.Link) (baseURL : string)
    (pb : URL) (sub : bool) (c : string) :
  c ∈ fst (extractLoop links baseURL pb sub (∅, ∅))
      ∪ snd (extractLoop links baseURL pb sub (∅, ∅)) →
  absoluteHttp c.
Proof.
  induction links as [|link rest IH]; [set_solver |].
  cbn [extractLoop]. rewrite extractLoop_yield. simpl.
  destruct (String.eqb (TrimSpace (webcrawl.Href link)) ""); simpl.
  - rewrite !(right_id_L ∅ (∪)). apply IH.
  - intros Hc.
    assert (c ∈ fst (extractLoop rest baseURL pb sub (∅, ∅))
                ∪ snd (extractLoop rest baseURL pb sub (∅, ∅))
            ∨ c ∈ fst (processLinkFromResponse
                         (TrimSpace (webcrawl.Href link))
                         (webcrawl.Text link) baseURL pb sub ∅ ∅)
                  ∪ snd (processLinkFromResponse
                           (TrimSpace (webcrawl.Href link))
                           (webcrawl.Text link) baseURL pb sub ∅ ∅))
      as [?|?] by set_solver; [by apply IH |].
    by eapply processLink_emits.
Qed.

End ClassifierMore.

Lemma splitAt_Some (c : ascii) (s l r : string) :
  splitAt c s = Some (l, r) → s = l +:+ String c r.
Proof.
  revert l. induction s as [|a s IH]; intros l; simpl; [done |].
  destruct (Ascii.eqb_spec a c) as [->|Hne].
  - by intros [= <- <-].
  - destruct (splitAt c s) as [[l' r']|]; [| done].
    intros [= <- <-]. rewrite append_cons. f_equal. by apply IH.
Qed.

Lemma RefLib_Cut_prefix (p s : string) (sep : ascii) :
  (∀ l r, p ≠ l +:+ String sep r) →
  ∃ t, fst (fst (RefLib.Cut (p +:+ s) sep)) = p +:+ t.
Proof.
  induction p as [|a p IH]; intros Hp.
  - rewrite append_nil_l. by eexists.
  - unfold RefLib.Cut in *. rewrite append_cons. simpl.
    destruct (Ascii.eqb_spec a sep) as [->|Hne].
    { by destruct (Hp "" p). }
    destruct IH as [t Ht].
    { intros l r ->. by destruct (Hp (String a l) r). }
    destruct (splitAt sep (p +:+ s)) as [[l r]|]; simpl in *.
    + exists t. by rewrite Ht.
    + exists s. done.
Qed.

Lemma RefLib_Parse_scheme (sch s : string) (u : URL) :
  sch = "http" ∨ sch = "https" →
  RefLib.Parse s = Some u →
  strings.HasPrefix s (sch +:+ "://") = true →
  Scheme u = sch.
Proof.
  intros Hsch Hp [r ->]%HasPrefix_spec.
  unfold RefLib.Parse in Hp.
  destruct (RefLib_Cut_prefix (sch +:+ "://") r "#") as [t Ht].
  { intros l r0 Hl. destruct Hsch as [-> | ->];
      repeat (destruct l as [|? l]; [discriminate Hl |];
              rewrite append_cons in Hl; injection Hl as <- Hl);
      destruct l; discriminate Hl. }
  destruct (RefLib.Cut _ "#") as [[u0 frag] fnd]. simpl in Ht. subst u0.
  assert (Hg : RefLib.getScheme true "" ((sch +:+ "://") +:+ t)
               = Some (sch, "//" +:+ t)).
  { by destruct Hsch as [-> | ->]. }
  rewrite Hg in Hp.
  assert (Hl : RefLib.ToLower sch = sch) by (by destruct Hsch as [-> | ->]).
  rewrite Hl in Hp.
  repeat case_match; simplify_eq; done.
Qed.

Lemma RefLib_laws : GoLibLaws RefLib.lib.
Proof.
  split.
  - intros s u. apply (RefLib_Parse_scheme "http"). by left.
  - intros s u. apply (RefLib_Parse_scheme "https"). by right.
  - intros u Hu. simpl. unfold RefLib.String_.
    destruct (String.eqb_spec (Scheme u) "") as [|_]; [done |]. simpl.
    apply HasPrefix_spec. by eexists.
Qed.


(** C7.  A link is in scope exactly when its host equals the seed host up
    to case, or subdomains are crawled and one host, stripped of one
    leading www., is a dot-suffix of the other; without subdomains only
    equal hosts are in scope; with them sub.example.com and example.com
    accept each other both ways. *)
Theorem C7_scope_eligibility :
  (∀ (L : GoLib) (targetURL baseURL : URL) (sub : bool),
      shouldCrawlURL targetURL baseURL sub = true
      ↔ inScope (Host targetURL) (Host baseURL) sub)
  ∧ (∀ (L : GoLib) (targetURL baseURL : URL),
      shouldCrawlURL targetURL baseURL false = true
      ↔ ToLower (Host targetURL) = ToLower (Host baseURL))
  ∧ @shouldCrawlURL RefLib.lib
      (hostURL "sub.example.com") (hostURL "example.com") true = true
  ∧ @shouldCrawlURL RefLib.lib
      (hostURL "example.com") (hostURL "sub.example.com") true = true
  ∧ @shouldCrawlURL RefLib.lib
      (hostURL "sub.example.com") (hostURL "example.com") false = false.
Proof.
  split; [intros; apply shouldCrawlURL_inScope |].
  split; [intros; apply shouldCrawlURL_exact |].
  by vm_compute.
Qed.

(** C10.  [sanitizeURL] returns the empty string or a string that begins
    with http:// or https://; so every URL the classifier returns, crawlable
    or file, is the rendering of an absolute URL with scheme http or https;
    and an href that, trimmed, has neither prefix, a relative path among
    them, leaves both sets as they were. *)
Theorem C10_sanitize_absolute (L : GoLib) (Laws : GoLibLaws L) :
  (∀ rawURL,
      sanitizeURL rawURL = ""
      ∨ strings.HasPrefix (sanitizeURL rawURL) "http://" = true
      ∨ strings.HasPrefix (sanitizeURL rawURL) "https://" = true)
  ∧ (∀ r baseURL pb sub crawlableLinks fileLinks c,
        extractLinks r baseURL pb sub crawlableLinks fileLinks →
        c ∈ crawlableLinks ++ fileLinks →
        absoluteHttp c)
  ∧ (∀ href text baseURL pb sub cs fs,
        strings.HasPrefix (TrimSpace href) "http://" = false →
        strings.HasPrefix (TrimSpace href) "https://" = false →
        processLinkFromResponse href text baseURL pb sub cs fs = (cs, fs)).
Proof.
  split; [apply sanitizeURL_cases |].
  split; [| apply processLink_no_scheme].
  intros r baseURL pb sub cl fl c [Hc Hf] Hin.
  apply (extractLoop_emits (webcrawl.Internal (webcrawl.Links_ r))
           baseURL pb sub).
  apply elem_of_app in Hin as [Hin|Hin]; apply elem_of_union; [left | right].
  - rewrite Hc in Hin. by apply elem_of_elements in Hin.
  - rewrite Hf in Hin. by apply elem_of_elements in Hin.
Qed.

Lemma C10_sanitize_absolute_witness :
  GoLibLaws RefLib.lib
  ∧ (@sanitizeURL RefLib.lib "https://a.test/p1)(pdf)" = ""
     ∨ strings.HasPrefix
         (@sanitizeURL RefLib.lib "https://a.test/p1)(pdf)") "http://" = true
     ∨ strings.HasPrefix
         (@sanitizeURL RefLib.lib "https://a.test/p1)(pdf)") "https://"
       = true)
  ∧ @absoluteHttp RefLib.lib "https://a.test/p1"
  ∧ @processLinkFromResponse RefLib.lib "/p1" "" "https://a.test/"
      (hostURL "a.test") true ∅ ∅ = (∅, ∅).
Proof.
  destruct (C10_sanitize_absolute RefLib.lib RefLib_laws) as (H1 & H2 & H3).
  split; [exact RefLib_laws |].
  split; [apply H1 |].
  split.
  - apply (H2 (pageOf "" ["https://a.test/p1"; "https://a.test/doc.pdf"])
             "https://a.test/" (hostURL "a.test") true
             ["https://a.test/p1"] ["https://a.test/doc.pdf"]).
    + split; vm_compute; reflexivity.
    + vm_compute. left.
  - apply H3; reflexivity.
Defined.

(** The classifier keeps only hrefs that begin with http:// or https://:
    handed the relative href /p1 as it stands, it yields no link.  The
    links of a page reach it resolved, see [Webcrawl.extractLinks]. *)
Lemma relative_href_yields_nothing (L : GoLib)
    (crawlableLinks fileLinks : list string) :
  TrimSpace "/p1" = "/p1" →
  extractLinks (pageOf "" ["/p1"]) "https://a.test/" (hostURL "a.test")
    true crawlableLinks fileLinks →
  crawlableLinks = [] ∧ fileLinks = [].
Proof.
  intros Ht [Hc Hf]. unfold extractLinkSets in *. simpl in *.
  rewrite Ht in *. simpl in *.
  rewrite processLink_no_scheme in * by (by rewrite Ht).
  simpl in *. rewrite elements_empty in *.
  split; by apply Permutation_nil_r.
Qed.

(** C9.  Two runs of the classifier on the same page, base URL, seed and
    flag return the same crawlable URLs and the same file URLs, up to the
    order of the two slices; and running the loop again over the page,
    from the sets of the first run, changes nothing. *)
Theorem C9_classification_deterministic (L : GoLib)
    (r : webcrawl.CrawlResult) (baseURL : string) (pb : URL) (sub : bool)
    (c1 f1 c2 f2 : list string) :
  extractLinks r baseURL pb sub c1 f1 →
  extractLinks r baseURL pb sub c2 f2 →
  c1 ≡ₚ c2 ∧ f1 ≡ₚ f2
  ∧ (list_to_set c1 : gset string) = list_to_set c2
  ∧ (list_to_set f1 : gset string) = list_to_set f2
  ∧ extractLoop (webcrawl.Internal (webcrawl.Links_ r)) baseURL pb sub
      (list_to_set c1, list_to_set f1)
    = (list_to_set c1, list_to_set f1).
Proof.
  intros H1 H2.
  destruct (extractLinks_deterministic _ _ _ _ _ _ _ _ H1 H2) as [Hc Hf].
  destruct (extractLinks_sets _ _ _ _ _ _ H1) as (_ & _ & Hs1).
  destruct (extractLinks_sets _ _ _ _ _ _ H2) as (_ & _ & Hs2).
  split; [done |]. split; [done |].
  split; [congruence |]. split; [congruence |].
  rewrite Hs1. apply extractLoop_idempotent.
Qed.

Lemma C9_classification_deterministic_witness :
  let page := pageOf "" ["https://a.test/p1"; "https://a.test/doc.pdf";
                        "https://a.test/p2"; " https://a.test/p1#top "] in
  let c1 := ["https://a.test/p1"; "https://a.test/p2"] in
  let c2 := ["https://a.test/p2"; "https://a.test/p1"] in
  let f := ["https://a.test/doc.pdf"] in
  @extractLinks RefLib.lib page "https://a.test/" (hostURL "a.test") true c1 f
  ∧ @extractLinks RefLib.lib page "https://a.test/" (hostURL "a.test") true
      c2 f
  ∧ c1 ≡ₚ c2
  ∧ (list_to_set c1 : gset string) = list_to_set c2.
Proof.
  intros page c1 c2 f.
  assert (H1 : @extractLinks RefLib.lib page "https://a.test/"
                 (hostURL "a.test") true c1 f).
  { apply (bool_decide_unpack _). by vm_compute. }
  assert (H2 : @extractLinks RefLib.lib page "https://a.test/"
                 (hostURL "a.test") true c2 f).
  { apply (bool_decide_unpack _). by vm_compute. }
  split; [exact H1 |]. split; [exact H2 |].
  destruct (C9_classification_deterministic RefLib.lib page "https://a.test/"
              (hostURL "a.test") true c1 f c2 f H1 H2) as (Hc & _ & Hs & _).
  split; [exact Hc | exact Hs].
Defined.

(** ** The transition system *)

Ltac step_cases H :=
  unfold step, recv, acquire, timeout, join, fetch, extract, send, defer in H;
  repeat case_match; simplify_eq.

Section CrawlFacts.
Context `{GoLib}.

Lemma step_options (s s' : State) (e : Event) :
  step s e = Some s' →
  options s' = options s ∧ parsedURL s' = parsedURL s.
Proof. intros Hs. destruct e; step_cases Hs; done. Qed.

Lemma run_app (s : State) (t1 t2 : list Event) :
  run s (t1 ++ t2) = run s t1 ≫= λ s', run s' t2.
Proof.
  revert s. induction t1 as [|e t1 IH]; intros s; simpl; [done |].
  destruct (step s e); simpl; [apply IH | done].
Qed.

Lemma run_snoc (s s'' : State) (t : list Event) (e : Event) :
  run s (t ++ [e]) = Some s'' ↔ ∃ s', run s t = Some s' ∧ step s' e = Some s''.
Proof.
  rewrite run_app. destruct (run s t) as [s'|]; simpl.
  - destruct (step s' e) eqn:E; split.
    + intros [= <-]. by exists s'.
    + intros (? & [= <-] & ?). congruence.
    + done.
    + intros (? & [= <-] & ?). congruence.
  - split; [done | by intros (? & ? & ?)].
Qed.

(** An invariant of the steps holds after every run. *)
Lemma run_invariant (P : State → Prop) :
  (∀ s e s', P s → step s e = Some s' → P s') →
  ∀ s t s', P s → run s t = Some s' → P s'.
Proof.
  intros Hstep s t. revert s.
  induction t as [|e t IH]; intros s s' HP; simpl.
  - by intros [= <-].
  - destruct (step s e) as [s1|] eqn:E; [| done]. eauto.
Qed.

Lemma run_options (s s' : State) (t : list Event) :
  run s t = Some s' → options s' = options s ∧ parsedURL s' = parsedURL s.
Proof.
  intros Hr.
  apply (run_invariant
           (λ x, options x = options s ∧ parsedURL x = parsedURL s)
           ) with (s := s) (t := t); [| done | done].
  intros s1 e s2 [E1 E2] Hs. apply step_options in Hs as [-> ->]. done.
Qed.

Lemma workerJob_insert (ws : list Worker) (i : nat) (w : Worker)
    (p : WorkerPC) :
  ws !! i = Some w →
  workerJob <$> <[i := set_wpc p w]> ws = workerJob <$> ws.
Proof.
  intros Hw. rewrite list_fmap_insert. apply list_insert_id.
  by rewrite list_lookup_fmap, Hw.
Qed.

Lemma admittedJobs_set_worker (s : State) (i : nat) (w : Worker)
    (p : WorkerPC) :
  workers s !! i = Some w →
  admittedJobs (set_worker i w p s) = admittedJobs s.
Proof.
  intros Hw. unfold admittedJobs. simpl. by rewrite workerJob_insert.
Qed.

(** What a step adds to the admitted jobs is the job it admits. *)
Lemma admittedJobs_step (s s' : State) (e : Event) :
  step s e = Some s' →
  admittedJobs s' = admittedJobs s ++ option_list (admits s e).
Proof.
  intros Hs. unfold admits.
  destruct e; rewrite ?Hs; step_cases Hs; simpl in *; simplify_eq;
    try congruence;
    rewrite ?admittedJobs_set_worker by done;
    unfold admittedJobs; simpl;
    repeat match goal with E : pc _ = _ |- _ => rewrite E end; simpl;
    rewrite ?app_nil_r, ?fmap_app; simpl; try done;
    by match goal with j : urlJob |- _ => destruct j end.
Qed.


Lemma wrap_range (z : Z) : int_min <= wrap z <= int_max.
Proof.
  unfold wrap, int_min, int_max.
  pose proof (Z.mod_pos_bound (z + 2 ^ 63) (2 ^ 64)). lia.
Qed.

Lemma wrap_le (z : Z) : int_min <= z → wrap z <= z.
Proof.
  unfold wrap, int_min. intros Hz.
  pose proof (Z.mod_le (z + 2 ^ 63) (2 ^ 64)). lia.
Qed.

Lemma wrap_id (z : Z) : is_int z → wrap z = z.
Proof.
  unfold wrap, is_int, int_min, int_max. intros Hz.
  rewrite Z.mod_small; lia.
Qed.

Lemma worker_url_inj (s : State) (i j : nat) (wi wj : Worker) :
  NoDup (url <$> admittedJobs s) →
  workers s !! i = Some wi → workers s !! j = Some wj →
  currentURL wi = currentURL wj → i = j.
Proof.
  unfold admittedJobs. rewrite fmap_app. intros [Hn _]%NoDup_app Hi Hj Hu.
  eapply NoDup_lookup; [exact Hn | |].
  - by rewrite !list_lookup_fmap, Hi.
  - rewrite !list_lookup_fmap, Hj. simpl. by rewrite Hu.
Qed.

Lemma fetched_insert (ws : list Worker) (i : nat) (w : Worker)
    (p : WorkerPC) (u : string) :
  ws !! i = Some w → p ≠ WFetch →
  (∃ j w', ws !! j = Some w' ∧ currentURL w' = u ∧ fetched w') →
  ∃ j w', <[i := set_wpc p w]> ws !! j = Some w' ∧ currentURL w' = u
          ∧ fetched w'.
Proof.
  intros Hi Hp (j & w' & Hj & Hu & Hf).
  destruct (decide (i = j)) as [<-|Hne].
  - exists i, (set_wpc p w). split_and!.
    + apply list_lookup_insert_eq. by eapply lookup_lt_Some.
    + simpl. congruence.
    + done.
  - exists j, w'. by rewrite list_lookup_insert_ne.
Qed.

Lemma expanding_insert (ws : list Worker) (i : nat) (w : Worker)
    (p : WorkerPC) (m : Z) :
  ws !! i = Some w →
  (expanding (set_wpc p w) → currentDepth w < m) →
  (∀ j w', ws !! j = Some w' → expanding w' → currentDepth w' < m) →
  ∀ j w', <[i := set_wpc p w]> ws !! j = Some w' → expanding w' →
          currentDepth w' < m.
Proof.
  intros Hi Hp Hall j w' Hj He.
  destruct (decide (i = j)) as [<-|Hne].
  - rewrite list_lookup_insert_eq in Hj by (by eapply lookup_lt_Some).
    injection Hj as <-. by apply Hp.
  - rewrite list_lookup_insert_ne in Hj by done. eauto.
Qed.

Lemma Safe_admission (s s' : State) (e : Event) :
  Safe s → step s e = Some s' →
  int_min <= TotalPages (result s') <= MaxPages (options s')
  ∧ (pc s' = SSelect → TotalPages (result s') < MaxPages (options s'))
  ∧ (∀ u, u ∈ visitedURLs s' ↔ u ∈ url <$> admittedJobs s')
  ∧ NoDup (url <$> admittedJobs s')
  ∧ Forall (λ j, depth j <= MaxDepth (options s')) (admittedJobs s').
Proof.
  intros [Htot Hloop Hvis Hnd _ _ _ _ Hdep _] Hs.
  pose proof (admittedJobs_step _ _ _ Hs) as Hadm.
  pose proof (step_options _ _ _ Hs) as [Ho _].
  rewrite Hadm, Ho. unfold admits.
  destruct e; rewrite ?Hs; step_cases Hs; simpl in *; simplify_eq;
    try congruence;
    rewrite ?app_nil_r; try done;
    try (split_and!; try done; try lia; intros _; (lia || by apply Hloop)).
  (* the admitted job *)
  match goal with
  | Hor : (_ || _) = false |- _ => apply orb_false_iff in Hor as [Ht Hd]
  end.
  pose proof (wrap_range (TotalPages (result s) + 1)).
  pose proof (wrap_le (TotalPages (result s) + 1)).
  split_and!; [lia | lia | done | | |].
  - intros x. rewrite fmap_app, elem_of_union, elem_of_app, Hvis.
    simpl. rewrite list_elem_of_singleton, elem_of_singleton. tauto.
  - rewrite fmap_app. apply NoDup_app. split_and!; [done | | ].
    + intros x Hx [->|[]%not_elem_of_nil]%elem_of_cons.
      match goal with
      | Hnew : url _ ∉ visitedURLs _ |- _ => by apply Hnew, Hvis
      end.
    + apply NoDup_singleton.
  - apply Forall_app. split; [done |]. apply Forall_singleton. lia.
Qed.

Lemma Safe_expand (s s' : State) (e : Event) :
  Safe s → step s e = Some s' →
  ∀ j w, workers s' !! j = Some w → expanding w →
         currentDepth w < MaxDepth (options s').
Proof.
  intros HS Hs. pose proof (safe_expand _ HS) as Hexp.
  destruct e; step_cases Hs; simpl in *; try done;
    try (apply expanding_insert; [done | | done]; simpl;
         unfold expanding; simpl; try done);
    try (intros _; (eapply Hexp; [done |]); unfold expanding;
         match goal with E : wpc _ = _ |- _ => by rewrite E end).
  - (* a goroutine is started, the loop goes on to wait *)
    intros j w [Hj|[_ Hj]]%lookup_app_Some; [eauto |].
    apply list_lookup_singleton_Some in Hj as [_ <-]. by unfold expanding.
  - (* a goroutine is started, the loop goes on *)
    intros j w [Hj|[_ Hj]]%lookup_app_Some; [eauto |].
    apply list_lookup_singleton_Some in Hj as [_ <-]. by unfold expanding.
  - (* a page fetched above the last depth *)
    intros _. lia.
Qed.

Lemma Safe_results (s s' : State) (e : Event) :
  Safe s → step s e = Some s' →
  (∀ x, x ∈ CrawledURLs (result s') →
        ∃ j w, workers s' !! j = Some w ∧ currentURL w = x ∧ fetched w)
  ∧ (∀ x, x ∈ dom (FailedPages (result s')) →
        ∃ j w, workers s' !! j = Some w ∧ currentURL w = x ∧ fetched w)
  ∧ NoDup (CrawledURLs (result s'))
  ∧ (∀ x, x ∈ CrawledURLs (result s') → x ∉ dom (FailedPages (result s'))).
Proof.
  intros HS Hs.
  pose proof (safe_crawled _ HS) as Hc. pose proof (safe_failed _ HS) as Hf.
  pose proof (safe_crawled_nodup _ HS) as Hn.
  pose proof (safe_disjoint _ HS) as Hd.
  pose proof (safe_nodup _ HS) as Hu.
  assert (Hfresh : ∀ i w, workers s !! i = Some w → wpc w = WFetch →
            (currentURL w ∉ CrawledURLs (result s))
            ∧ currentURL w ∉ dom (FailedPages (result s))).
  { intros i w Hi Hw. split.
    - intros (j & w' & Hj & Heq & Hfe)%Hc.
      assert (j = i) as -> by (by eapply worker_url_inj). by simplify_eq.
    - intros (j & w' & Hj & Heq & Hfe)%Hf.
      assert (j = i) as -> by (by eapply worker_url_inj). by simplify_eq. }
  assert (Hgrow : ∀ w0 x,
            (∃ j w, workers s !! j = Some w ∧ currentURL w = x ∧ fetched w) →
            ∃ j w, (workers s ++ [w0]) !! j = Some w ∧ currentURL w = x
                   ∧ fetched w).
  { intros w0 x (j & w & Hj & ? & ?). exists j, w.
    split; [| done]. by apply lookup_app_l_Some. }
  assert (Hself : ∀ i w p, workers s !! i = Some w → p ≠ WFetch →
            ∃ j w', <[i := set_wpc p w]> (workers s) !! j = Some w'
                    ∧ currentURL w' = currentURL w ∧ fetched w').
  { intros i w p Hi Hp. exists i, (set_wpc p w). split_and!; [| done | done].
    apply list_lookup_insert_eq. by eapply lookup_lt_Some. }
  destruct e; step_cases Hs; simpl in *; try done;
    try (split_and!; [| | done | done]; intros x Hin;
         (apply fetched_insert; [done | done | eauto])).
  - split_and!; eauto.
  - split_and!; eauto.
  - (* the fetch failed *)
    match goal with
    | Hi : workers _ !! _ = Some ?w, E : wpc ?w = WFetch |- _ =>
        destruct (Hfresh _ _ Hi E) as [Hnc Hnf]
    end.
    split_and!; [| | done |].
    + intros x Hin. apply fetched_insert; [done | done | eauto].
    + intros x [->%elem_of_singleton|Hin]%dom_insert%elem_of_union;
        [by apply Hself |].
      apply fetched_insert; [done | done | eauto].
    + intros x Hin [->%elem_of_singleton|Hin']%dom_insert%elem_of_union;
        [done | by eapply Hd].
  - (* the fetch succeeded, the page is expanded *)
    match goal with
    | Hi : workers _ !! _ = Some ?w, E : wpc ?w = WFetch |- _ =>
        destruct (Hfresh _ _ Hi E) as [Hnc Hnf]
    end.
    split_and!.
    + intros x [Hin| ->%list_elem_of_singleton]%elem_of_app;
        [| by apply Hself].
      apply fetched_insert; [done | done | eauto].
    + intros x Hin. apply fetched_insert; [done | done | eauto].
    + apply NoDup_app. split_and!; [done | | apply NoDup_singleton].
      by intros x Hx ->%list_elem_of_singleton.
    + intros x [Hin| ->%list_elem_of_singleton]%elem_of_app; eauto.
  - (* the fetch succeeded at the last depth *)
    match goal with
    | Hi : workers _ !! _ = Some ?w, E : wpc ?w = WFetch |- _ =>
        destruct (Hfresh _ _ Hi E) as [Hnc Hnf]
    end.
    split_and!.
    + intros x [Hin| ->%list_elem_of_singleton]%elem_of_app;
        [| by apply Hself].
      apply fetched_insert; [done | done | eauto].
    + intros x Hin. apply fetched_insert; [done | done | eauto].
    + apply NoDup_app. split_and!; [done | | apply NoDup_singleton].
      by intros x Hx ->%list_elem_of_singleton.
    + intros x [Hin| ->%list_elem_of_singleton]%elem_of_app; eauto.
Qed.


Lemma step_Safe (s s' : State) (e : Event) :
  Safe s → step s e = Some s' → Safe s'.
Proof.
  intros HS Hs.
  destruct (Safe_admission _ _ _ HS Hs) as (? & ? & ? & ? & ?).
  destruct (Safe_results _ _ _ HS Hs) as (? & ? & ? & ?).
  pose proof (Safe_expand _ _ _ HS Hs).
  by constructor.
Qed.

Lemma start_fields (targetURL : string) (opts : option SpiderOptions)
    (s0 : State) :
  SpiderWebsite_start targetURL opts = Started s0 →
  url_Parse targetURL = Some (parsedURL s0)
  ∧ options s0 = effectiveOptions opts
  ∧ result s0 = emptyResult
  ∧ visitedURLs s0 = ∅
  ∧ urlJobs s0 = mkChan [mkUrlJob targetURL 0]
                   (wrap (MaxPages (effectiveOptions opts) * 2))
  ∧ semaphore s0 = mkChan [] (Concurrency (effectiveOptions opts))
  ∧ activeWorkers s0 = 0 ∧ wg s0 = 0%nat ∧ workers s0 = []
  ∧ pc s0 = SSelect ∧ infoLog s0 = []
  ∧ 0 <= wrap (MaxPages (effectiveOptions opts) * 2)
  ∧ 0 <= Concurrency (effectiveOptions opts).
Proof.
  unfold SpiderWebsite_start, makechan, chan_push. intros Hst.
  destruct (url_Parse targetURL) as [u|]; [| done].
  destruct ((wrap (MaxPages (effectiveOptions opts) * 2) <? 0) || _)
    eqn:Ej; [done |].
  destruct ((Concurrency (effectiveOptions opts) <? 0) || _) eqn:Es; [done |].
  apply orb_false_iff in Ej as [Ej _], Es as [Es _].
  simplify_eq. simpl. split_and!; try done; lia.
Qed.

(** The queue of a call that has started was small enough to be made. *)
Lemma start_alloc (targetURL : string) (opts : option SpiderOptions)
    (s0 : State) :
  SpiderWebsite_start targetURL opts = Started s0 →
  sizeof_urlJob * wrap (MaxPages (effectiveOptions opts) * 2)
  <= maxAlloc - hchanSize.
Proof.
  unfold SpiderWebsite_start, makechan. intros Hst.
  destruct (url_Parse targetURL) as [u|]; [| done].
  destruct ((wrap (MaxPages (effectiveOptions opts) * 2) <? 0) || _)
    eqn:Ej; [done |].
  apply orb_false_iff in Ej as [_ Ej]. lia.
Qed.

Lemma effectiveOptions_MaxPages (opts : option SpiderOptions) :
  1 <= MaxPages (effectiveOptions opts).
Proof.
  unfold effectiveOptions. case_match; simpl; lia.
Qed.

Lemma start_Safe (targetURL : string) (opts : option SpiderOptions)
    (s0 : State) :
  SpiderWebsite_start targetURL opts = Started s0 → Safe s0.
Proof.
  intros (_ & Ho & Hr & Hv & _ & _ & _ & _ & Hw & Hp & _)%start_fields.
  pose proof (effectiveOptions_MaxPages opts).
  constructor; unfold admittedJobs; rewrite ?Ho, ?Hr, ?Hv, ?Hw, ?Hp; simpl.
  - unfold int_min. lia.
  - intros _. lia.
  - intros u. split; [by intros ?%not_elem_of_empty |].
    by intros ?%not_elem_of_nil.
  - constructor.
  - by intros u ?%not_elem_of_nil.
  - intros u. rewrite dom_empty_L. by intros ?%not_elem_of_empty.
  - constructor.
  - by intros u ?%not_elem_of_nil.
  - constructor.
  - done.
Qed.

Lemma run_Safe (targetURL : string) (opts : option SpiderOptions)
    (s0 s : State) (t : list Event) :
  SpiderWebsite_start targetURL opts = Started s0 →
  run s0 t = Some s → Safe s.
Proof.
  intros Hst Hr. eapply (run_invariant Safe); [| | exact Hr].
  - intros ? ? ? ? ?. by eapply step_Safe.
  - by eapply start_Safe.
Qed.

Lemma admissions_run (s0 s : State) (t : list Event) :
  run s0 t = Some s →
  admittedJobs s = admittedJobs s0 ++ admissions s0 t.
Proof.
  revert s0. induction t as [|e t IH]; intros s0; simpl.
  - intros [= <-]. by rewrite app_nil_r.
  - destruct (step s0 e) as [s1|] eqn:E; [| done]. intros Hr.
    rewrite (IH _ Hr), (admittedJobs_step _ _ _ E), <- app_assoc.
    by destruct (admits s0 e).
Qed.

Lemma start_admissions (targetURL : string) (opts : option SpiderOptions)
    (s0 s : State) (t : list Event) :
  SpiderWebsite_start targetURL opts = Started s0 →
  run s0 t = Some s →
  admissions s0 t = admittedJobs s.
Proof.
  intros (_ & _ & _ & _ & _ & _ & _ & _ & Hw & Hp & _)%start_fields Hr.
  rewrite (admissions_run _ _ _ Hr). unfold admittedJobs.
  by rewrite Hw, Hp.
Qed.

End CrawlFacts.

(** C1.  In every state of a crawl, the final one included, [TotalPages]
    is at most the configured [MaxPages], where a configured value of zero
    or less counts as one; and a job received when [TotalPages] has reached
    that limit is not admitted: nothing is marked, counted or started. *)
Theorem C1_total_pages_bounded (L : GoLib) (targetURL : string)
    (opts : option SpiderOptions) (s0 s : State) (t : list Event) :
  SpiderWebsite_start targetURL opts = Started s0 →
  run s0 t = Some s →
  let configured := MaxPages (default DefaultSpiderOptions opts) in
  let maxPages := if configured <=? 0 then 1 else configured in
  MaxPages (options s) = maxPages
  ∧ TotalPages (result s) <= maxPages
  ∧ (∀ e s', maxPages <= TotalPages (result s) → step s e = Some s' →
             admits s e = None
             ∧ TotalPages (result s') = TotalPages (result s)
             ∧ visitedURLs s' = visitedURLs s)
  ∧ (∀ x x' : State,
        MaxPages (options x) <= TotalPages (result x) →
        recv x = Some x' →
        TotalPages (result x') = TotalPages (result x)
        ∧ visitedURLs x' = visitedURLs x
        ∧ workers x' = workers x
        ∧ pc x' = pc x).
Proof.
  intros Hst Hr configured maxPages.
  pose proof (run_Safe _ _ _ _ _ Hst Hr) as HS.
  destruct (run_options _ _ _ Hr) as [Ho _].
  apply start_fields in Hst as (_ & Ho0 & _).
  assert (Hm : MaxPages (options s) = maxPages).
  { rewrite Ho, Ho0. unfold effectiveOptions, maxPages, configured.
    destruct opts as [o|]; simpl; [by destruct (MaxPages o <=? 0) | done]. }
  split; [done |]. rewrite <- Hm.
  split; [apply (safe_total _ HS) |]. split.
  - intros e s' Hfull Hs. pose proof (safe_loop _ HS) as Hloop.
    unfold admits. destruct e; rewrite ?Hs.
    1: { assert (pc s = SSelect) as Hp%Hloop; [| lia].
         simpl in Hs. unfold recv in Hs. by destruct (pc s). }
    all: step_cases Hs; by simpl.
  - intros x x' Hfull. unfold recv.
    repeat case_match; intros; simplify_eq; simpl in *; try done; lia.
Qed.

(** C8.  Throughout a crawl the options struct of the caller keeps every
    field it was given, but for [MaxPages], which reads one when the caller
    gave zero or less. *)
Theorem C8_options_immutable (L : GoLib) (targetURL : string)
    (o : SpiderOptions) (s0 s : State) (t : list Event) :
  SpiderWebsite_start targetURL (Some o) = Started s0 →
  run s0 t = Some s →
  MaxPages (options s) = (if MaxPages o <=? 0 then 1 else MaxPages o)
  ∧ MaxDepth (options s) = MaxDepth o
  ∧ CrawlSubDomain (options s) = CrawlSubDomain o
  ∧ Timeout (options s) = Timeout o
  ∧ Concurrency (options s) = Concurrency o
  ∧ DelayBetween (options s) = DelayBetween o.
Proof.
  intros Hst Hr. destruct (run_options _ _ _ Hr) as [-> _].
  apply start_fields in Hst as (_ & -> & _).
  unfold effectiveOptions. by case_match.
Qed.

(** C3.  No URL is admitted twice in a crawl, the visited set holds the
    admitted URLs and no other, and a step either admits a job, marking its
    URL, which was not marked, and counting the page at once, or leaves the
    visited set and the count alone; so in every state, the final one
    included, [CrawledURLs] has no duplicate and none of its URLs is a key
    of [FailedPages]. *)
Theorem C3_admitted_once (L : GoLib) (targetURL : string)
    (opts : option SpiderOptions) (s0 s : State) (t : list Event) :
  SpiderWebsite_start targetURL opts = Started s0 →
  run s0 t = Some s →
  NoDup (url <$> admissions s0 t)
  ∧ (∀ u, u ∈ visitedURLs s ↔ u ∈ url <$> admissions s0 t)
  ∧ (∀ e s', step s e = Some s' →
       match admits s e with
       | Some job =>
           (url job ∉ visitedURLs s)
           ∧ visitedURLs s' = {[url job]} ∪ visitedURLs s
           ∧ TotalPages (result s') = wrap (TotalPages (result s) + 1)
       | None =>
           visitedURLs s' = visitedURLs s
           ∧ TotalPages (result s') = TotalPages (result s)
       end)
  ∧ NoDup (CrawledURLs (result s))
  ∧ (∀ u, u ∈ CrawledURLs (result s) → FailedPages (result s) !! u = None).
Proof.
  intros Hst Hr. pose proof (run_Safe _ _ _ _ _ Hst Hr) as HS.
  rewrite (start_admissions _ _ _ _ _ Hst Hr).
  split; [apply (safe_nodup _ HS) |].
  split; [apply (safe_visited _ HS) |].
  split; [| split; [apply (safe_crawled_nodup _ HS) |]].
  - intros e s' Hs. unfold admits.
    destruct e; rewrite ?Hs; step_cases Hs; simpl in *; simplify_eq;
      try congruence; done.
  - intros u Hu. apply not_elem_of_dom. by apply (safe_disjoint _ HS).
Qed.

(** C4.  Every job admitted has a depth of at most [MaxDepth], every URL
    in [CrawledURLs] or [FailedPages] is the URL of such a job, and a
    worker whose depth is [MaxDepth] or more can neither extract the links
    of its page nor enqueue one. *)
Theorem C4_depth_bound (L : GoLib) (targetURL : string)
    (opts : option SpiderOptions) (s0 s : State) (t : list Event) :
  SpiderWebsite_start targetURL opts = Started s0 →
  run s0 t = Some s →
  Forall (λ job, depth job <= MaxDepth (options s)) (admissions s0 t)
  ∧ (∀ u, u ∈ CrawledURLs (result s) ∨ u ∈ dom (FailedPages (result s)) →
          ∃ job, job ∈ admissions s0 t ∧ url job = u
                 ∧ depth job <= MaxDepth (options s))
  ∧ (∀ i w, workers s !! i = Some w →
            MaxDepth (options s) <= currentDepth w →
            (∀ c f, step s (EvExtract i c f) = None)
            ∧ step s (EvSend i) = None).
Proof.
  intros Hst Hr. pose proof (run_Safe _ _ _ _ _ Hst Hr) as HS.
  rewrite (start_admissions _ _ _ _ _ Hst Hr).
  split; [apply (safe_depth _ HS) |]. split.
  - intros u Hu.
    assert (∃ j w, workers s !! j = Some w ∧ currentURL w = u ∧ fetched w)
      as (j & w & Hj & Hw & _).
    { destruct Hu; [by apply (safe_crawled _ HS) | by apply (safe_failed _ HS)]. }
    assert (Hin : workerJob w ∈ admittedJobs s).
    { unfold admittedJobs. apply elem_of_app. left.
      apply list_elem_of_fmap_2. by eapply list_elem_of_lookup_2. }
    exists (workerJob w). split_and!; [done | done |].
    pose proof (safe_depth _ HS) as Hd. rewrite Forall_forall in Hd.
    by apply Hd.
  - intros i w Hi Hd.
    pose proof (safe_expand _ HS i w Hi) as He. unfold expanding in He.
    split; [intros c f |]; simpl; unfold extract, send; rewrite Hi;
      repeat case_match; try done; lia.
Qed.

(** ** Termination and the bookkeeping of failures *)

Lemma sum_list_with_insert {A} (f : A → nat) (l : list A) (i : nat)
    (x y : A) :
  l !! i = Some x →
  (sum_list_with f (<[i := y]> l) + f x = sum_list_with f l + f y)%nat.
Proof.
  revert i. induction l as [|a l IH]; intros [|i]; simpl; try done.
  - intros [= ->]. lia.
  - intros Hi. specialize (IH _ Hi). lia.
Qed.

Lemma sum_list_with_lookup {A} (f : A → nat) (l : list A) (i : nat) (x : A) :
  l !! i = Some x → (f x <= sum_list_with f l)%nat.
Proof.
  revert i. induction l as [|a l IH]; intros [|i]; simpl; try done.
  - intros [= ->]. lia.
  - intros Hi. specialize (IH _ Hi). lia.
Qed.

Lemma sum_list_with_pos {A} (f : A → nat) (l : list A) :
  (0 < sum_list_with f l)%nat → ∃ i x, l !! i = Some x ∧ (0 < f x)%nat.
Proof.
  induction l as [|a l IH]; simpl; [lia |]. intros Hp.
  destruct (f a) eqn:E.
  - destruct IH as (i & x & ? & ?); [lia |]. by exists (S i), x.
  - exists 0%nat, a. split; [done | lia].
Qed.

Lemma sum_list_with_le_length {A} (f : A → nat) (l : list A) :
  (∀ x, f x <= 1)%nat → (sum_list_with f l <= length l)%nat.
Proof.
  intros Hf. induction l as [|a l IH]; simpl; [lia |].
  specialize (Hf a). lia.
Qed.

Section Liveness.
Context `{GoLib}.

Ltac weigh Hi p :=
  match type of Hi with
  | workers _ !! _ = Some ?w =>
      pose proof (sum_list_with_insert holdsToken _ _ _ (set_wpc p w) Hi);
      pose proof (sum_list_with_insert isActive _ _ _ (set_wpc p w) Hi);
      pose proof (sum_list_with_insert isRunning _ _ _ (set_wpc p w) Hi);
      pose proof (sum_list_with_insert fetchWeight _ _ _ (set_wpc p w) Hi);
      pose proof (sum_list_with_insert sendWeight _ _ _ (set_wpc p w) Hi)
  end.

Lemma step_Live (s s' : State) (e : Event) :
  Safe s → Live s → step s e = Some s' → Live s'.
Proof.
  intros HS [Hsem Hact Hwg Htot Hcap Hmax Hdepth Hret] Hs.
  pose proof (safe_total _ HS) as Hbound.
  assert (Hlen : (sum_list_with isActive (workers s)
                  <= length (workers s))%nat).
  { apply sum_list_with_le_length. intros x. unfold isActive.
    destruct (wpc x); lia. }
  unfold int_max, int_min in *.
  destruct e; step_cases Hs; simpl in *; try congruence.
  all: constructor; simpl; try done.
  all: repeat match goal with
              | E : pc _ = _ |- _ => rewrite E in *
              end; simpl in *.
  all: try match goal with
           | Hi : workers _ !! _ = Some _ |- context [set_wpc ?p _] =>
               weigh Hi p
           end.
  all: try match goal with
           | Hi : workers _ !! _ = Some ?w |- _ =>
               pose proof (sum_list_with_lookup isActive _ _ _ Hi);
               pose proof (sum_list_with_lookup holdsToken _ _ _ Hi);
               pose proof (sum_list_with_lookup isRunning _ _ _ Hi)
           end.
  all: unfold holdsToken, isActive, isRunning in *; simpl in *.
  all: repeat match goal with
              | E : wpc ?w = _ |- _ => rewrite E in *
              end.
  all: try match goal with
           | E : buf (semaphore _) = _ |- _ => rewrite E in *
           end; simpl in *.
  all: try match goal with
           | Hor : (_ || _) = false |- _ =>
               apply orb_false_iff in Hor as [? ?]
           end.
  all: rewrite ?length_app, ?sum_list_with_app, ?length_insert; simpl;
       rewrite ?wrap_id by (unfold is_int, int_min, int_max; lia);
       try done; try lia.
  all: intros Hp; specialize (Hret Hp); lia.
Qed.


Lemma measureLt_intro (a' b' a b : nat) :
  (a' < a ∨ (a' = a ∧ b' < b))%nat → measureLt (a', b') (a, b).
Proof.
  intros [Ha|[-> Hb]]; [by apply left_slex | by apply right_slex].
Qed.

Lemma measureLt_wf : well_founded measureLt.
Proof. apply wf_slexprod; apply lt_wf. Qed.

(** Every step but the idle poll of the select brings the crawl closer to
    its end. *)
Lemma step_measure (s s' : State) (e : Event) :
  Safe s → Live s → step s e = Some s' →
  (e = EvTimeout ∧ s' = s) ∨ measureLt (measure s') (measure s).
Proof.
  intros HS [Hsem Hact Hwg Htot Hcap Hmax _ _] Hs.
  pose proof (safe_total _ HS) as Hbound.
  unfold int_max, int_min in *.
  destruct e; step_cases Hs; simpl in *; try congruence; try (by left).
  all: right; unfold measure; apply measureLt_intro; simpl.
  all: repeat match goal with
              | E : pc _ = _ |- _ => rewrite E in *
              end; simpl in *.
  all: try match goal with
           | Hi : workers _ !! _ = Some _ |- context [set_wpc ?p _] =>
               weigh Hi p
           end.
  all: unfold fetchWeight, sendWeight, chan_push in *; simpl in *.
  all: repeat match goal with
              | E : wpc ?w = _ |- _ => rewrite E in *
              end.
  all: repeat match goal with
              | E : buf (urlJobs _) = _ |- _ => rewrite E in *
              end; simpl in *.
  all: try match goal with
           | Hor : (_ || _) = false |- _ =>
               apply orb_false_iff in Hor as [? ?]
           end.
  all: rewrite ?length_app, ?sum_list_with_app, ?length_insert; simpl;
       rewrite ?wrap_id by (unfold is_int, int_min, int_max; lia);
       try lia.
Qed.


(** A goroutine that has not exited can take its next step. *)
Lemma worker_step (F : Fetcher) (s : State) (i : nat) (w : Worker) :
  Live s → workers s !! i = Some w → wpc w ≠ WExited →
  ∃ e s', obeys F s e ∧ step s e = Some s' ∧ e ≠ EvTimeout.
Proof.
  intros HL Hi Hw. destruct (wpc w) as [|r|links| | | |] eqn:E; [| | | | | | done].
  - exists (EvFetch i (F (currentURL w))).
    assert (∃ s', fetch i (F (currentURL w)) s = Some s') as [s' Hs'].
    { unfold fetch. rewrite Hi, E.
      destruct (F (currentURL w)); [| case_match]; by eexists. }
    exists s'. split_and!; [by exists w | done | done].
  - exists (EvExtract i
              (elements (fst (extractLinkSets r (currentURL w) (parsedURL s)
                                (CrawlSubDomain (options s)))))
              (elements (snd (extractLinkSets r (currentURL w) (parsedURL s)
                                (CrawlSubDomain (options s)))))).
    simpl. unfold extract. rewrite Hi, E.
    rewrite decide_True by (by split). by eexists.
  - exists (EvSend i). simpl. unfold send. rewrite Hi, E.
    destruct links; by eexists.
  - exists (EvDefer i). simpl. unfold defer. rewrite Hi, E. by eexists.
  - exists (EvDefer i). simpl. unfold defer. rewrite Hi, E.
    pose proof (live_sem _ HL) as Hsem.
    pose proof (sum_list_with_lookup holdsToken _ _ _ Hi) as Hle.
    unfold holdsToken at 1 in Hle. rewrite E in Hle.
    destruct (buf (semaphore s)); [simpl in Hsem; lia |]. by eexists.
  - exists (EvDefer i). simpl. unfold defer. rewrite Hi, E. by eexists.
Qed.

Lemma counted_worker (f : Worker → nat) (s : State) :
  (∀ w, wpc w = WExited → f w = 0%nat) →
  (0 < sum_list_with f (workers s))%nat →
  ∃ i w, workers s !! i = Some w ∧ wpc w ≠ WExited.
Proof.
  intros Hf (i & w & Hi & Hw)%sum_list_with_pos. exists i, w.
  split; [done |]. intros E. specialize (Hf _ E). lia.
Qed.

(** Short of the return, some step other than the idle poll is enabled. *)
Lemma progress (F : Fetcher) (s : State) :
  Live s → pc s ≠ SReturned →
  ∃ e s', obeys F s e ∧ step s e = Some s' ∧ ¬ (e = EvTimeout ∧ s' = s).
Proof.
  intros HL Hpc.
  assert (Hworker : (∃ i w, workers s !! i = Some w ∧ wpc w ≠ WExited) →
            ∃ e s', obeys F s e ∧ step s e = Some s'
                    ∧ ¬ (e = EvTimeout ∧ s' = s)).
  { intros (i & w & Hi & Hw).
    destruct (worker_step F s i w HL Hi Hw) as (e & s' & ? & ? & ?).
    exists e, s'. split_and!; [done | done |]. by intros [? _]. }
  destruct (pc s) as [|job| |] eqn:E; [| | | done].
  - destruct (buf (urlJobs s)) as [|job rest] eqn:Eb.
    + destruct (decide (activeWorkers s = 0)) as [Ha|Ha].
      * exists EvTimeout, (set_pc SWait s). simpl. unfold timeout.
        rewrite E, Eb, Ha. simpl. split_and!; [done | done |].
        intros [_ Heq]. apply (f_equal pc) in Heq. simpl in Heq. congruence.
      * apply Hworker, (counted_worker isActive).
        { intros w Hw. unfold isActive. by rewrite Hw. }
        rewrite (live_active _ HL) in Ha. lia.
    + exists EvRecv. simpl. unfold recv. rewrite E, Eb.
      repeat case_match; eexists; (split_and!; [done | done |]);
        by intros [? _].
  - destruct (chan_full (semaphore s)) eqn:Ef.
    + apply Hworker, (counted_worker holdsToken).
      { intros w Hw. unfold holdsToken. by rewrite Hw. }
      unfold chan_full in Ef. pose proof (live_cap _ HL).
      rewrite <- (live_sem _ HL). lia.
    + exists EvAcquire. simpl. unfold acquire. rewrite E, Ef.
      case_match; eexists; (split_and!; [done | done |]); by intros [? _].
  - destruct (wg s) as [|n] eqn:Ew.
    + exists (EvJoin (elements (list_to_set (DetectedFileUrls (result s))
                                   : gset string)) 0).
      simpl. unfold join. rewrite E, Ew. rewrite decide_True by done.
      eexists; (split_and!; [done | done |]); by intros [? _].
    + apply Hworker, (counted_worker isRunning).
      { intros w Hw. unfold isRunning. by rewrite Hw. }
      rewrite <- (live_wg _ HL). lia.
Qed.

(** From every state of a crawl the call runs to its return, whatever the
    Fetcher returns. *)
Lemma terminates (F : Fetcher) (s : State) :
  Safe s → Live s →
  ∃ t s', obeying F s t ∧ run s t = Some s' ∧ pc s' = SReturned.
Proof.
  remember (measure s) as m eqn:Hm. revert s Hm.
  induction (measureLt_wf m) as [m _ IH]. intros s -> HS HL.
  assert (pc s = SReturned ∨ pc s ≠ SReturned) as [Hpc|Hpc].
  { destruct (pc s); auto. }
  { exists [], s. by simpl. }
  destruct (progress F s HL Hpc) as (e & s1 & Hob & Hs & Hprod).
  destruct (step_measure _ _ _ HS HL Hs) as [?|Hlt]; [done |].
  destruct (IH _ Hlt s1 eq_refl) as (t & s' & Hobs & Hrun & Hret).
  { by eapply step_Safe. }
  { by eapply step_Live. }
  exists (e :: t), s'. simpl. rewrite Hs. done.
Qed.


Lemma start_Live (targetURL : string) (opts : option SpiderOptions)
    (s0 : State) :
  wellFormed (effectiveOptions opts) →
  SpiderWebsite_start targetURL opts = Started s0 → Live s0.
Proof.
  intros [Hm Hc Hd].
  intros (_ & Ho & Hr & _ & _ & Hsem & Ha & Hwg & Hw & Hp & _)%start_fields.
  pose proof (effectiveOptions_MaxPages opts).
  destruct Hm as [_ Hm].
  constructor; rewrite ?Ho, ?Hr, ?Hsem, ?Ha, ?Hwg, ?Hw, ?Hp; simpl;
    try done; lia.
Qed.









(** No step fetches a URL that has failed or has been crawled. *)
Lemma fetch_once (s s' : State) (i : nat) (o : FetchOutcome) :
  Safe s → step s (EvFetch i o) = Some s' →
  ∃ w, workers s !! i = Some w
       ∧ FailedPages (result s) !! currentURL w = None
       ∧ currentURL w ∉ CrawledURLs (result s).
Proof.
  intros HS. simpl. unfold fetch. intros Hs.
  destruct (workers s !! i) as [w|] eqn:Hi; [| done].
  destruct (wpc w) eqn:E; try (by destruct o).
  exists w. split; [done |].
  split; [apply not_elem_of_dom |].
  - intros (j & w' & Hj & Heq & Hfe)%(safe_failed _ HS).
    assert (j = i) as -> by (eapply worker_url_inj; eauto using safe_nodup).
    by simplify_eq.
  - intros (j & w' & Hj & Heq & Hfe)%(safe_crawled _ HS).
    assert (j = i) as -> by (eapply worker_url_inj; eauto using safe_nodup).
    by simplify_eq.
Qed.




Lemma run_Live (targetURL : string) (opts : option SpiderOptions)
    (s0 s : State) (t : list Event) :
  wellFormed (effectiveOptions opts) →
  SpiderWebsite_start targetURL opts = Started s0 →
  run s0 t = Some s → Safe s ∧ Live s.
Proof.
  intros Hwf Hst Hr.
  eapply (run_invariant (λ x, Safe x ∧ Live x)); [| | exact Hr].
  - intros ? ? ? [? ?] ?. split; [by eapply step_Safe | by eapply step_Live].
  - split; [by eapply start_Safe | by eapply start_Live].
Qed.

End Liveness.


(** ** Outside the configurations of the spec *)

Section Boundary.
Context `{GoLib}.

(** With [Concurrency] zero the semaphore is unbuffered: the scheduler
    admits the seed and then waits on the semaphore for ever. *)
Lemma zero_concurrency_blocks (targetURL : string)
    (opts : option SpiderOptions) (s0 s : State) (t : list Event) :
  Concurrency (effectiveOptions opts) = 0 →
  0 <= MaxDepth (effectiveOptions opts) →
  SpiderWebsite_start targetURL opts = Started s0 →
  run s0 t = Some s →
  pc s ≠ SReturned.
Proof.
  intros Hc Hd Hst Hr.
  pose proof (effectiveOptions_MaxPages opts) as Hm.
  apply start_fields in Hst
    as (_ & Ho & Hres & Hv & Hj & Hsem & _ & _ & Hw & Hp & _).
  assert (workers s = [] ∧ semaphore s = mkChan [] 0
          ∧ options s = effectiveOptions opts
          ∧ ((pc s = SSelect ∧ buf (urlJobs s) ≠ []
              ∧ TotalPages (result s) = 0 ∧ visitedURLs s = ∅
              ∧ Forall (λ j, depth j = 0) (buf (urlJobs s)))
             ∨ ∃ job, pc s = SAcquire job)) as (_ & _ & _ & [[-> _]|[? ->]]);
    [| done | done].
  eapply (run_invariant
            (λ x, workers x = [] ∧ semaphore x = mkChan [] 0
                  ∧ options x = effectiveOptions opts
                  ∧ ((pc x = SSelect ∧ buf (urlJobs x) ≠ []
                      ∧ TotalPages (result x) = 0 ∧ visitedURLs x = ∅
                      ∧ Forall (λ j, depth j = 0) (buf (urlJobs x)))
                     ∨ ∃ job, pc x = SAcquire job)));
    [| | exact Hr].
  - clear -Hd. intros s e s' (Hw & Hsem & Ho & Hcase) Hs.
    pose proof (effectiveOptions_MaxPages opts) as Hm.
    destruct e; step_cases Hs; simpl in *;
      try (rewrite Hw in *; by rewrite lookup_nil in * );
      try (destruct Hcase as [(? & ? & _)|[? ?]]; congruence).
    all: try (rewrite Hsem in *; discriminate).
    all: destruct Hcase as [(Hp & Hb & Ht & Hv & Hz)|[? ?]]; [| congruence].
    all: try (split_and!; [done | done | done | right; by eexists]).
    + exfalso. rewrite Ho, Ht in *.
      apply Forall_cons in Hz as [Hz _].
      match goal with
      | Hor : (_ || _) = true |- _ => apply orb_true_iff in Hor as [?|?]
      end; lia.
    + exfalso.
      match goal with
      | Hin : _ ∈ visitedURLs _ |- _ =>
          pose proof Hin as Hin'; rewrite Hv in Hin';
          by apply not_elem_of_empty in Hin'
      end.
    + exfalso.
      match goal with
      | Hand : (_ && _) = true |- _ =>
          apply andb_true_iff in Hand as [_ Hl]
      end.
      destruct (buf (urlJobs s)); [done | simpl in Hl; lia].
    + split_and!; [done | done | done |]. by left.
  - rewrite Hw, Hsem, Ho, Hp, Hj, Hres, Hv, Hc. simpl.
    split_and!; [done | done | done |]. left.
    split_and!; [done | done | done | done |]. by repeat constructor.
Qed.

(** With a negative [MaxDepth] the seed is dropped: no goroutine is ever
    started and [FailedPages] stays empty. *)
Lemma negative_depth_admits_nothing (targetURL : string)
    (opts : option SpiderOptions) (s0 s : State) (t : list Event) :
  MaxDepth (effectiveOptions opts) < 0 →
  SpiderWebsite_start targetURL opts = Started s0 →
  run s0 t = Some s →
  workers s = [] ∧ FailedPages (result s) = ∅ ∧ admissions s0 t = [].
Proof.
  intros Hd Hst Hr.
  rewrite (start_admissions _ _ _ _ _ Hst Hr). unfold admittedJobs.
  apply start_fields in Hst
    as (_ & Ho & Hres & _ & Hj & _ & _ & _ & Hw & Hp & _).
  assert (workers s = [] ∧ FailedPages (result s) = ∅
          ∧ pendingJob (pc s) = []
          ∧ options s = effectiveOptions opts
          ∧ Forall (λ j, depth j = 0) (buf (urlJobs s)))
    as (-> & -> & -> & _); [| done].
  eapply (run_invariant
            (λ x, workers x = [] ∧ FailedPages (result x) = ∅
                  ∧ pendingJob (pc x) = []
                  ∧ options x = effectiveOptions opts
                  ∧ Forall (λ j, depth j = 0) (buf (urlJobs x))));
    [| | exact Hr].
  - clear -Hd. intros s e s' (Hw & Hf & Hp & Ho & Hz) Hs.
    destruct e; step_cases Hs; simpl in *;
      repeat match goal with E : pc _ = _ |- _ => rewrite E in * end;
      try (rewrite Hw in *; by rewrite lookup_nil in * );
      try done.
    all: try apply Forall_cons in Hz as [Hz Hz'].
    all: try done.
    + exfalso. rewrite Ho in *.
      match goal with
      | Hor : (_ || _) = false |- _ => apply orb_false_iff in Hor as [_ ?]
      end. lia.
  - rewrite Hw, Ho, Hp, Hj, Hres. simpl.
    split_and!; try done. by repeat constructor.
Qed.

End Boundary.

(** ** The crawls run *)

Lemma demo_start :
  @SpiderWebsite_start RefLib.lib "https://a.test/" (Some demoOptions)
  = Started demoState0.
Proof. reflexivity. Qed.

Lemma demo_run : @run RefLib.lib demoState0 demoTrace = Some demoFinal.
Proof. by vm_compute. Qed.

Lemma C1_total_pages_bounded_witness :
  @SpiderWebsite_start RefLib.lib "https://a.test/" (Some demoOptions)
  = Started demoState0
  ∧ @run RefLib.lib demoState0 demoTrace = Some demoFinal
  ∧ MaxPages (options demoFinal) = 10
  ∧ TotalPages (result demoFinal) <= 10
  ∧ MaxPages (options demoFull) <= TotalPages (result demoFull)
  ∧ recv demoFull = Some (set_urlJobs (mkChan [] 20) demoFull)
  ∧ TotalPages (result (set_urlJobs (mkChan [] 20) demoFull))
    = TotalPages (result demoFull).
Proof.
  split; [exact demo_start |]. split; [exact demo_run |].
  destruct (C1_total_pages_bounded RefLib.lib "https://a.test/"
              (Some demoOptions) demoState0 demoFinal demoTrace
              demo_start demo_run) as (H1 & H2 & _ & H4).
  split; [exact H1 |]. split; [exact H2 |].
  assert (Hfull : MaxPages (options demoFull) <= TotalPages (result demoFull))
    by (by vm_compute).
  assert (Hrecv : recv demoFull = Some (set_urlJobs (mkChan [] 20) demoFull))
    by reflexivity.
  split; [exact Hfull |]. split; [exact Hrecv |].
  exact (proj1 (H4 _ _ Hfull Hrecv)).
Defined.

Lemma C8_options_immutable_witness :
  @SpiderWebsite_start RefLib.lib "https://a.test/" (Some demoOptions)
  = Started demoState0
  ∧ @run RefLib.lib demoState0 demoTrace = Some demoFinal
  ∧ MaxDepth (options demoFinal) = 2
  ∧ Concurrency (options demoFinal) = 2.
Proof.
  split; [exact demo_start |]. split; [exact demo_run |].
  destruct (C8_options_immutable RefLib.lib "https://a.test/"
              demoOptions demoState0 demoFinal demoTrace
              demo_start demo_run) as (_ & H2 & _ & _ & H5 & _).
  split; [exact H2 | exact H5].
Defined.

Lemma C3_admitted_once_witness :
  @SpiderWebsite_start RefLib.lib "https://a.test/" (Some demoOptions)
  = Started demoState0
  ∧ @run RefLib.lib demoState0 demoTrace = Some demoFinal
  ∧ NoDup (url <$> @admissions RefLib.lib demoState0 demoTrace)
  ∧ NoDup (CrawledURLs (result demoFinal)).
Proof.
  split; [exact demo_start |]. split; [exact demo_run |].
  destruct (C3_admitted_once RefLib.lib "https://a.test/"
              (Some demoOptions) demoState0 demoFinal demoTrace
              demo_start demo_run) as (H1 & _ & _ & H4 & _).
  split; [exact H1 | exact H4].
Defined.

Lemma C4_depth_bound_witness :
  @SpiderWebsite_start RefLib.lib "https://a.test/" (Some demoOptions)
  = Started demoState0
  ∧ @run RefLib.lib demoState0 demoTrace = Some demoFinal
  ∧ Forall (λ job, depth job <= MaxDepth (options demoFinal))
      (@admissions RefLib.lib demoState0 demoTrace).
Proof.
  split; [exact demo_start |]. split; [exact demo_run |].
  exact (proj1 (C4_depth_bound RefLib.lib "https://a.test/"
                  (Some demoOptions) demoState0 demoFinal demoTrace
                  demo_start demo_run)).
Defined.

(** C5.  The step after [wg.Wait()] leaves [DetectedFileUrls] as the
    workers filled it; and the crawl of the seed that links to a page and to
    a file, where the page links to the same file, returns a result with
    the file URL twice in [DetectedFileUrls]: the list without the
    duplicate is given to the logger only. *)
Theorem C5_file_urls_not_deduplicated :
  (∀ (L : GoLib) (s s' : State) (finalFileList : list string) (elapsed : Z),
      step s (EvJoin finalFileList elapsed) = Some s' →
      DetectedFileUrls (result s') = DetectedFileUrls (result s))
  ∧ @Returns RefLib.lib "https://a.test/" (Some demoOptions)
      (Some (result demoFinal))
  ∧ DetectedFileUrls (result demoFinal)
    = ["https://a.test/doc.pdf"; "https://a.test/doc.pdf"]
  ∧ ¬ NoDup (DetectedFileUrls (result demoFinal))
  ∧ infoLog demoFinal = [["https://a.test/doc.pdf"]].
Proof.
  split.
  { intros L s s' f e Hs. by step_cases Hs. }
  split.
  { by apply (ReturnsResult _ _ demoState0 demoFinal demoTrace
                demo_start demo_run). }
  assert (Hd : DetectedFileUrls (result demoFinal)
               = ["https://a.test/doc.pdf"; "https://a.test/doc.pdf"])
    by (by vm_compute).
  split; [exact Hd |]. split; [| by vm_compute].
  rewrite Hd. intros Hn. apply NoDup_cons in Hn as [Hn _].
  apply Hn. left.
Qed.

Lemma demo_wellFormed : wellFormed (effectiveOptions (Some demoOptions)).
Proof. constructor; vm_compute; (done || split; discriminate). Qed.

Lemma demo_err_run :
  @run RefLib.lib demoState0 demoErrTrace = Some demoErrFinal.
Proof. by vm_compute. Qed.




(** * More of the package *)

(** ** Strings, further *)

Lemma length_append (a b : string) :
  String.length (a +:+ b) = (String.length a + String.length b)%nat.
Proof.
  induction a as [|x a IH]; [done |]. rewrite append_cons. simpl. by rewrite IH.
Qed.

Lemma chars_append (a b : string) :
  list_ascii_of_string (a +:+ b)
  = list_ascii_of_string a ++ list_ascii_of_string b.
Proof.
  induction a as [|x a IH]; [done |]. rewrite append_cons. simpl. by rewrite IH.
Qed.

Lemma Contains_spec (s sub : string) :
  strings.Contains s sub = true ↔ ∃ a b, s = a +:+ sub +:+ b.
Proof.
  induction s as [|c s IH]; cbn [strings.Contains].
  - destruct (strings.HasPrefix "" sub) eqn:E.
    + apply HasPrefix_spec in E as [r Hr]. split; [| done].
      intros _. exists "", r. by rewrite append_nil_l.
    + split; [done |]. intros ([|x a] & b & Hab); [| by rewrite append_cons in Hab].
      rewrite append_nil_l in Hab.
      assert (strings.HasPrefix "" sub = true) by (apply HasPrefix_spec; eauto).
      congruence.
  - destruct (strings.HasPrefix (String c s) sub) eqn:E.
    + apply HasPrefix_spec in E as [r Hr]. split; [| done].
      intros _. exists "", r. by rewrite append_nil_l.
    + rewrite IH. split.
      * intros (a & b & ->). by exists (String c a), b.
      * intros ([|x a] & b & Hab).
        { rewrite append_nil_l in Hab.
          assert (strings.HasPrefix (String c s) sub = true)
            by (apply HasPrefix_spec; eauto).
          congruence. }
        rewrite append_cons in Hab. injection Hab as -> ->. eauto.
Qed.

Lemma Contains_false (s sub : string) :
  strings.Contains s sub = false ↔ ∀ a b, s ≠ a +:+ sub +:+ b.
Proof.
  destruct (strings.Contains s sub) eqn:E.
  - apply Contains_spec in E as (a & b & ->). split; [done |].
    intros Hn. by destruct (Hn a b).
  - split; [| done]. intros _ a b ->.
    assert (strings.Contains (a +:+ sub +:+ b) sub = true)
      by (apply Contains_spec; eauto).
    congruence.
Qed.

Lemma Contains_tail (c : ascii) (s sub : string) :
  strings.Contains (String c s) sub = false → strings.Contains s sub = false.
Proof.
  rewrite !Contains_false. intros Hn a b ->. by apply (Hn (String c a) b).
Qed.

Lemma Contains_append_r (a b sub : string) :
  strings.Contains (a +:+ b) sub = false → strings.Contains b sub = false.
Proof.
  induction a as [|x a IH]; [done |]. rewrite append_cons.
  intros Hc. by apply IH, (Contains_tail x).
Qed.

Lemma Contains_char_cons (x c : ascii) (s : string) :
  strings.Contains (String x s) (String c "")
  = Ascii.eqb c x || strings.Contains s (String c "").
Proof.
  cbn [strings.Contains]. unfold strings.HasPrefix at 1. simpl.
  by destruct (Ascii.eqb c x).
Qed.

Lemma Contains_char_app (a b : string) (c : ascii) :
  strings.Contains (a +:+ b) (String c "")
  = strings.Contains a (String c "") || strings.Contains b (String c "").
Proof.
  induction a as [|x a IH]; [by rewrite append_nil_l |].
  rewrite append_cons, !Contains_char_cons, IH. by rewrite orb_assoc.
Qed.

(** No occurrence of a character: nothing to split at. *)
Lemma splitAt_None (c : ascii) (s : string) :
  splitAt c s = None ↔ strings.Contains s (String c "") = false.
Proof.
  rewrite Contains_false. split.
  - intros Hn a b ->. revert Hn.
    change (a +:+ String c "" +:+ b) with (a +:+ String c b).
    induction a as [|x a IH]; simpl.
    + by rewrite Ascii.eqb_refl.
    + rewrite ?append_cons. simpl. destruct (Ascii.eqb x c); [done |].
      destruct (splitAt c (a +:+ String c b)) as [[l r]|]; [done |].
      intros _. by apply IH.
  - intros Hn. destruct (splitAt c s) as [[l r]|] eqn:E; [| done].
    apply splitAt_Some in E. by destruct (Hn l r).
Qed.

Lemma splitAt_first (c : ascii) (l r : string) :
  strings.Contains l (String c "") = false →
  splitAt c (l +:+ String c r) = Some (l, r).
Proof.
  induction l as [|x l IH]; intros Hc.
  - simpl. by rewrite Ascii.eqb_refl.
  - rewrite append_cons. cbn [splitAt].
    destruct (Ascii.eqb_spec x c) as [->|Hne].
    + by destruct (proj1 (Contains_false _ _) Hc "" l).
    + rewrite IH; [done |]. by eapply Contains_tail.
Qed.

(** ** [sanitizeURL], in full *)

Lemma takeWhile_all (f : ascii → bool) (s : string) :
  Forall (λ c, f c = true) (list_ascii_of_string (takeWhile f s)).
Proof.
  induction s as [|a s IH]; simpl; [constructor |].
  destruct (f a) eqn:E; simpl; [by constructor | constructor].
Qed.

Lemma takeWhile_stop (f : ascii → bool) (m rest : string) :
  Forall (λ c, f c = true) (list_ascii_of_string m) →
  match rest with
  | String c _ => f c = false
  | EmptyString => True
  end →
  takeWhile f (m +:+ rest) = m.
Proof.
  induction m as [|a m IH]; simpl; intros Hm Hr.
  - rewrite append_nil_l. destruct rest as [|c r]; [done |]. simpl.
    by rewrite Hr.
  - apply Forall_cons in Hm as [Ha Hm]. rewrite ?append_cons. simpl.
    rewrite Ha. f_equal. by apply IH.
Qed.

Lemma matchAfter_chars (lit s m : string) :
  Forall (λ c, sanitizeClass c = true) (list_ascii_of_string lit) →
  matchAfter lit s = Some m →
  Forall (λ c, sanitizeClass c = true) (list_ascii_of_string m).
Proof.
  intros Hl. unfold matchAfter.
  destruct (strings.CutPrefix s lit) as [rest|]; [| done].
  pose proof (takeWhile_all sanitizeClass rest) as Ht.
  destruct (takeWhile sanitizeClass rest) as [|a t]; [done |].
  intros [= <-]. rewrite chars_append. by apply Forall_app.
Qed.

Lemma FindString_chars (s : string) :
  Forall (λ c, sanitizeClass c = true)
    (list_ascii_of_string (sanitizeRegex_FindString s)).
Proof.
  unfold sanitizeRegex_FindString.
  destruct (matchAfter "https://" s) as [m|] eqn:E1.
  { eapply matchAfter_chars; [| exact E1]. by repeat constructor. }
  destruct (matchAfter "http://" s) as [m|] eqn:E2.
  { eapply matchAfter_chars; [| exact E2]. by repeat constructor. }
  constructor.
Qed.

Lemma matchAfter_stop (lit m rest : string) :
  m ≠ "" →
  Forall (λ c, sanitizeClass c = true) (list_ascii_of_string m) →
  match rest with
  | String c _ => sanitizeClass c = false
  | EmptyString => True
  end →
  matchAfter lit (lit +:+ m +:+ rest) = Some (lit +:+ m).
Proof.
  intros Hne Hm Hr. unfold matchAfter.
  assert (Hc : strings.CutPrefix (lit +:+ m +:+ rest) lit = Some (m +:+ rest))
    by (by apply CutPrefix_Some).
  rewrite Hc, takeWhile_stop by done. by destruct m.
Qed.

Lemma FindString_stop (scheme m rest : string) :
  scheme = "http://" ∨ scheme = "https://" →
  m ≠ "" →
  Forall (λ c, sanitizeClass c = true) (list_ascii_of_string m) →
  match rest with
  | String c _ => sanitizeClass c = false
  | EmptyString => True
  end →
  sanitizeRegex_FindString (scheme +:+ m +:+ rest) = scheme +:+ m.
Proof.
  intros Hs Hne Hm Hr. unfold sanitizeRegex_FindString.
  destruct Hs as [-> | ->].
  - assert (Hn : matchAfter "https://" ("http://" +:+ m +:+ rest) = None).
    { unfold matchAfter.
      destruct (strings.CutPrefix ("http://" +:+ m +:+ rest) "https://")
        as [r|] eqn:E; [| done].
      apply CutPrefix_Some in E. rewrite !append_cons, !append_nil_l in E.
      discriminate E. }
    rewrite Hn. by rewrite matchAfter_stop.
  - by rewrite matchAfter_stop.
Qed.

Lemma FindString_idempotent (s : string) :
  sanitizeRegex_FindString (sanitizeRegex_FindString s)
  = sanitizeRegex_FindString s.
Proof.
  pose proof (FindString_chars s) as Hc.
  unfold sanitizeRegex_FindString at 2 3. unfold sanitizeRegex_FindString in Hc.
  assert (Hm : ∀ lit m, lit = "http://" ∨ lit = "https://" →
            matchAfter lit s = Some m →
            Forall (λ c, sanitizeClass c = true) (list_ascii_of_string m) →
            sanitizeRegex_FindString m = m).
  { intros lit m Hl. unfold matchAfter.
    destruct (strings.CutPrefix s lit) as [rest|]; [| done].
    destruct (takeWhile sanitizeClass rest) as [|a t] eqn:Et; [done |].
    intros [= <-]. rewrite chars_append. intros [_ Ht]%Forall_app.
    transitivity (sanitizeRegex_FindString (lit +:+ String a t +:+ "")).
    { by rewrite append_nil_r. }
    by apply FindString_stop. }
  destruct (matchAfter "https://" s) as [m|] eqn:E1.
  { apply (Hm "https://" m); [by right | done | done]. }
  destruct (matchAfter "http://" s) as [m|] eqn:E2.
  { apply (Hm "http://" m); [by left | done | done]. }
  done.
Qed.

(** X1.  What [sanitizeURL] returns is a leading part of the trimmed input;
    none of its characters is white space, a double quote, a single quote,
    a closing parenthesis, bracket or brace; and when it is not empty it
    ends where the input ends or where the first such character stands. *)
Theorem X1_sanitizeURL_clean_prefix (L : GoLib) (rawURL : string) :
  ∃ rest,
    TrimSpace rawURL = sanitizeURL rawURL +:+ rest
    ∧ Forall (λ c, sanitizeClass c = true)
        (list_ascii_of_string (sanitizeURL rawURL))
    ∧ (sanitizeURL rawURL ≠ "" →
       match rest with
       | String c _ => sanitizeClass c = false
       | EmptyString => True
       end).
Proof.
  destruct (FindString_leading (TrimSpace rawURL)) as (rest & Hr & Hs).
  exists rest. split_and!; [done | apply FindString_chars | done].
Qed.

(** X2.  When the trimmed input is http:// or https://, then one or more
    characters outside the excluded class, then nothing or an excluded
    character and anything, [sanitizeURL] returns the scheme and those
    characters: the URL is cut at the first excluded character and kept
    whole up to it. *)
Theorem X2_sanitizeURL_keeps_clean (L : GoLib)
    (rawURL scheme m rest : string) :
  scheme = "http://" ∨ scheme = "https://" →
  m ≠ "" →
  Forall (λ c, sanitizeClass c = true) (list_ascii_of_string m) →
  match rest with
  | String c _ => sanitizeClass c = false
  | EmptyString => True
  end →
  TrimSpace rawURL = scheme +:+ m +:+ rest →
  sanitizeURL rawURL = scheme +:+ m.
Proof.
  intros Hs Hne Hm Hr Ht. unfold sanitizeURL. rewrite Ht.
  by apply FindString_stop.
Qed.

Lemma X2_sanitizeURL_keeps_clean_witness :
  @TrimSpace RefLib.lib " https://a.test/p?download=1)(pdf) "
  = "https://" +:+ "a.test/p?download=1" +:+ ")(pdf)"
  ∧ @sanitizeURL RefLib.lib " https://a.test/p?download=1)(pdf) "
    = "https://a.test/p?download=1".
Proof.
  assert (Ht : @TrimSpace RefLib.lib " https://a.test/p?download=1)(pdf) "
               = "https://" +:+ "a.test/p?download=1" +:+ ")(pdf)")
    by reflexivity.
  split; [exact Ht |].
  apply (X2_sanitizeURL_keeps_clean RefLib.lib
           " https://a.test/p?download=1)(pdf) " "https://"
           "a.test/p?download=1" ")(pdf)");
    [by right | done | by repeat constructor | reflexivity | exact Ht].
Defined.

(** X3.  Sanitizing twice is sanitizing once, when [TrimSpace] leaves the
    sanitized URL as it is (it holds no white space). *)
Theorem X3_sanitizeURL_idempotent (L : GoLib) (rawURL : string) :
  TrimSpace (sanitizeURL rawURL) = sanitizeURL rawURL →
  sanitizeURL (sanitizeURL rawURL) = sanitizeURL rawURL.
Proof.
  intros Ht. unfold sanitizeURL at 1. rewrite Ht.
  apply FindString_idempotent.
Qed.

Lemma X3_sanitizeURL_idempotent_witness :
  @TrimSpace RefLib.lib (@sanitizeURL RefLib.lib " http://a.test/x' y ")
  = @sanitizeURL RefLib.lib " http://a.test/x' y "
  ∧ @sanitizeURL RefLib.lib (@sanitizeURL RefLib.lib " http://a.test/x' y ")
    = "http://a.test/x".
Proof.
  assert (Ht : @TrimSpace RefLib.lib
                 (@sanitizeURL RefLib.lib " http://a.test/x' y ")
               = @sanitizeURL RefLib.lib " http://a.test/x' y ")
    by reflexivity.
  split; [exact Ht |].
  etrans; [exact (X3_sanitizeURL_idempotent RefLib.lib _ Ht) | reflexivity].
Defined.

(** ** [shouldCrawlURL], further *)

Lemma HasSuffix_longer (s suffix : string) :
  (String.length s < String.length suffix)%nat →
  strings.HasSuffix s suffix = false.
Proof.
  intros Hl. destruct (strings.HasSuffix s suffix) eqn:E; [| done].
  apply HasSuffix_spec in E as [p ->]. rewrite length_append in Hl. lia.
Qed.

(** X4.  Scope is symmetric: a link is in scope of a seed exactly when the
    seed would be in scope of the link. *)
Theorem X4_shouldCrawlURL_symmetric (L : GoLib) (a b : URL)
    (crawlSubDomain : bool) :
  shouldCrawlURL a b crawlSubDomain = shouldCrawlURL b a crawlSubDomain.
Proof.
  unfold shouldCrawlURL.
  rewrite (String.eqb_sym (ToLower (Host a))).
  destruct (String.eqb (ToLower (Host b)) (ToLower (Host a))); [done |].
  destruct crawlSubDomain; [apply orb_comm | done].
Qed.

(** X5.  A host and the same host with www. in front are out of scope of
    each other, with or without subdomains: both are stripped of the www.
    before the suffix test, which then compares a host with a dot and
    itself.  (The host itself must not begin with www.) *)
Theorem X5_shouldCrawlURL_www_not_bare (L : GoLib) (target base : URL)
    (h : string) (crawlSubDomain : bool) :
  ToLower (Host base) = h →
  ToLower (Host target) = "www." +:+ h →
  strings.HasPrefix h "www." = false →
  shouldCrawlURL target base crawlSubDomain = false
  ∧ shouldCrawlURL base target crawlSubDomain = false.
Proof.
  intros Hb Ht Hw.
  assert (Hgoal : shouldCrawlURL target base crawlSubDomain = false).
  { unfold shouldCrawlURL. rewrite Hb, Ht.
    destruct (String.eqb_spec ("www." +:+ h) h) as [Heq|_].
    { apply (f_equal String.length) in Heq. rewrite length_append in Heq.
      simpl in Heq. lia. }
    destruct crawlSubDomain; [| done].
    assert (Ht' : strings.TrimPrefix ("www." +:+ h) "www." = h).
    { unfold strings.TrimPrefix.
      by rewrite (proj2 (CutPrefix_Some ("www." +:+ h) "www." h) eq_refl). }
    assert (Hb' : strings.TrimPrefix h "www." = h).
    { unfold strings.TrimPrefix, strings.HasPrefix in *.
      by destruct (strings.CutPrefix h "www."). }
    rewrite Ht', Hb'.
    rewrite HasSuffix_longer; [done |]. rewrite length_append. simpl. lia. }
  split; [done |].
  unfold shouldCrawlURL in *.
  rewrite (String.eqb_sym (ToLower (Host base))).
  destruct (String.eqb (ToLower (Host target)) (ToLower (Host base)));
    [done |].
  destruct crawlSubDomain; [by rewrite orb_comm | done].
Qed.

Lemma X5_shouldCrawlURL_www_not_bare_witness :
  @ToLower RefLib.lib (Host (hostURL "Example.com")) = "example.com"
  ∧ @shouldCrawlURL RefLib.lib (hostURL "www.example.com")
      (hostURL "Example.com") true = false
  ∧ @shouldCrawlURL RefLib.lib (hostURL "Example.com")
      (hostURL "www.example.com") true = false.
Proof.
  split; [reflexivity |].
  apply (X5_shouldCrawlURL_www_not_bare RefLib.lib
           (hostURL "www.example.com") (hostURL "Example.com")
           "example.com" true); reflexivity.
Defined.

(** ** [extractLinks], further *)

Lemma size_union_le (X Y : gset string) : (size (X ∪ Y) <= size X + size Y)%nat.
Proof.
  rewrite size_union_alt.
  assert (size (Y ∖ X) <= size Y)%nat by (apply subseteq_size; set_solver).
  lia.
Qed.

Section ClassifierExtra.
Context `{GoLib}.

(** One link adds at most one URL, to one of the two sets. *)
Lemma processLink_size (href text baseURL : string) (pb : URL) (sub : bool) :
  (size (fst (processLinkFromResponse href text baseURL pb sub ∅ ∅))
   + size (snd (processLinkFromResponse href text baseURL pb sub ∅ ∅))
   <= 1)%nat.
Proof.
  unfold processLinkFromResponse.
  repeat case_match; cbn [fst snd];
    rewrite ?(right_id_L ∅ (∪)), ?size_empty, ?size_singleton; lia.
Qed.

Lemma extractLoop_size (links : list webcrawl.Link) (baseURL : string)
    (pb : URL) (sub : bool) :
  (size (fst (extractLoop links baseURL pb sub (∅, ∅)))
   + size (snd (extractLoop links baseURL pb sub (∅, ∅)))
   <= length links)%nat.
Proof.
  induction links as [|link rest IH]; cbn [extractLoop length fst snd].
  - rewrite size_empty. lia.
  - rewrite extractLoop_yield.
    destruct (String.eqb (TrimSpace (webcrawl.Href link)) "");
      cbn [fst snd].
    + rewrite !(right_id_L ∅ (∪)). lia.
    + pose proof (processLink_size (TrimSpace (webcrawl.Href link))
                    (webcrawl.Text link) baseURL pb sub).
      pose proof (size_union_le
                    (fst (extractLoop rest baseURL pb sub (∅, ∅)))
                    (fst (processLinkFromResponse
                            (TrimSpace (webcrawl.Href link))
                            (webcrawl.Text link) baseURL pb sub ∅ ∅))).
      pose proof (size_union_le
                    (snd (extractLoop rest baseURL pb sub (∅, ∅)))
                    (snd (processLinkFromResponse
                            (TrimSpace (webcrawl.Href link))
                            (webcrawl.Text link) baseURL pb sub ∅ ∅))).
      lia.
Qed.

(** What the href of a link adds to the two sets. *)
Lemma extractLoop_elem (links : list webcrawl.Link) (baseURL : string)
    (pb : URL) (sub : bool) (x : string) :
  (x ∈ fst (extractLoop links baseURL pb sub (∅, ∅))
   ↔ ∃ h, h ∈ webcrawl.Href <$> links
          ∧ x ∈ fst (linkYield h baseURL pb sub))
  ∧ (x ∈ snd (extractLoop links baseURL pb sub (∅, ∅))
     ↔ ∃ h, h ∈ webcrawl.Href <$> links
            ∧ x ∈ snd (linkYield h baseURL pb sub)).
Proof.
  induction links as [|link rest [IH1 IH2]].
  - simpl. split; (split; [by intros ?%not_elem_of_empty |]);
      by intros (h & ?%not_elem_of_nil & _).
  - cbn [extractLoop]. rewrite extractLoop_yield. cbn [fst snd].
    rewrite fmap_cons.
    assert (Hy : (if String.eqb (TrimSpace (webcrawl.Href link)) ""
                  then (∅, ∅)
                  else processLinkFromResponse
                         (TrimSpace (webcrawl.Href link))
                         (webcrawl.Text link) baseURL pb sub
                         (∅ : gset string) (∅ : gset string))
                 = linkYield (webcrawl.Href link) baseURL pb sub).
    { unfold linkYield. by destruct (String.eqb _ ""). }
    rewrite Hy, !elem_of_union, IH1, IH2.
    split; split.
    + intros [(h & Hh & Hx)|Hx]; [exists h | eexists]; split; eauto;
        [by apply list_elem_of_further | apply list_elem_of_here].
    + intros (h & [->|Hh]%elem_of_cons & Hx); eauto.
    + intros [(h & Hh & Hx)|Hx]; [exists h | eexists]; split; eauto;
        [by apply list_elem_of_further | apply list_elem_of_here].
    + intros (h & [->|Hh]%elem_of_cons & Hx); eauto.
Qed.

(** What a link adds is the rendering of a URL in scope, filed under what
    [isFileURL] says of it. *)
Lemma processLink_scope (href text baseURL : string) (pb : URL) (sub : bool)
    (c : string) :
  (c ∈ fst (processLinkFromResponse href text baseURL pb sub ∅ ∅) →
   linkOf pb sub false c)
  ∧ (c ∈ snd (processLinkFromResponse href text baseURL pb sub ∅ ∅) →
     linkOf pb sub true c).
Proof.
  unfold processLinkFromResponse, linkOf.
  repeat case_match; simpl;
    rewrite ?(right_id_L ∅ (∪)), ?elem_of_singleton;
    split; try (by intros ?%not_elem_of_empty); intros ->; eauto.
Qed.

Lemma extractLoop_scope (links : list webcrawl.Link) (baseURL : string)
    (pb : URL) (sub : bool) (c : string) :
  (c ∈ fst (extractLoop links baseURL pb sub (∅, ∅)) → linkOf pb sub false c)
  ∧ (c ∈ snd (extractLoop links baseURL pb sub (∅, ∅)) →
     linkOf pb sub true c).
Proof.
  destruct (extractLoop_elem links baseURL pb sub c) as [H1 H2].
  rewrite H1, H2. unfold linkYield.
  split; intros (h & _ & Hc); destruct (String.eqb (TrimSpace h) "");
    simpl in Hc; try (by apply not_elem_of_empty in Hc);
    by eapply processLink_scope.
Qed.

Lemma extractLinks_scope (r : webcrawl.CrawlResult) (baseURL : string)
    (pb : URL) (sub : bool) (crawlableLinks fileLinks : list string) :
  extractLinks r baseURL pb sub crawlableLinks fileLinks →
  (∀ c, c ∈ crawlableLinks → linkOf pb sub false c)
  ∧ (∀ f, f ∈ fileLinks → linkOf pb sub true f).
Proof.
  intros [Hc Hf]. split; intros x Hx.
  - rewrite Hc in Hx. apply elem_of_elements in Hx.
    by eapply extractLoop_scope.
  - rewrite Hf in Hx. apply elem_of_elements in Hx.
    by eapply extractLoop_scope.
Qed.

Context `{!GoLibLaws H}.

(** The sanitized link always parses to an absolute URL, so the URL of the
    page is never used. *)
Lemma processLink_base (href text base1 base2 : string) (pb : URL)
    (sub : bool) (cs fs : gset string) :
  processLinkFromResponse href text base1 pb sub cs fs
  = processLinkFromResponse href text base2 pb sub cs fs.
Proof.
  unfold processLinkFromResponse.
  destruct (String.eqb href "" || strings.HasPrefix href "#"); [done |].
  destruct (String.eqb_spec (sanitizeURL href) "") as [|Hne]; [done |].
  destruct (url_Parse (sanitizeURL href)) as [parsed|] eqn:Ep; [| done].
  assert (Habs : IsAbs parsed = true).
  { unfold IsAbs.
    destruct (sanitizeURL_cases href) as [?|[Hp|Hp]]; [done | |].
    - by rewrite (Parse_http _ _ Ep Hp).
    - by rewrite (Parse_https _ _ Ep Hp). }
  by rewrite Habs.
Qed.

Lemma extractLoop_base (links : list webcrawl.Link) (base1 base2 : string)
    (pb : URL) (sub : bool) (sets : gset string * gset string) :
  extractLoop links base1 pb sub sets = extractLoop links base2 pb sub sets.
Proof.
  revert sets. induction links as [|link rest IH]; intros sets; [done |].
  cbn [extractLoop]. rewrite IH.
  by rewrite (processLink_base _ _ base1 base2).
Qed.

End ClassifierExtra.

(** X6.  [extractLinks] returns at most as many URLs, crawlable and file
    together, as the page has internal links. *)
Theorem X6_extractLinks_bounded (L : GoLib)
    (crawlResult : webcrawl.CrawlResult)
    (baseURL : string) (parsedBaseURL : URL) (crawlSubDomain : bool)
    (crawlableLinks fileLinks : list string) :
  extractLinks crawlResult baseURL parsedBaseURL crawlSubDomain
    crawlableLinks fileLinks →
  (length crawlableLinks + length fileLinks
   <= length (webcrawl.Internal (webcrawl.Links_ crawlResult)))%nat.
Proof.
  intros [Hc Hf]. rewrite Hc, Hf.
  apply (extractLoop_size (webcrawl.Internal (webcrawl.Links_ crawlResult))).
Qed.

Lemma X6_extractLinks_bounded_witness :
  let page := pageOf "" ["https://a.test/p1"; "https://a.test/doc.pdf";
                        "https://a.test/p2"; " https://a.test/p1#top "] in
  @extractLinks RefLib.lib page "https://a.test/" (hostURL "a.test") true
    ["https://a.test/p1"; "https://a.test/p2"] ["https://a.test/doc.pdf"]
  ∧ (2 + 1 <= 4)%nat.
Proof.
  intros page.
  assert (H1 : @extractLinks RefLib.lib page "https://a.test/"
                 (hostURL "a.test") true
                 ["https://a.test/p1"; "https://a.test/p2"]
                 ["https://a.test/doc.pdf"]).
  { apply (bool_decide_unpack _). by vm_compute. }
  split; [exact H1 |].
  exact (X6_extractLinks_bounded RefLib.lib page "https://a.test/"
           (hostURL "a.test") true _ _ H1).
Defined.

(** X7.  The two sets of [extractLinks] depend on the page only through
    the set of the hrefs of its internal links: their order, their
    repetitions, the link texts, the external links and the content of the
    page make no difference. *)
Theorem X7_extractLinks_hrefs_only (L : GoLib)
    (r1 r2 : webcrawl.CrawlResult)
    (baseURL : string) (parsedBaseURL : URL) (crawlSubDomain : bool) :
  (list_to_set (webcrawl.Href <$> webcrawl.Internal (webcrawl.Links_ r1))
     : gset string)
  = list_to_set (webcrawl.Href <$> webcrawl.Internal (webcrawl.Links_ r2)) →
  extractLinkSets r1 baseURL parsedBaseURL crawlSubDomain
  = extractLinkSets r2 baseURL parsedBaseURL crawlSubDomain.
Proof.
  intros Heq. unfold extractLinkSets.
  assert (Hin : ∀ h, h ∈ webcrawl.Href <$> webcrawl.Internal (webcrawl.Links_ r1)
                     ↔ h ∈ webcrawl.Href <$> webcrawl.Internal
                                               (webcrawl.Links_ r2)).
  { intros h. by rewrite <- !(elem_of_list_to_set (C := gset string)), Heq. }
  apply injective_projections; apply set_eq; intros x.
  - rewrite !(proj1 (extractLoop_elem _ _ _ _ _)).
    by setoid_rewrite Hin.
  - rewrite !(proj2 (extractLoop_elem _ _ _ _ _)).
    by setoid_rewrite Hin.
Qed.

Lemma X7_extractLinks_hrefs_only_witness :
  let r1 := pageOf "one" ["https://a.test/p1"; "https://a.test/doc.pdf"] in
  let r2 :=
    webcrawl.mkCrawlResult "two"
      (webcrawl.mkLinks
         [webcrawl.mkLink "https://a.test/doc.pdf" "a file";
          webcrawl.mkLink "https://a.test/p1" "a page";
          webcrawl.mkLink "https://a.test/doc.pdf" "again"]
         [webcrawl.mkLink "https://b.test/" "elsewhere"]) in
  @extractLinkSets RefLib.lib r1 "https://a.test/" (hostURL "a.test") true
  = @extractLinkSets RefLib.lib r2 "https://a.test/" (hostURL "a.test") true.
Proof.
  intros r1 r2.
  apply (X7_extractLinks_hrefs_only RefLib.lib r1 r2).
  by vm_compute.
Defined.

(** X8.  Every crawlable URL that [extractLinks] returns is the rendering,
    with the fragment cleared, of a URL that [shouldCrawlURL] accepts for
    the seed and that [isFileURL] rejects; every file URL is the rendering
    of an accepted URL that [isFileURL] accepts. *)
Theorem X8_extractLinks_in_scope (L : GoLib)
    (crawlResult : webcrawl.CrawlResult)
    (baseURL : string) (parsedBaseURL : URL) (crawlSubDomain : bool)
    (crawlableLinks fileLinks : list string) :
  extractLinks crawlResult baseURL parsedBaseURL crawlSubDomain
    crawlableLinks fileLinks →
  (∀ c, c ∈ crawlableLinks → linkOf parsedBaseURL crawlSubDomain false c)
  ∧ (∀ f, f ∈ fileLinks → linkOf parsedBaseURL crawlSubDomain true f).
Proof. apply extractLinks_scope. Qed.

Lemma X8_extractLinks_in_scope_witness :
  let page := pageOf "" ["https://a.test/p1"; "https://a.test/doc.pdf";
                        "https://b.test/p2"] in
  @extractLinks RefLib.lib page "https://a.test/" (hostURL "a.test") true
    ["https://a.test/p1"] ["https://a.test/doc.pdf"]
  ∧ @linkOf RefLib.lib (hostURL "a.test") true false "https://a.test/p1"
  ∧ @linkOf RefLib.lib (hostURL "a.test") true true "https://a.test/doc.pdf".
Proof.
  intros page.
  assert (H1 : @extractLinks RefLib.lib page "https://a.test/"
                 (hostURL "a.test") true
                 ["https://a.test/p1"] ["https://a.test/doc.pdf"]).
  { apply (bool_decide_unpack _). by vm_compute. }
  split; [exact H1 |].
  destruct (X8_extractLinks_in_scope RefLib.lib page "https://a.test/"
              (hostURL "a.test") true _ _ H1) as [Hc Hf].
  split; [apply Hc | apply Hf]; apply list_elem_of_here.
Defined.

(** X9.  With a library in which a string that begins with http:// or
    https:// parses to that scheme, the URL of the page is never used: the
    sanitized link is absolute, the branch that resolves it against the
    page is not taken, and [extractLinks] returns the same for every
    [baseURL]. *)
Theorem X9_extractLinks_ignores_page_url (L : GoLib) (Laws : GoLibLaws L)
    (crawlResult : webcrawl.CrawlResult) (base1 base2 : string)
    (parsedBaseURL : URL) (crawlSubDomain : bool) :
  extractLinkSets crawlResult base1 parsedBaseURL crawlSubDomain
  = extractLinkSets crawlResult base2 parsedBaseURL crawlSubDomain
  ∧ ∀ crawlableLinks fileLinks,
      extractLinks crawlResult base1 parsedBaseURL crawlSubDomain
        crawlableLinks fileLinks
      ↔ extractLinks crawlResult base2 parsedBaseURL crawlSubDomain
          crawlableLinks fileLinks.
Proof.
  assert (Hs : extractLinkSets crawlResult base1 parsedBaseURL crawlSubDomain
               = extractLinkSets crawlResult base2 parsedBaseURL
                   crawlSubDomain) by apply extractLoop_base.
  split; [done |]. intros c f. unfold extractLinks. by rewrite Hs.
Qed.

Lemma X9_extractLinks_ignores_page_url_witness :
  GoLibLaws RefLib.lib
  ∧ @extractLinkSets RefLib.lib (pageOf "" ["https://a.test/p1"; "p2"])
      "https://a.test/dir/" (hostURL "a.test") true
    = @extractLinkSets RefLib.lib (pageOf "" ["https://a.test/p1"; "p2"])
        "not a URL" (hostURL "a.test") true.
Proof.
  split; [exact RefLib_laws |].
  exact (proj1 (X9_extractLinks_ignores_page_url RefLib.lib RefLib_laws
                  (pageOf "" ["https://a.test/p1"; "p2"])
                  "https://a.test/dir/" "not a URL" (hostURL "a.test") true)).
Defined.

(** ** [removeMarkdownLinks] *)

(** [matchMarkdownLink] by a test of the first character. *)
Lemma matchMarkdownLink_eq (s : string) :
  matchMarkdownLink s
  = match s with
    | String a s1 =>
        if Ascii.eqb a "[" then
          match splitAt "]" s1 with
          | Some (text, String b s2) =>
              if Ascii.eqb b "(" then
                match splitAt ")" s2 with
                | Some (_, rest) => Some (text, rest)
                | None => None
                end
              else None
          | _ => None
          end
        else None
    | EmptyString => None
    end.
Proof.
  destruct s as [|a s1]; [done |].
  destruct (Ascii.eqb_spec a "[") as [->|Hne].
  - simpl. destruct (splitAt "]" s1) as [[text [|b s2]]|]; [done | | done].
    destruct (Ascii.eqb_spec b "(") as [->|Hne]; [done |].
    destruct b as [[] [] [] [] [] [] [] []]; done.
  - destruct a as [[] [] [] [] [] [] [] []]; done.
Qed.

(** A match at the head of [s]: the text, the target and what follows. *)
Lemma matchMarkdownLink_Some (s text rest : string) :
  matchMarkdownLink s = Some (text, rest) →
  ∃ target, s = "[" +:+ text +:+ "](" +:+ target +:+ ")" +:+ rest.
Proof.
  rewrite matchMarkdownLink_eq.
  destruct s as [|a s1]; [done |].
  destruct (Ascii.eqb_spec a "[") as [->|Hne]; [| done].
  destruct (splitAt "]" s1) as [[t [|b s2]]|] eqn:E1; [done | | done].
  destruct (Ascii.eqb_spec b "(") as [->|Hne]; [| done].
  destruct (splitAt ")" s2) as [[target r]|] eqn:E2; [| done].
  intros [= <- <-]. exists target.
  apply splitAt_Some in E1, E2. subst.
  rewrite !append_cons, !append_nil_l. by f_equal.
Qed.

Lemma matchMarkdownLink_shorter (s text rest : string) :
  matchMarkdownLink s = Some (text, rest) →
  (String.length rest < String.length s)%nat.
Proof.
  intros [target ->]%matchMarkdownLink_Some.
  rewrite !length_append. simpl. lia.
Qed.

(** With fuel for every character the result is that of
    [removeMarkdownLinks]. *)
Lemma replaceLinks_fuel (n m : nat) (s : string) :
  (String.length s <= n)%nat → (String.length s <= m)%nat →
  replaceLinks n s = replaceLinks m s.
Proof.
  revert m s. induction n as [|n IH]; intros [|m] s Hn Hm; simpl; try done.
  - destruct s; [| simpl in Hn; lia]. by rewrite matchMarkdownLink_eq.
  - destruct s; [| simpl in Hm; lia]. by rewrite matchMarkdownLink_eq.
  - destruct (matchMarkdownLink s) as [[text rest]|] eqn:E.
    + apply matchMarkdownLink_shorter in E. f_equal. apply IH; lia.
    + destruct s as [|a s]; [done |]. simpl in *. f_equal. apply IH; lia.
Qed.

Lemma replaceLinks_enough (n : nat) (s : string) :
  (String.length s <= n)%nat → replaceLinks n s = removeMarkdownLinks s.
Proof. intros Hn. by apply replaceLinks_fuel. Qed.

(** One round of [removeMarkdownLinks]. *)
Lemma removeMarkdownLinks_step (s : string) :
  removeMarkdownLinks s
  = match matchMarkdownLink s with
    | Some (text, rest) => text +:+ removeMarkdownLinks rest
    | None =>
        match s with
        | EmptyString => EmptyString
        | String a s' => String a (removeMarkdownLinks s')
        end
    end.
Proof.
  unfold removeMarkdownLinks at 1.
  destruct s as [|a s]; [by rewrite matchMarkdownLink_eq |].
  cbn [String.length replaceLinks].
  destruct (matchMarkdownLink (String a s)) as [[text rest]|] eqn:E.
  - apply matchMarkdownLink_shorter in E. simpl in E.
    rewrite replaceLinks_enough by lia. done.
  - by rewrite replaceLinks_enough.
Qed.

Lemma matchMarkdownLink_None (s : string) :
  strings.Contains s "[" = false ∨ strings.Contains s "](" = false
  ∨ strings.Contains s ")" = false →
  matchMarkdownLink s = None.
Proof.
  intros Hs. destruct (matchMarkdownLink s) as [[text rest]|] eqn:E; [| done].
  apply matchMarkdownLink_Some in E as [target ->].
  destruct Hs as [Hs|[Hs|Hs]]; rewrite Contains_false in Hs.
  - by destruct (Hs "" (text +:+ "](" +:+ target +:+ ")" +:+ rest)).
  - destruct (Hs ("[" +:+ text) (target +:+ ")" +:+ rest)).
    by rewrite !append_assoc.
  - destruct (Hs ("[" +:+ text +:+ "](" +:+ target) rest).
    by rewrite !append_assoc.
Qed.

Lemma removeMarkdownLinks_id (s : string) :
  strings.Contains s "[" = false ∨ strings.Contains s "](" = false
  ∨ strings.Contains s ")" = false →
  removeMarkdownLinks s = s.
Proof.
  induction s as [|a s IH]; intros Hs; rewrite removeMarkdownLinks_step;
    rewrite matchMarkdownLink_None by done; [done |].
  f_equal. apply IH.
  destruct Hs as [Hs|[Hs|Hs]]; eauto using Contains_tail.
Qed.

Lemma matchMarkdownLink_link (text target post : string) :
  strings.Contains text "]" = false → strings.Contains target ")" = false →
  matchMarkdownLink ("[" +:+ text +:+ "](" +:+ target +:+ ")" +:+ post)
  = Some (text, post).
Proof.
  intros Ht Ha. rewrite matchMarkdownLink_eq.
  rewrite append_cons, append_nil_l. rewrite Ascii.eqb_refl.
  change ("](" +:+ target +:+ ")" +:+ post)
    with (String "]" (String "(" (target +:+ String ")" post))).
  rewrite splitAt_first by done. rewrite Ascii.eqb_refl.
  by rewrite splitAt_first.
Qed.

Lemma removeMarkdownLinks_prefix (pre s : string) :
  strings.Contains pre "[" = false →
  removeMarkdownLinks (pre +:+ s) = pre +:+ removeMarkdownLinks s.
Proof.
  induction pre as [|a pre IH]; intros Hp; [done |].
  rewrite append_cons, removeMarkdownLinks_step.
  assert (Hne : a ≠ "["%char).
  { intros ->. by destruct (proj1 (Contains_false _ _) Hp "" pre). }
  rewrite matchMarkdownLink_eq.
  destruct (Ascii.eqb_spec a "[") as [|_]; [done |].
  rewrite IH; [done |]. by eapply Contains_tail.
Qed.

Lemma replaceLinks_sublist (n : nat) (s : string) :
  list_ascii_of_string (replaceLinks n s) `sublist_of` list_ascii_of_string s.
Proof.
  revert s. induction n as [|n IH]; intros s; simpl; [done |].
  destruct (matchMarkdownLink s) as [[text rest]|] eqn:E.
  - apply matchMarkdownLink_Some in E as [target ->].
    rewrite !chars_append. simpl.
    apply sublist_cons, sublist_app; [done |].
    apply sublist_cons, sublist_cons.
    apply sublist_inserts_l, sublist_cons, IH.
  - destruct s as [|a s]; [done |]. simpl. apply sublist_skip, IH.
Qed.

Lemma removeMarkdownLinks_link_at (pre text target post : string) :
  strings.Contains pre "[" = false →
  strings.Contains text "]" = false →
  strings.Contains target ")" = false →
  removeMarkdownLinks
    (pre +:+ "[" +:+ text +:+ "](" +:+ target +:+ ")" +:+ post)
  = pre +:+ text +:+ removeMarkdownLinks post.
Proof.
  intros Hp Ht Ha. rewrite removeMarkdownLinks_prefix by done.
  rewrite removeMarkdownLinks_step, matchMarkdownLink_link by done. done.
Qed.

(** X10.  A text without an opening bracket, or without a closing bracket
    followed at once by an opening parenthesis, or without a closing
    parenthesis, holds no link: [removeMarkdownLinks] returns it as it
    is. *)
Theorem X10_removeMarkdownLinks_plain (content : string) :
  strings.Contains content "[" = false ∨ strings.Contains content "](" = false
  ∨ strings.Contains content ")" = false →
  removeMarkdownLinks content = content.
Proof. apply removeMarkdownLinks_id. Qed.

Lemma X10_removeMarkdownLinks_plain_witness :
  strings.Contains "see [1] and (2)" "](" = false
  ∧ removeMarkdownLinks "see [1] and (2)" = "see [1] and (2)".
Proof.
  assert (Hc : strings.Contains "see [1] and (2)" "](" = false)
    by reflexivity.
  split; [exact Hc |].
  apply (X10_removeMarkdownLinks_plain "see [1] and (2)").
  right. left. exact Hc.
Defined.

(** X11.  The first link of a text is replaced by its text: before it
    nothing changes, the brackets and the parenthesized target go, and
    what follows is treated in the same way.  (Nothing before the link
    holds an opening bracket, the link text holds no closing bracket and
    the target no closing parenthesis.) *)
Theorem X11_removeMarkdownLinks_link (pre text target post : string) :
  strings.Contains pre "[" = false →
  strings.Contains text "]" = false →
  strings.Contains target ")" = false →
  removeMarkdownLinks
    (pre +:+ "[" +:+ text +:+ "](" +:+ target +:+ ")" +:+ post)
  = pre +:+ text +:+ removeMarkdownLinks post.
Proof. apply removeMarkdownLinks_link_at. Qed.

Lemma X11_removeMarkdownLinks_link_witness :
  removeMarkdownLinks
    ("see " +:+ "[" +:+ "the docs" +:+ "](" +:+ "https://a.test/d" +:+ ")"
       +:+ " now")
  = "see " +:+ "the docs" +:+ removeMarkdownLinks " now".
Proof.
  apply (X11_removeMarkdownLinks_link "see " "the docs" "https://a.test/d"
           " now"); reflexivity.
Defined.

(** X12.  [removeMarkdownLinks] only deletes: the characters of its result
    are characters of the input, in their order, and the result is not
    longer than the input. *)
Theorem X12_removeMarkdownLinks_only_deletes (content : string) :
  list_ascii_of_string (removeMarkdownLinks content)
    `sublist_of` list_ascii_of_string content
  ∧ (String.length (removeMarkdownLinks content) <= String.length content)%nat.
Proof.
  assert (Hs := replaceLinks_sublist (String.length content) content).
  split; [exact Hs |].
  apply sublist_length in Hs.
  assert (Hl : ∀ s, length (list_ascii_of_string s) = String.length s).
  { induction s; simpl; congruence. }
  by rewrite !Hl in Hs.
Qed.

(** X13.  One pass is not enough for a link whose text begins with a
    bracket: of a link inside the brackets of another the inner target
    goes with the outer opening bracket, and what is left is again a link,
    which a second pass would replace by its text. *)
Theorem X13_removeMarkdownLinks_nested (t a b : string) :
  strings.Contains t "]" = false →
  strings.Contains a ")" = false →
  strings.Contains b ")" = false →
  strings.Contains b "[" = false →
  removeMarkdownLinks ("[[" +:+ t +:+ "](" +:+ a +:+ ")](" +:+ b +:+ ")")
  = "[" +:+ t +:+ "](" +:+ b +:+ ")"
  ∧ removeMarkdownLinks ("[" +:+ t +:+ "](" +:+ b +:+ ")") = t.
Proof.
  intros Ht Ha Hb Hb'. split.
  - transitivity ("[" +:+ t +:+ removeMarkdownLinks ("](" +:+ b +:+ ")")).
    + apply (removeMarkdownLinks_link_at "" ("[" +:+ t) a ("](" +:+ b +:+ ")"));
        [done | | done].
      change ("[" +:+ t) with (String "[" t).
      by rewrite Contains_char_cons, Ht.
    + rewrite removeMarkdownLinks_id; [done |]. left.
      change ("](" +:+ b +:+ ")") with (String "]" (String "(" (b +:+ ")"))).
      by rewrite !Contains_char_cons, Contains_char_app, Hb'.
  - etrans; [by apply (removeMarkdownLinks_link_at "" t b "") |].
    rewrite removeMarkdownLinks_id by (by left).
    by rewrite append_nil_l, append_nil_r.
Qed.

Lemma X13_removeMarkdownLinks_nested_witness :
  removeMarkdownLinks ("[[" +:+ "logo" +:+ "](" +:+ "l.png" +:+ ")]("
                         +:+ "https://a.test/" +:+ ")")
  = "[" +:+ "logo" +:+ "](" +:+ "https://a.test/" +:+ ")"
  ∧ removeMarkdownLinks ("[" +:+ "logo" +:+ "](" +:+ "https://a.test/" +:+ ")")
    = "logo".
Proof.
  apply (X13_removeMarkdownLinks_nested "logo" "l.png" "https://a.test/");
    reflexivity.
Defined.

(** ** [SpiderWebsite]: how it starts *)

Lemma wrap_double (m : Z) :
  1 <= m <= int_max → 0 <= wrap (m * 2) → wrap (m * 2) = m * 2 ∧ m < 2 ^ 62.
Proof.
  unfold wrap, int_max. intros Hm Hw.
  destruct (Z.le_gt_cases (2 ^ 62) m).
  - assert ((m * 2 + 2 ^ 63) mod 2 ^ 64 = m * 2 + 2 ^ 63 - 2 ^ 64).
    { symmetry. apply Z.mod_unique with 1; lia. }
    lia.
  - rewrite Z.mod_small in * by lia. lia.
Qed.

Lemma start_panic_iff (L : GoLib) (targetURL : string)
    (opts : option SpiderOptions) :
  is_int (MaxPages (default DefaultSpiderOptions opts)) →
  (SpiderWebsite_start targetURL opts = StartPanic
   ↔ is_Some (url_Parse targetURL)
     ∧ (maxAlloc - hchanSize
        < sizeof_urlJob * (MaxPages (default DefaultSpiderOptions opts) * 2)
        ∨ Concurrency (default DefaultSpiderOptions opts) < 0))
  ∧ (SpiderWebsite_start targetURL opts = StartError
     ↔ url_Parse targetURL = None).
Proof.
  intros Hint. unfold SpiderWebsite_start, effectiveOptions, makechan.
  assert (Ho : match opts with
               | Some o => o
               | None => DefaultSpiderOptions
               end = default DefaultSpiderOptions opts) by (by destruct opts).
  rewrite Ho. set (o := default DefaultSpiderOptions opts) in *.
  unfold is_int, int_min, int_max in Hint.
  unfold maxAlloc, hchanSize, sizeof_urlJob, sizeof_struct0.
  destruct (url_Parse targetURL) as [u|].
  2: { split; split; try done. by intros [[? [=]] _]. }
  assert (Hw : ∀ m, 1 <= m <= 2 ^ 63 - 1 →
            ((wrap (m * 2) <? 0) || (2 ^ 48 - 104 <? 24 * wrap (m * 2)))
            = (2 ^ 48 - 104 <? 24 * (m * 2))).
  { intros m Hm. unfold wrap.
    destruct (Z.le_gt_cases (2 ^ 62) m).
    - replace ((m * 2 + 2 ^ 63) mod 2 ^ 64) with (m * 2 + 2 ^ 63 - 2 ^ 64)
        by (apply Z.mod_unique with 1; lia).
      destruct (Z.ltb_spec (m * 2 + 2 ^ 63 - 2 ^ 64 - 2 ^ 63) 0); [| lia].
      symmetry. apply Z.ltb_lt. lia.
    - rewrite Z.mod_small by lia.
      destruct (Z.ltb_spec (m * 2 + 2 ^ 63 - 2 ^ 63) 0); [lia |].
      simpl. by replace (m * 2 + 2 ^ 63 - 2 ^ 63) with (m * 2) by lia. }
  assert (Hs : ∀ c, ((c <? 0) || (2 ^ 48 - 104 <? 0 * c)) = (c <? 0)).
  { intros c. rewrite Z.mul_0_l. by rewrite orb_false_r. }
  destruct (Z.leb_spec (MaxPages o) 0); cbn [MaxPages set_MaxPages Concurrency].
  - rewrite Hw, Hs by lia.
    destruct (Z.ltb_spec (2 ^ 48 - 104) (24 * (1 * 2))); [lia |].
    destruct (Z.ltb_spec (Concurrency o) 0); split; split; try done;
      try (intros _; split; [done | lia]); intros [_ ?]; lia.
  - rewrite Hw, Hs by lia.
    destruct (Z.ltb_spec (2 ^ 48 - 104) (24 * (MaxPages o * 2))).
    + split; split; try done. intros _. split; [done | lia].
    + destruct (Z.ltb_spec (Concurrency o) 0); split; split; try done;
        try (intros _; split; [done | lia]); intros [_ ?]; lia.
Qed.

(** X14.  For a page limit that is an int, [SpiderWebsite] returns an
    error exactly when the seed does not parse, which is checked first;
    and when the seed parses it panics if the page limit is 2^62 or more,
    as twice the limit, the capacity asked for the queue, is then negative,
    and if [Concurrency] is negative. *)
Theorem X14_start_panics (L : GoLib) (targetURL : string)
    (opts : option SpiderOptions) :
  is_int (MaxPages (default DefaultSpiderOptions opts)) →
  (SpiderWebsite_start targetURL opts = StartError
   ↔ url_Parse targetURL = None)
  ∧ (is_Some (url_Parse targetURL) →
     2 ^ 62 <= MaxPages (default DefaultSpiderOptions opts)
     ∨ Concurrency (default DefaultSpiderOptions opts) < 0 →
     SpiderWebsite_start targetURL opts = StartPanic).
Proof.
  intros Hint. destruct (start_panic_iff L targetURL opts Hint) as [Hp He].
  split; [exact He |]. intros Hs Hc. apply Hp. split; [done |].
  unfold maxAlloc, hchanSize, sizeof_urlJob. lia.
Qed.

Lemma X14_start_panics_witness :
  is_int (2 ^ 62)
  ∧ @SpiderWebsite_start RefLib.lib "https://a.test/"
      (Some (mkSpiderOptions (2 ^ 62) 2 true 0 2 0)) = StartPanic
  ∧ @SpiderWebsite_start RefLib.lib "https://a.test/"
      (Some (mkSpiderOptions 10 2 true 0 (-1) 0)) = StartPanic.
Proof.
  assert (H1 : is_int (2 ^ 62)) by (split; by vm_compute).
  assert (H2 : is_int 10) by (split; by vm_compute).
  split; [exact H1 |]. split.
  - apply (X14_start_panics RefLib.lib "https://a.test/"
             (Some (mkSpiderOptions (2 ^ 62) 2 true 0 2 0)) H1);
      [by eexists | left; reflexivity].
  - apply (X14_start_panics RefLib.lib "https://a.test/"
             (Some (mkSpiderOptions 10 2 true 0 (-1) 0)) H2);
      [by eexists | right; reflexivity].
Defined.

(** ** [SpiderWebsite]: the semaphore and the wait group *)

Section CrawlTokens.
Context `{GoLib}.

Ltac tally Hi p :=
  match type of Hi with
  | workers _ !! _ = Some ?w =>
      pose proof (sum_list_with_insert holdsToken _ _ _ (set_wpc p w) Hi);
      pose proof (sum_list_with_insert isRunning _ _ _ (set_wpc p w) Hi);
      pose proof (sum_list_with_insert hasFetched _ _ _ (set_wpc p w) Hi);
      pose proof (sum_list_with_insert fetching _ _ _ (set_wpc p w) Hi);
      pose proof (sum_list_with_lookup holdsToken _ _ _ Hi);
      pose proof (sum_list_with_lookup isRunning _ _ _ Hi)
  end.


Lemma step_Tokens (s s' : State) (e : Event) :
  Tokens s → step s e = Some s' → Tokens s'.
Proof.
  intros [Hsem Hroom Hcap Hwg Hret] Hs.
  destruct e; step_cases Hs; simpl in *; try congruence.
  all: constructor; simpl; try done.
  all: repeat match goal with
              | E : pc _ = _ |- _ => rewrite E in *
              end; simpl in *.
  all: try match goal with
           | Hi : workers _ !! _ = Some _ |- context [set_wpc ?p _] =>
               tally Hi p
           end.
  all: unfold holdsToken, isRunning, chan_full in *; simpl in *.
  all: repeat match goal with
              | E : wpc ?w = _ |- _ => rewrite E in *
              end.
  all: try match goal with
           | E : buf (semaphore _) = _ |- _ => rewrite E in *
           end; simpl in *.
  all: rewrite ?length_app, ?sum_list_with_app; simpl; try done; try lia.
  all: intros Hp; specialize (Hret Hp); lia.
Qed.

Lemma start_Tokens (targetURL : string) (opts : option SpiderOptions)
    (s0 : State) :
  SpiderWebsite_start targetURL opts = Started s0 → Tokens s0.
Proof.
  intros (_ & Ho & _ & _ & _ & Hsem & _ & Hwg & Hw & Hp & _ & _ & Hc)%start_fields.
  constructor; rewrite ?Ho, ?Hsem, ?Hwg, ?Hw, ?Hp; simpl; try done; lia.
Qed.

Lemma run_Tokens (targetURL : string) (opts : option SpiderOptions)
    (s0 s : State) (t : list Event) :
  SpiderWebsite_start targetURL opts = Started s0 →
  run s0 t = Some s → Tokens s.
Proof.
  intros Hst Hr. eapply (run_invariant Tokens); [| | exact Hr].
  - intros ? ? ? ? ?. by eapply step_Tokens.
  - by eapply start_Tokens.
Qed.

Lemma fetching_le_holdsToken (ws : list Worker) :
  (sum_list_with fetching ws <= sum_list_with holdsToken ws)%nat.
Proof.
  induction ws as [|w ws IH]; simpl; [lia |].
  unfold fetching at 1, holdsToken at 1. destruct (wpc w); lia.
Qed.

(** When the wait group is at zero, every goroutine has exited. *)
Lemma Tokens_exited (s : State) (i : nat) (w : Worker) :
  Tokens s → wg s = 0%nat → workers s !! i = Some w → wpc w = WExited.
Proof.
  intros HT Hwg Hi. rewrite (tok_wg _ HT) in Hwg.
  pose proof (sum_list_with_lookup isRunning _ _ _ Hi) as Hle.
  unfold isRunning at 1 in Hle. destruct (wpc w); (done || lia).
Qed.

Lemma returned_stuck (s : State) (e : Event) :
  Tokens s → pc s = SReturned → step s e = None.
Proof.
  intros HT Hpc.
  assert (Hex : ∀ i w, workers s !! i = Some w → wpc w = WExited).
  { intros i w. apply Tokens_exited; [done |]. by apply (tok_returned _ HT). }
  destruct e; simpl; unfold recv, acquire, timeout, join, fetch, extract,
    send, defer; rewrite ?Hpc; try done;
    (destruct (workers s !! i) as [w|] eqn:Hi; [| done]);
    by rewrite (Hex _ _ Hi).
Qed.

End CrawlTokens.

(** X15.  In every state of a crawl at most [Concurrency] goroutines have
    been started and have not yet given their place in the semaphore back,
    so at most [Concurrency] fetches go on at a time; the semaphore holds
    one token for each of these goroutines. *)
Theorem X15_concurrency_bounded (L : GoLib) (targetURL : string)
    (opts : option SpiderOptions) (s0 s : State) (t : list Event) :
  SpiderWebsite_start targetURL opts = Started s0 →
  run s0 t = Some s →
  Z.of_nat (sum_list_with holdsToken (workers s))
    <= Concurrency (effectiveOptions opts)
  ∧ Z.of_nat (sum_list_with fetching (workers s))
      <= Concurrency (effectiveOptions opts)
  ∧ length (buf (semaphore s)) = sum_list_with holdsToken (workers s).
Proof.
  intros Hst Hr. pose proof (run_Tokens _ _ _ _ _ Hst Hr) as HT.
  pose proof (run_options _ _ _ Hr) as [Ho _].
  apply start_fields in Hst as (_ & Ho0 & _).
  pose proof (tok_room _ HT) as Hroom.
  rewrite (tok_cap _ HT), Ho, Ho0, (tok_sem _ HT) in Hroom.
  pose proof (fetching_le_holdsToken (workers s)).
  split_and!; [lia | lia | apply (tok_sem _ HT)].
Qed.

Lemma X15_concurrency_bounded_witness :
  @SpiderWebsite_start RefLib.lib "https://a.test/" (Some demoOptions)
  = Started demoState0
  ∧ @run RefLib.lib demoState0 (take 11 demoTrace)
    = Some (default demoState0 (@run RefLib.lib demoState0
                                  (take 11 demoTrace)))
  ∧ Z.of_nat (sum_list_with fetching
                (workers (default demoState0
                            (@run RefLib.lib demoState0
                               (take 11 demoTrace))))) <= 2.
Proof.
  assert (Hr : @run RefLib.lib demoState0 (take 11 demoTrace)
               = Some (default demoState0 (@run RefLib.lib demoState0
                                             (take 11 demoTrace))))
    by (by vm_compute).
  split; [exact demo_start |]. split; [exact Hr |].
  exact (proj1 (proj2 (X15_concurrency_bounded RefLib.lib "https://a.test/"
                         (Some demoOptions) demoState0 _ _ demo_start Hr))).
Defined.

(** X16.  When [SpiderWebsite] has returned, every goroutine it started has
    run to its end, the semaphore is empty, and no step of the crawl is
    left: the result is not written again. *)
Theorem X16_returned_quiescent (L : GoLib) (targetURL : string)
    (opts : option SpiderOptions) (s0 s : State) (t : list Event) :
  SpiderWebsite_start targetURL opts = Started s0 →
  run s0 t = Some s →
  pc s = SReturned →
  (∀ i w, workers s !! i = Some w → wpc w = WExited)
  ∧ buf (semaphore s) = []
  ∧ (∀ e, step s e = None)
  ∧ (∀ t' s', run s t' = Some s' → s' = s).
Proof.
  intros Hst Hr Hpc. pose proof (run_Tokens _ _ _ _ _ Hst Hr) as HT.
  assert (Hex : ∀ i w, workers s !! i = Some w → wpc w = WExited).
  { intros i w. apply Tokens_exited; [done |]. by apply (tok_returned _ HT). }
  split_and!; [done | | intros e; by apply returned_stuck |].
  - apply length_zero_iff_nil. rewrite (tok_sem _ HT).
    clear -Hex. induction (workers s) as [|w ws IH]; [done |]. simpl.
    rewrite IH by (intros i w' Hi; by apply (Hex (S i))).
    unfold holdsToken. by rewrite (Hex 0%nat w).
  - intros [|e t'] s'; simpl; [congruence |].
    by rewrite returned_stuck.
Qed.

Lemma X16_returned_quiescent_witness :
  @SpiderWebsite_start RefLib.lib "https://a.test/" (Some demoOptions)
  = Started demoState0
  ∧ @run RefLib.lib demoState0 demoTrace = Some demoFinal
  ∧ pc demoFinal = SReturned
  ∧ buf (semaphore demoFinal) = []
  ∧ @step RefLib.lib demoFinal (EvDefer 1) = None.
Proof.
  assert (Hpc : pc demoFinal = SReturned) by reflexivity.
  split; [exact demo_start |]. split; [exact demo_run |].
  split; [exact Hpc |].
  destruct (X16_returned_quiescent RefLib.lib "https://a.test/"
              (Some demoOptions) demoState0 demoFinal demoTrace
              demo_start demo_run Hpc) as (_ & H2 & H3 & _).
  split; [exact H2 | exact (H3 (EvDefer 1))].
Defined.

(** ** [SpiderWebsite]: the counters of the result *)

Section CrawlCount.
Context `{GoLib}.

Lemma hasFetched_le_length (ws : list Worker) :
  (sum_list_with hasFetched ws <= length ws)%nat.
Proof.
  apply sum_list_with_le_length. intros w. unfold hasFetched.
  destruct (wpc w); lia.
Qed.

Lemma hasFetched_room (ws : list Worker) (i : nat) (w : Worker) :
  ws !! i = Some w → wpc w = WFetch →
  (sum_list_with hasFetched ws + 1 <= length ws)%nat.
Proof.
  intros Hi Hw.
  pose proof (sum_list_with_insert hasFetched _ _ _ (set_wpc WExited w) Hi)
    as Hins.
  pose proof (hasFetched_le_length (<[i := set_wpc WExited w]> ws)) as Hle.
  rewrite length_insert in Hle.
  assert (hasFetched w = 0%nat) by (unfold hasFetched; by rewrite Hw).
  assert (hasFetched (set_wpc WExited w) = 1%nat) by done.
  lia.
Qed.

Lemma fetched_insert_mono (P Q : string → Prop) (ws : list Worker) (i : nat)
    (w : Worker) (p : WorkerPC) :
  ws !! i = Some w →
  (∀ u, P u → Q u) →
  (fetched (set_wpc p w) → Q (currentURL w)) →
  (∀ j w', ws !! j = Some w' → fetched w' → P (currentURL w')) →
  ∀ j w', <[i := set_wpc p w]> ws !! j = Some w' → fetched w' →
    Q (currentURL w').
Proof.
  intros Hi Hmono Hp Hall j w' Hj Hf.
  destruct (decide (i = j)) as [<-|Hne].
  - rewrite list_lookup_insert_eq in Hj by (by eapply lookup_lt_Some).
    injection Hj as <-. by apply Hp.
  - rewrite list_lookup_insert_ne in Hj by done. eauto.
Qed.

Lemma fetched_insert_grow (ws : list Worker) (i : nat) (w : Worker)
    (p : WorkerPC) (c c' : list string) (f f' : gset string) :
  ws !! i = Some w →
  (∀ u, u ∈ c → u ∈ c') →
  (∀ u, u ∈ f → u ∈ f') →
  (fetched (set_wpc p w) → currentURL w ∈ c' ∨ currentURL w ∈ f') →
  (∀ j w', ws !! j = Some w' → fetched w' →
     currentURL w' ∈ c ∨ currentURL w' ∈ f) →
  ∀ j w', <[i := set_wpc p w]> ws !! j = Some w' → fetched w' →
    currentURL w' ∈ c' ∨ currentURL w' ∈ f'.
Proof.
  intros Hi Hc Hf Hp Hall.
  apply (fetched_insert_mono (λ u, u ∈ c ∨ u ∈ f) (λ u, u ∈ c' ∨ u ∈ f'));
    [done | | done | done].
  intros u [?|?]; auto.
Qed.

Lemma step_Counted (s s' : State) (e : Event) :
  Safe s → Live s → Counted s → step s e = Some s' → Counted s'.
Proof.
  intros HS HL [Hsu Hsum Hfe] Hs.
  pose proof (safe_total _ HS) as Hbound.
  pose proof (live_total _ HL) as Htot.
  pose proof (live_max _ HL) as Hmax.
  pose proof (hasFetched_le_length (workers s)) as Hlen.
  assert (Hfresh : ∀ i o x, e = EvFetch i o → workers s !! i = Some x →
            FailedPages (result s) !! currentURL x = None).
  { intros i o x -> Hi. destruct (fetch_once _ _ _ _ HS Hs) as (w & Hw & Hn & _).
    by simplify_eq. }
  unfold int_max, int_min in *.
  destruct e; step_cases Hs; simpl in *; try congruence.
  all: try match goal with
           | Hi : workers _ !! ?i = Some ?x |- _ =>
               specialize (Hfresh i _ x eq_refl Hi)
           end.
  all: constructor; simpl; try done.
  all: try match goal with
           | Hi : workers _ !! _ = Some ?w, E : wpc ?w = WFetch |- _ =>
               pose proof (hasFetched_room _ _ _ Hi E)
           end.
  all: try match goal with
           | Hi : workers ?st !! ?i = Some ?w |- context [set_wpc ?p _] =>
               pose proof (sum_list_with_insert hasFetched _ _ _
                             (set_wpc p w) Hi);
               pose proof (hasFetched_le_length
                             (<[i := set_wpc p w]> (workers st)))
           end.
  all: try (eapply fetched_insert_grow; [done | | | | exact Hfe];
            [ intros ?; rewrite ?elem_of_app; tauto
            | intros ?; rewrite ?dom_insert_L, ?elem_of_union; tauto
            | intros Hf; simpl;
              rewrite ?elem_of_app, ?dom_insert_L, ?elem_of_union,
                ?list_elem_of_singleton, ?elem_of_singleton;
              first [ tauto
                    | eapply Hfe; [done |]; unfold fetched; congruence ] ]).
  all: try (intros j w' [Hj|[_ Hj]]%lookup_app_Some; [by eapply Hfe |];
            apply list_lookup_singleton_Some in Hj as [_ <-];
            by unfold fetched).
  all: unfold hasFetched in *; simpl in *.
  all: repeat match goal with
              | E : wpc ?w = _ |- _ => rewrite E in *
              end.
  all: rewrite ?length_app, ?sum_list_with_app, ?length_insert,
         ?dom_insert_L in *; simpl.
  all: try (rewrite size_union by
              (apply disjoint_singleton_l; by apply not_elem_of_dom);
            rewrite size_singleton).
  all: rewrite ?Hsu.
  all: rewrite ?wrap_id by (unfold is_int, int_min, int_max; lia).
  all: try lia.
Qed.

Lemma start_Counted (targetURL : string) (opts : option SpiderOptions)
    (s0 : State) :
  SpiderWebsite_start targetURL opts = Started s0 → Counted s0.
Proof.
  intros (_ & _ & Hr & _ & _ & _ & _ & _ & Hw & _)%start_fields.
  constructor; rewrite ?Hr, ?Hw; by simpl.
Qed.

Lemma run_Counted (targetURL : string) (opts : option SpiderOptions)
    (s0 s : State) (t : list Event) :
  wellFormed (effectiveOptions opts) →
  SpiderWebsite_start targetURL opts = Started s0 →
  run s0 t = Some s → Safe s ∧ Live s ∧ Counted s.
Proof.
  intros Hwf Hst Hr.
  eapply (run_invariant (λ x, Safe x ∧ Live x ∧ Counted x)); [| | exact Hr].
  - intros ? ? ? (? & ? & ?) ?.
    split_and!; [by eapply step_Safe | by eapply step_Live
                | by eapply step_Counted].
  - split_and!; [by eapply start_Safe | by eapply start_Live
                | by eapply start_Counted].
Qed.

End CrawlCount.

(** X17.  With a page limit that is an int, at least one worker at a time
    and a depth limit that is not negative, in every state of a crawl
    [SuccessfulPages] is the length of [CrawledURLs], [TotalPages] is the
    number of URLs marked as visited, and the successful and the failed
    pages together are at most [TotalPages]; when the call has returned
    they are exactly [TotalPages]: every page counted was crawled or is
    among the failed pages. *)
Theorem X17_page_accounting (L : GoLib) (targetURL : string)
    (opts : option SpiderOptions) (s0 s : State) (t : list Event) :
  wellFormed (effectiveOptions opts) →
  SpiderWebsite_start targetURL opts = Started s0 →
  run s0 t = Some s →
  SuccessfulPages (result s) = Z.of_nat (length (CrawledURLs (result s)))
  ∧ TotalPages (result s) = Z.of_nat (size (visitedURLs s))
  ∧ SuccessfulPages (result s)
    + Z.of_nat (size (dom (FailedPages (result s))))
    <= TotalPages (result s)
  ∧ (pc s = SReturned →
     SuccessfulPages (result s)
     + Z.of_nat (size (dom (FailedPages (result s))))
     = TotalPages (result s)).
Proof.
  intros Hwf Hst Hr.
  destruct (run_Counted _ _ _ _ _ Hwf Hst Hr) as (HS & HL & [Hsu Hsum Hfe]).
  pose proof (run_Tokens _ _ _ _ _ Hst Hr) as HT.
  pose proof (live_total _ HL) as Htot.
  pose proof (hasFetched_le_length (workers s)) as Hlen.
  split_and!; [done | | lia |].
  - rewrite Htot. f_equal.
    assert (Hv : visitedURLs s = list_to_set (url <$> admittedJobs s)).
    { apply set_eq. intros u. rewrite elem_of_list_to_set.
      apply (safe_visited _ HS). }
    rewrite Hv, size_list_to_set by apply (safe_nodup _ HS).
    unfold admittedJobs. by rewrite length_fmap, length_app, length_fmap.
  - intros Hpc. rewrite Hpc in Htot. simpl in Htot.
    assert (Hall : sum_list_with hasFetched (workers s) = length (workers s)).
    { assert (Hex : ∀ i w, workers s !! i = Some w → wpc w = WExited).
      { intros i w. apply Tokens_exited; [done |].
        by apply (tok_returned _ HT). }
      clear -Hex. induction (workers s) as [|w ws IH]; [done |]. simpl.
      rewrite IH by (intros i w' Hi; by apply (Hex (S i))).
      unfold hasFetched. by rewrite (Hex 0%nat w). }
    lia.
Qed.

Lemma X17_page_accounting_witness :
  wellFormed (effectiveOptions (Some demoOptions))
  ∧ @SpiderWebsite_start RefLib.lib "https://a.test/" (Some demoOptions)
    = Started demoState0
  ∧ @run RefLib.lib demoState0 demoTrace = Some demoFinal
  ∧ pc demoFinal = SReturned
  ∧ SuccessfulPages (result demoFinal)
    + Z.of_nat (size (dom (FailedPages (result demoFinal))))
    = TotalPages (result demoFinal).
Proof.
  assert (Hpc : pc demoFinal = SReturned) by reflexivity.
  split; [exact demo_wellFormed |]. split; [exact demo_start |].
  split; [exact demo_run |]. split; [exact Hpc |].
  destruct (X17_page_accounting RefLib.lib "https://a.test/"
              (Some demoOptions) demoState0 demoFinal demoTrace
              demo_wellFormed demo_start demo_run) as (_ & _ & _ & H4).
  exact (H4 Hpc).
Defined.

(** ** [SpiderWebsite]: what is crawled *)

Section CrawlScope.
Context `{GoLib}.

Lemma toSend_insert (P : string → Prop) (ws : list Worker) (i : nat)
    (w : Worker) (p : WorkerPC) :
  ws !! i = Some w →
  (∀ c, c ∈ toSend (set_wpc p w) → P c) →
  (∀ j w' c, ws !! j = Some w' → c ∈ toSend w' → P c) →
  ∀ j w' c, <[i := set_wpc p w]> ws !! j = Some w' → c ∈ toSend w' → P c.
Proof.
  intros Hi Hp Hall j w' c Hj Hc.
  destruct (decide (i = j)) as [<-|Hne].
  - rewrite list_lookup_insert_eq in Hj by (by eapply lookup_lt_Some).
    injection Hj as <-. by apply Hp.
  - rewrite list_lookup_insert_ne in Hj by done. eauto.
Qed.

Lemma step_InScope (seed : string) (s s' : State) (e : Event) :
  InScope seed s → step s e = Some s' → InScope seed s'.
Proof.
  intros [Hq Ha Hsend Hfiles] Hs.
  pose proof (admittedJobs_step _ _ _ Hs) as Hadm.
  pose proof (step_options _ _ _ Hs) as [Ho Hp].
  assert (Hadmits : ∀ job, admits s e = Some job → job ∈ buf (urlJobs s)).
  { unfold admits. intros job. destruct e; try done. rewrite Hs.
    simpl in Hs. unfold recv in Hs.
    destruct (pc s) eqn:Epc; try done.
    destruct (buf (urlJobs s)) as [|j rest] eqn:Eb; [done |].
    repeat case_match; simplify_eq; simpl in *; try congruence.
    intros [= <-]. simplify_eq. apply list_elem_of_here. }
  constructor; rewrite ?Ho, ?Hp, ?Hadm.
  - (* the queue *)
    destruct e; step_cases Hs; simpl in *; try done;
      try (intros j Hj; apply Hq; by apply list_elem_of_further).
    intros j [Hj| ->%list_elem_of_singleton]%elem_of_app; [by apply Hq |].
    right. simpl. eapply Hsend; [done |]. unfold toSend.
    match goal with E : wpc _ = _ |- _ => rewrite E end.
    apply list_elem_of_here.
  - (* the admitted jobs *)
    intros j [Hj|Hj]%elem_of_app; [by apply Ha |].
    destruct (admits s e) as [job|] eqn:E; simpl in Hj.
    + apply list_elem_of_singleton in Hj as ->. by apply Hq, Hadmits.
    + by apply not_elem_of_nil in Hj.
  - (* the links to send *)
    destruct e; step_cases Hs; simpl in *; try done;
      try (apply toSend_insert; [done | | done]; unfold toSend; simpl;
           try (by intros c ?%not_elem_of_nil)).
    + intros j w c [Hj|[_ Hj]]%lookup_app_Some; [by eapply Hsend |].
      apply list_lookup_singleton_Some in Hj as [_ <-].
      by intros ?%not_elem_of_nil.
    + intros j w c [Hj|[_ Hj]]%lookup_app_Some; [by eapply Hsend |].
      apply list_lookup_singleton_Some in Hj as [_ <-].
      by intros ?%not_elem_of_nil.
    + match goal with
      | He : extractLinks _ _ _ _ _ _ |- _ =>
          destruct (extractLinks_scope _ _ _ _ _ _ He) as [Hc _]
      end.
      done.
    + intros c Hc. eapply Hsend; [done |]. unfold toSend.
      match goal with E : wpc _ = _ |- _ => rewrite E end.
      by apply list_elem_of_further.
    + intros c Hc. eapply Hsend; [done |]. unfold toSend.
      match goal with E : wpc _ = _ |- _ => rewrite E end.
      by apply list_elem_of_further.
  - (* the file URLs *)
    destruct e; step_cases Hs; simpl in *; try done.
    intros f [Hf|Hf]%elem_of_app; [by apply Hfiles |].
    match goal with
    | He : extractLinks _ _ _ _ _ _ |- _ =>
        destruct (extractLinks_scope _ _ _ _ _ _ He) as [_ Hc]
    end.
    by apply Hc.
Qed.

Lemma start_InScope (targetURL : string) (opts : option SpiderOptions)
    (s0 : State) :
  SpiderWebsite_start targetURL opts = Started s0 → InScope targetURL s0.
Proof.
  intros (_ & _ & Hr & _ & Hj & _ & _ & _ & Hw & Hp & _)%start_fields.
  constructor; unfold admittedJobs; rewrite ?Hr, ?Hj, ?Hw, ?Hp; simpl.
  - intros j ->%list_elem_of_singleton. by left.
  - by intros j ?%not_elem_of_nil.
  - by intros i w c ?.
  - by intros f ?%not_elem_of_nil.
Qed.

Lemma run_InScope (targetURL : string) (opts : option SpiderOptions)
    (s0 s : State) (t : list Event) :
  SpiderWebsite_start targetURL opts = Started s0 →
  run s0 t = Some s → InScope targetURL s.
Proof.
  intros Hst Hr. eapply (run_invariant (InScope targetURL)); [| | exact Hr].
  - intros ? ? ? ? ?. by eapply step_InScope.
  - by eapply start_InScope.
Qed.

End CrawlScope.

(** X18.  A crawl stays in scope: every URL admitted, every URL crawled or
    failed and every URL in the queue is the seed itself or a crawlable
    link of the classifier, that is, the rendering of a URL that
    [shouldCrawlURL] accepts for the parsed seed and that [isFileURL]
    rejects. *)
Theorem X18_crawl_stays_in_scope (L : GoLib) (targetURL : string)
    (opts : option SpiderOptions) (s0 s : State) (t : list Event) :
  SpiderWebsite_start targetURL opts = Started s0 →
  run s0 t = Some s →
  let seedURL := parsedURL s0 in
  let sub := CrawlSubDomain (effectiveOptions opts) in
  url_Parse targetURL = Some seedURL
  ∧ (∀ j, j ∈ admissions s0 t →
       url j = targetURL ∨ linkOf seedURL sub false (url j))
  ∧ (∀ u, u ∈ CrawledURLs (result s) ∨ u ∈ dom (FailedPages (result s)) →
       u = targetURL ∨ linkOf seedURL sub false u)
  ∧ (∀ j, j ∈ buf (urlJobs s) →
       url j = targetURL ∨ linkOf seedURL sub false (url j)).
Proof.
  intros Hst Hr seedURL sub.
  pose proof (run_InScope _ _ _ _ _ Hst Hr) as [Hq Ha _ _].
  pose proof (run_Safe _ _ _ _ _ Hst Hr) as HS.
  pose proof (run_options _ _ _ Hr) as [Ho Hp].
  rewrite (start_admissions _ _ _ _ _ Hst Hr).
  apply start_fields in Hst as (Hparse & Ho0 & _).
  rewrite Ho, Hp, Ho0 in *.
  assert (Hw : ∀ j w, workers s !! j = Some w →
            currentURL w = targetURL ∨ linkOf seedURL sub false (currentURL w)).
  { intros j w Hj. apply (Ha (workerJob w)). unfold admittedJobs.
    apply elem_of_app. left. apply list_elem_of_fmap_2.
    by eapply list_elem_of_lookup_2. }
  split_and!; [done | done | | done].
  intros u [(j & w & Hj & <- & _)%(safe_crawled _ HS)
           |(j & w & Hj & <- & _)%(safe_failed _ HS)]; eauto.
Qed.

Lemma X18_crawl_stays_in_scope_witness :
  @SpiderWebsite_start RefLib.lib "https://a.test/" (Some demoOptions)
  = Started demoState0
  ∧ @run RefLib.lib demoState0 demoTrace = Some demoFinal
  ∧ "https://a.test/p1" ∈ CrawledURLs (result demoFinal)
  ∧ ("https://a.test/p1" = "https://a.test/"
     ∨ @linkOf RefLib.lib (hostURL "a.test") true false "https://a.test/p1").
Proof.
  assert (Hin : "https://a.test/p1" ∈ CrawledURLs (result demoFinal)).
  { apply (bool_decide_unpack _). by vm_compute. }
  split; [exact demo_start |]. split; [exact demo_run |].
  split; [exact Hin |].
  destruct (X18_crawl_stays_in_scope RefLib.lib "https://a.test/"
              (Some demoOptions) demoState0 demoFinal demoTrace
              demo_start demo_run) as (_ & _ & H3 & _).
  exact (H3 _ (or_introl Hin)).
Defined.

(** X19.  Every URL in [DetectedFileUrls] is a file link of the classifier:
    the rendering of a URL in scope of the seed for which [isFileURL]
    holds. *)
Theorem X19_detected_files_in_scope (L : GoLib) (targetURL : string)
    (opts : option SpiderOptions) (s0 s : State) (t : list Event) :
  SpiderWebsite_start targetURL opts = Started s0 →
  run s0 t = Some s →
  ∀ f, f ∈ DetectedFileUrls (result s) →
       linkOf (parsedURL s0) (CrawlSubDomain (effectiveOptions opts)) true f.
Proof.
  intros Hst Hr.
  pose proof (run_InScope _ _ _ _ _ Hst Hr) as [_ _ _ Hf].
  pose proof (run_options _ _ _ Hr) as [Ho Hp].
  apply start_fields in Hst as (_ & Ho0 & _).
  by rewrite Ho, Hp, Ho0 in *.
Qed.

Lemma X19_detected_files_in_scope_witness :
  @SpiderWebsite_start RefLib.lib "https://a.test/" (Some demoOptions)
  = Started demoState0
  ∧ @run RefLib.lib demoState0 demoTrace = Some demoFinal
  ∧ "https://a.test/doc.pdf" ∈ DetectedFileUrls (result demoFinal)
  ∧ @linkOf RefLib.lib (hostURL "a.test") true true "https://a.test/doc.pdf".
Proof.
  assert (Hin : "https://a.test/doc.pdf"
                ∈ DetectedFileUrls (result demoFinal)).
  { apply (bool_decide_unpack _). by vm_compute. }
  split; [exact demo_start |]. split; [exact demo_run |].
  split; [exact Hin |].
  exact (X19_detected_files_in_scope RefLib.lib "https://a.test/"
           (Some demoOptions) demoState0 demoFinal demoTrace
           demo_start demo_run _ Hin).
Defined.

Section CrawlSeed.
Context `{GoLib}.

Lemma step_SeedFirst (seed : string) (s s' : State) (e : Event) :
  0 <= MaxDepth (options s) → 1 <= MaxPages (options s) →
  SeedFirst seed s → step s e = Some s' → SeedFirst seed s'.
Proof.
  intros Hd Hm Hseed Hs.
  pose proof (admittedJobs_step _ _ _ Hs) as Hadm.
  destruct Hseed as [(Hb & Hw & Hp & Hv & Ht)|Hin].
  - destruct e; simpl in Hs;
      unfold recv, acquire, timeout, join, fetch, extract, send, defer in Hs;
      rewrite ?Hp, ?Hb, ?Hw in Hs; simpl in Hs; try done.
    + rewrite Ht in Hs.
      assert (Hno : (0 >=? MaxPages (options s)) || (0 >? MaxDepth (options s))
                    = false).
      { apply orb_false_iff. split; lia. }
      rewrite Hno in Hs.
      rewrite decide_False in Hs by (rewrite Hv; apply not_elem_of_empty).
      injection Hs as <-. right. unfold admittedJobs. simpl.
      rewrite Hw. simpl. apply list_elem_of_here.
    + rewrite andb_false_r in Hs. injection Hs as <-. by left.
  - right. rewrite Hadm, fmap_app. apply elem_of_app. by left.
Qed.

Lemma start_SeedFirst (targetURL : string) (opts : option SpiderOptions)
    (s0 : State) :
  SpiderWebsite_start targetURL opts = Started s0 → SeedFirst targetURL s0.
Proof.
  intros (_ & _ & Hr & Hv & Hj & _ & _ & _ & Hw & Hp & _)%start_fields.
  left. by rewrite Hr, Hv, Hj, Hw, Hp.
Qed.

Lemma run_SeedFirst (targetURL : string) (opts : option SpiderOptions)
    (s0 s : State) (t : list Event) :
  0 <= MaxDepth (effectiveOptions opts) →
  SpiderWebsite_start targetURL opts = Started s0 →
  run s0 t = Some s → SeedFirst targetURL s.
Proof.
  intros Hd Hst Hr.
  pose proof (effectiveOptions_MaxPages opts) as Hm.
  pose proof (start_fields _ _ _ Hst) as (_ & Ho & _).
  assert (Hinv : options s = options s0 ∧ SeedFirst targetURL s);
    [| by destruct Hinv].
  eapply (run_invariant
            (λ x, options x = options s0 ∧ SeedFirst targetURL x));
    [| | exact Hr].
  - intros x e x' [Hox Hx] Hs.
    pose proof (step_options _ _ _ Hs) as [Ho' _].
    split; [congruence |].
    eapply step_SeedFirst; [| | exact Hx | exact Hs]; rewrite Hox, Ho; done.
  - split; [done |]. by eapply start_SeedFirst.
Qed.

Lemma step_content (s s' : State) (e : Event) :
  step s e = Some s' →
  CrawledURLs (result s')
  = CrawledURLs (result s) ++ (option_list (crawls s e)).*1
  ∧ Content (result s')
    = Content (result s)
      +:+ joinStrings
            ((λ p, pageSection p.1 (removeMarkdownLinks p.2))
               <$> option_list (crawls s e)).
Proof.
  intros Hs.
  destruct e; step_cases Hs; simpl in *;
    repeat match goal with
           | E : workers _ !! _ = Some _ |- _ => rewrite E
           end; simpl;
    rewrite ?app_nil_r, ?append_nil_r; try done.
Qed.

Lemma joinStrings_app (l1 l2 : list string) :
  joinStrings (l1 ++ l2) = joinStrings l1 +:+ joinStrings l2.
Proof.
  induction l1 as [|x l1 IH]; simpl; [done |].
  by rewrite IH, append_assoc.
Qed.

Lemma run_content (s s' : State) (t : list Event) :
  run s t = Some s' →
  CrawledURLs (result s') = CrawledURLs (result s) ++ (crawled s t).*1
  ∧ Content (result s')
    = Content (result s)
      +:+ joinStrings
            ((λ p, pageSection p.1 (removeMarkdownLinks p.2))
               <$> crawled s t).
Proof.
  revert s. induction t as [|e t IH]; intros s; simpl.
  - intros [= <-]. by rewrite app_nil_r, append_nil_r.
  - destruct (step s e) as [s1|] eqn:E; [| done]. intros Hr.
    destruct (IH _ Hr) as [Hc Ht]. destruct (step_content _ _ _ E) as [Hc1 Ht1].
    rewrite Hc, Ht, Hc1, Ht1.
    by rewrite !fmap_app, joinStrings_app, <- !app_assoc, !append_assoc.
Qed.

End CrawlSeed.

(** X20.  With a page limit that is an int, at least one worker at a time
    and a depth limit that is not negative, a call that returns has
    attempted the seed: the seed is among the crawled URLs or among the
    failed pages, and [TotalPages] is at least one. *)
Theorem X20_seed_always_attempted (L : GoLib) (targetURL : string)
    (opts : option SpiderOptions) (s0 s : State) (t : list Event) :
  wellFormed (effectiveOptions opts) →
  SpiderWebsite_start targetURL opts = Started s0 →
  run s0 t = Some s →
  pc s = SReturned →
  (targetURL ∈ CrawledURLs (result s)
   ∨ targetURL ∈ dom (FailedPages (result s)))
  ∧ 1 <= TotalPages (result s).
Proof.
  intros Hwf Hst Hr Hpc.
  destruct (run_Counted _ _ _ _ _ Hwf Hst Hr) as (HS & HL & [_ _ Hfe]).
  pose proof (run_Tokens _ _ _ _ _ Hst Hr) as HT.
  pose proof (run_SeedFirst _ _ _ _ _ (wf_MaxDepth _ Hwf) Hst Hr) as Hseed.
  destruct Hseed as [(_ & _ & ? & _)|Hin]; [congruence |].
  unfold admittedJobs in Hin. rewrite Hpc, app_nil_r in Hin.
  apply list_elem_of_fmap in Hin as (j & -> & Hj).
  apply list_elem_of_fmap in Hj as (w & -> & Hw).
  apply list_elem_of_lookup in Hw as [i Hi]. simpl.
  split.
  - apply (Hfe i w Hi). unfold fetched.
    rewrite (Tokens_exited _ _ _ HT (tok_returned _ HT Hpc) Hi). done.
  - rewrite (live_total _ HL).
    apply lookup_lt_Some in Hi. lia.
Qed.

Lemma X20_seed_always_attempted_witness :
  wellFormed (effectiveOptions (Some demoOptions))
  ∧ @SpiderWebsite_start RefLib.lib "https://a.test/" (Some demoOptions)
    = Started demoState0
  ∧ @run RefLib.lib demoState0 demoErrTrace = Some demoErrFinal
  ∧ pc demoErrFinal = SReturned
  ∧ ("https://a.test/" ∈ CrawledURLs (result demoErrFinal)
     ∨ "https://a.test/" ∈ dom (FailedPages (result demoErrFinal)))
  ∧ 1 <= TotalPages (result demoErrFinal).
Proof.
  assert (Hpc : pc demoErrFinal = SReturned) by reflexivity.
  split; [exact demo_wellFormed |]. split; [exact demo_start |].
  split; [exact demo_err_run |]. split; [exact Hpc |].
  exact (X20_seed_always_attempted RefLib.lib "https://a.test/"
           (Some demoOptions) demoState0 demoErrFinal demoErrTrace
           demo_wellFormed demo_start demo_err_run Hpc).
Defined.

(** X21.  [Content] is made of one section for each page crawled with
    success, in the order of [CrawledURLs], which is the order in which the
    fetches ended: two line feeds, the heading with the URL, two line
    feeds, and the text of the page after [removeMarkdownLinks]. *)
Theorem X21_content_is_sections (L : GoLib) (targetURL : string)
    (opts : option SpiderOptions) (s0 s : State) (t : list Event) :
  SpiderWebsite_start targetURL opts = Started s0 →
  run s0 t = Some s →
  CrawledURLs (result s) = (crawled s0 t).*1
  ∧ Content (result s)
    = joinStrings
        ((λ p, pageSection p.1 (removeMarkdownLinks p.2)) <$> crawled s0 t).
Proof.
  intros (_ & _ & Hr0 & _)%start_fields Hr.
  destruct (run_content _ _ _ Hr) as [Hc Ht].
  by rewrite Hc, Ht, Hr0.
Qed.

Lemma X21_content_is_sections_witness :
  @SpiderWebsite_start RefLib.lib "https://a.test/" (Some demoOptions)
  = Started demoState0
  ∧ @run RefLib.lib demoState0 demoTrace = Some demoFinal
  ∧ @crawled RefLib.lib demoState0 demoTrace
    = [("https://a.test/", "seed"); ("https://a.test/p1", "p1")]
  ∧ Content (result demoFinal)
    = pageSection "https://a.test/" "seed"
        +:+ pageSection "https://a.test/p1" "p1".
Proof.
  assert (Hc : @crawled RefLib.lib demoState0 demoTrace
               = [("https://a.test/", "seed"); ("https://a.test/p1", "p1")])
    by (by vm_compute).
  split; [exact demo_start |]. split; [exact demo_run |].
  split; [exact Hc |].
  etrans; [exact (proj2 (X21_content_is_sections RefLib.lib "https://a.test/"
                           (Some demoOptions) demoState0 demoFinal demoTrace
                           demo_start demo_run)) |].
  rewrite Hc. reflexivity.
Defined.

(** ** [SpiderWebsite]: the queue and the end of the loop *)

Section CrawlQueue.
Context `{GoLib}.

Lemma step_QueueFits (s s' : State) (e : Event) :
  QueueFits s → step s e = Some s' →
  QueueFits s' ∧ cap (urlJobs s') = cap (urlJobs s).
Proof.
  unfold QueueFits. intros Hq Hs.
  destruct e; step_cases Hs; simpl in *; try done;
    unfold chan_full in *; rewrite ?length_app; simpl; try lia.
Qed.

Lemma isActive_insert (ws : list Worker) (i : nat) (w : Worker)
    (p : WorkerPC) :
  ws !! i = Some w → isActive (set_wpc p w) = 0%nat →
  (∀ j w', ws !! j = Some w' → isActive w' = 0%nat) →
  ∀ j w', <[i := set_wpc p w]> ws !! j = Some w' → isActive w' = 0%nat.
Proof.
  intros Hi Hp Hall j w' Hj.
  destruct (decide (i = j)) as [<-|Hne].
  - rewrite list_lookup_insert_eq in Hj by (by eapply lookup_lt_Some).
    by injection Hj as <-.
  - rewrite list_lookup_insert_ne in Hj by done. eauto.
Qed.

Lemma sum_list_with_zero {A} (f : A → nat) (l : list A) (i : nat) (x : A) :
  sum_list_with f l = 0%nat → l !! i = Some x → f x = 0%nat.
Proof.
  intros Hz Hi. pose proof (sum_list_with_lookup f _ _ _ Hi). lia.
Qed.

Lemma step_Drained (s s' : State) (e : Event) :
  Safe s → Live s → Drained s → step s e = Some s' → Drained s'.
Proof.
  intros HS HL Hd Hs. unfold Drained in *.
  pose proof (live_active _ HL) as Hact.
  destruct e; step_cases Hs; simpl in *; try (intros [?|?]; congruence).
  all: repeat match goal with
              | Hb : (_ && _) = true |- _ =>
                  apply andb_true_iff in Hb as [? ?]
              | Hb : (_ =? _) = true |- _ => apply Z.eqb_eq in Hb
              | Hb : (_ >=? _) = true |- _ => apply Z.geb_le in Hb
              end.
  all: try (intros _; left; lia).
  all: try (intros _; right; split;
            [ by destruct (buf (urlJobs s))
            | intros j w' Hj; eapply sum_list_with_zero; [| exact Hj]; lia ]).
  all: intros Hpc; destruct Hd as [?|[Hb Hall]];
         [first [exact Hpc | by left | by right] | by left | right].
  all: try match goal with
           | Hi : workers _ !! _ = Some ?w |- _ =>
               pose proof (Hall _ _ Hi) as Hw; unfold isActive in Hw;
               match goal with
               | E : wpc w = _ |- _ => rewrite E in Hw
               end; try discriminate Hw
           end.
  all: try (split; [done |]; apply isActive_insert; done).
  all: try done.
Qed.

Lemma start_Drained (targetURL : string) (opts : option SpiderOptions)
    (s0 : State) :
  SpiderWebsite_start targetURL opts = Started s0 → Drained s0.
Proof.
  intros (_ & _ & _ & _ & _ & _ & _ & _ & _ & Hp & _)%start_fields.
  unfold Drained. rewrite Hp. by intros [?|?].
Qed.

End CrawlQueue.

(** X22.  For a page limit that is an int, the queue has room for twice
    the page limit and never holds more; a link offered to a full queue is
    dropped, the queue staying as it is. *)
Theorem X22_queue_bounded (L : GoLib) (targetURL : string)
    (opts : option SpiderOptions) (s0 s : State) (t : list Event) :
  is_int (MaxPages (default DefaultSpiderOptions opts)) →
  SpiderWebsite_start targetURL opts = Started s0 →
  run s0 t = Some s →
  cap (urlJobs s) = 2 * MaxPages (effectiveOptions opts)
  ∧ Z.of_nat (length (buf (urlJobs s))) <= 2 * MaxPages (effectiveOptions opts)
  ∧ (∀ i s', chan_full (urlJobs s) = true →
             step s (EvSend i) = Some s' → urlJobs s' = urlJobs s).
Proof.
  intros Hint Hst Hr.
  pose proof (effectiveOptions_MaxPages opts) as Hm.
  assert (Hmax : MaxPages (effectiveOptions opts) <= int_max).
  { clear Hm. unfold effectiveOptions, is_int, int_max in *.
    destruct opts as [o|]; simpl in *.
    - destruct (MaxPages o <=? 0); simpl; lia.
    - lia. }
  apply start_fields in Hst as (_ & _ & _ & _ & Hj & _ & _ & _ & _ & _ & _ & Hc & _).
  destruct (wrap_double _ (conj Hm Hmax) Hc) as [Hw _].
  assert (Hinv : QueueFits s ∧ cap (urlJobs s) = cap (urlJobs s0)).
  { eapply (run_invariant
              (λ x, QueueFits x ∧ cap (urlJobs x) = cap (urlJobs s0)));
      [| | exact Hr].
    - intros x e x' [Hq Hcap] Hs.
      destruct (step_QueueFits _ _ _ Hq Hs) as [? Hcap']. split; congruence.
    - split; [| done]. unfold QueueFits. rewrite Hj. simpl. lia. }
  destruct Hinv as [Hq Hcap]. unfold QueueFits in Hq.
  rewrite Hcap, Hj in *. simpl in *.
  split_and!; [lia | lia |].
  intros i s' Hfull Hs. simpl in Hs. unfold send in Hs.
  repeat case_match; simplify_eq; done.
Qed.

Lemma X22_queue_bounded_witness :
  is_int (MaxPages (default DefaultSpiderOptions (Some demoOptions)))
  ∧ @SpiderWebsite_start RefLib.lib "https://a.test/" (Some demoOptions)
    = Started demoState0
  ∧ @run RefLib.lib demoState0 demoTrace = Some demoFinal
  ∧ cap (urlJobs demoFinal) = 2 * 10.
Proof.
  assert (Hi : is_int (MaxPages (default DefaultSpiderOptions
                                   (Some demoOptions))))
    by (split; by vm_compute).
  split; [exact Hi |]. split; [exact demo_start |].
  split; [exact demo_run |].
  exact (proj1 (X22_queue_bounded RefLib.lib "https://a.test/"
                  (Some demoOptions) demoState0 demoFinal demoTrace
                  Hi demo_start demo_run)).
Defined.

(** X23.  With a page limit that is an int, at least one worker at a time
    and a depth limit that is not negative, the call returns only when the
    page limit is reached or the queue is empty: short of the limit no
    link that was queued is left behind. *)
Theorem X23_stops_only_when_done (L : GoLib) (targetURL : string)
    (opts : option SpiderOptions) (s0 s : State) (t : list Event) :
  wellFormed (effectiveOptions opts) →
  SpiderWebsite_start targetURL opts = Started s0 →
  run s0 t = Some s →
  pc s = SReturned →
  TotalPages (result s) = MaxPages (effectiveOptions opts)
  ∨ buf (urlJobs s) = [].
Proof.
  intros Hwf Hst Hr Hpc.
  assert (Hinv : Safe s ∧ Live s ∧ Drained s).
  { eapply (run_invariant (λ x, Safe x ∧ Live x ∧ Drained x));
      [| | exact Hr].
    - intros ? ? ? (? & ? & ?) ?.
      split_and!; [by eapply step_Safe | by eapply step_Live
                  | by eapply step_Drained].
    - split_and!; [by eapply start_Safe | by eapply start_Live
                  | by eapply start_Drained]. }
  destruct Hinv as (HS & HL & Hd).
  pose proof (safe_total _ HS) as Htot.
  pose proof (run_options _ _ _ Hr) as [Ho _].
  apply start_fields in Hst as (_ & Ho0 & _).
  unfold Drained in Hd. rewrite Ho, Ho0 in Htot, Hd.
  destruct Hd as [?|[? _]]; [by right | left; lia | by right].
Qed.

Lemma X23_stops_only_when_done_witness :
  wellFormed (effectiveOptions (Some demoOptions))
  ∧ @SpiderWebsite_start RefLib.lib "https://a.test/" (Some demoOptions)
    = Started demoState0
  ∧ @run RefLib.lib demoState0 demoTrace = Some demoFinal
  ∧ pc demoFinal = SReturned
  ∧ (TotalPages (result demoFinal) = 10 ∨ buf (urlJobs demoFinal) = []).
Proof.
  assert (Hpc : pc demoFinal = SReturned) by reflexivity.
  split; [exact demo_wellFormed |]. split; [exact demo_start |].
  split; [exact demo_run |]. split; [exact Hpc |].
  exact (X23_stops_only_when_done RefLib.lib "https://a.test/"
           (Some demoOptions) demoState0 demoFinal demoTrace
           demo_wellFormed demo_start demo_run Hpc).
Defined.

(** ** [SpiderWebsite]: configurations at the edge *)

(** X24.  With [Concurrency] zero and a depth limit that is not negative
    the call never returns: the seed is admitted and the scheduler waits
    for a place in a semaphore that has none.  No run reaches the return,
    and no result is returned. *)
Theorem X24_zero_concurrency_never_returns (L : GoLib) (targetURL : string)
    (opts : option SpiderOptions) :
  Concurrency (effectiveOptions opts) = 0 →
  0 <= MaxDepth (effectiveOptions opts) →
  (∀ s0 s t, SpiderWebsite_start targetURL opts = Started s0 →
             run s0 t = Some s → pc s ≠ SReturned)
  ∧ ∀ r, ¬ Returns targetURL opts (Some r).
Proof.
  intros Hc Hd.
  assert (Hblock : ∀ s0 s t, SpiderWebsite_start targetURL opts = Started s0 →
                             run s0 t = Some s → pc s ≠ SReturned).
  { intros s0 s t. by apply zero_concurrency_blocks. }
  split; [exact Hblock |].
  intros r HR. inversion HR as [|s0 s t Hst Hr Hpc Heq]; subst.
  by apply (Hblock _ _ _ Hst Hr).
Qed.

Lemma X24_zero_concurrency_never_returns_witness :
  Concurrency (effectiveOptions (Some demoNoWorkerOptions)) = 0
  ∧ 0 <= MaxDepth (effectiveOptions (Some demoNoWorkerOptions))
  ∧ @SpiderWebsite_start RefLib.lib "https://a.test/"
      (Some demoNoWorkerOptions)
    = Started (demoStateWith demoNoWorkerOptions)
  ∧ ¬ @Returns RefLib.lib "https://a.test/" (Some demoNoWorkerOptions)
        (Some emptyResult).
Proof.
  assert (Hc : Concurrency (effectiveOptions (Some demoNoWorkerOptions)) = 0)
    by reflexivity.
  assert (Hd : 0 <= MaxDepth (effectiveOptions (Some demoNoWorkerOptions)))
    by (by vm_compute).
  split; [exact Hc |]. split; [exact Hd |]. split; [reflexivity |].
  exact (proj2 (X24_zero_concurrency_never_returns RefLib.lib
                  "https://a.test/" (Some demoNoWorkerOptions) Hc Hd)
           emptyResult).
Defined.

Section CrawlNoDepth.
Context `{GoLib}.

Lemma negative_depth_result (targetURL : string)
    (opts : option SpiderOptions) (s0 s : State) (t : list Event) :
  MaxDepth (effectiveOptions opts) < 0 →
  SpiderWebsite_start targetURL opts = Started s0 →
  run s0 t = Some s →
  workers s = []
  ∧ set_ProcessingTime 0 (result s) = emptyResult.
Proof.
  intros Hd Hst Hr.
  apply start_fields in Hst
    as (_ & Ho & Hres & _ & Hj & _ & _ & _ & Hw & Hp & _).
  assert (workers s = [] ∧ set_ProcessingTime 0 (result s) = emptyResult
          ∧ pendingJob (pc s) = []
          ∧ options s = effectiveOptions opts
          ∧ Forall (λ j, depth j = 0) (buf (urlJobs s)))
    as (? & ? & _); [| done].
  eapply (run_invariant
            (λ x, workers x = []
                  ∧ set_ProcessingTime 0 (result x) = emptyResult
                  ∧ pendingJob (pc x) = []
                  ∧ options x = effectiveOptions opts
                  ∧ Forall (λ j, depth j = 0) (buf (urlJobs x))));
    [| | exact Hr].
  - clear -Hd. intros s e s' (Hw & Hf & Hp & Ho & Hz) Hs.
    destruct e; step_cases Hs; simpl in *;
      repeat match goal with E : pc _ = _ |- _ => rewrite E in * end;
      try (rewrite Hw in *; by rewrite lookup_nil in * );
      try done.
    all: try apply Forall_cons in Hz as [Hz Hz'].
    all: try done.
    + exfalso. rewrite Ho in *.
      match goal with
      | Hor : (_ || _) = false |- _ => apply orb_false_iff in Hor as [_ ?]
      end. lia.
  - rewrite Hw, Ho, Hp, Hj, Hres. simpl.
    split_and!; try done. by repeat constructor.
Qed.

End CrawlNoDepth.

(** X25.  With a negative depth limit nothing is crawled, the seed
    included: no goroutine is started, and apart from the processing time
    the result stays the empty result, with [TotalPages] zero and no failed
    page. *)
Theorem X25_negative_depth_crawls_nothing (L : GoLib) (targetURL : string)
    (opts : option SpiderOptions) (s0 s : State) (t : list Event) :
  MaxDepth (effectiveOptions opts) < 0 →
  SpiderWebsite_start targetURL opts = Started s0 →
  run s0 t = Some s →
  workers s = [] ∧ admissions s0 t = []
  ∧ set_ProcessingTime 0 (result s) = emptyResult
  ∧ TotalPages (result s) = 0 ∧ FailedPages (result s) = ∅.
Proof.
  intros Hd Hst Hr.
  destruct (negative_depth_admits_nothing _ _ _ _ _ Hd Hst Hr)
    as (Hw & Hf & Ha).
  destruct (negative_depth_result _ _ _ _ _ Hd Hst Hr) as [_ He].
  split_and!; [done | done | done | | done].
  by apply (f_equal TotalPages) in He.
Qed.

Lemma X25_negative_depth_crawls_nothing_witness :
  MaxDepth (effectiveOptions (Some demoNoDepthOptions)) < 0
  ∧ @SpiderWebsite_start RefLib.lib "https://a.test/"
      (Some demoNoDepthOptions)
    = Started (demoStateWith demoNoDepthOptions)
  ∧ @run RefLib.lib (demoStateWith demoNoDepthOptions)
      [EvRecv; EvTimeout; EvJoin [] 3]
    = Some (default demoState0
              (@run RefLib.lib (demoStateWith demoNoDepthOptions)
                 [EvRecv; EvTimeout; EvJoin [] 3]))
  ∧ pc (default demoState0
          (@run RefLib.lib (demoStateWith demoNoDepthOptions)
             [EvRecv; EvTimeout; EvJoin [] 3])) = SReturned
  ∧ TotalPages
      (result (default demoState0
                 (@run RefLib.lib (demoStateWith demoNoDepthOptions)
                    [EvRecv; EvTimeout; EvJoin [] 3]))) = 0.
Proof.
  assert (Hd : MaxDepth (effectiveOptions (Some demoNoDepthOptions)) < 0)
    by (by vm_compute).
  assert (Hst : @SpiderWebsite_start RefLib.lib "https://a.test/"
                  (Some demoNoDepthOptions)
                = Started (demoStateWith demoNoDepthOptions))
    by reflexivity.
  assert (Hr : @run RefLib.lib (demoStateWith demoNoDepthOptions)
                 [EvRecv; EvTimeout; EvJoin [] 3]
               = Some (default demoState0
                         (@run RefLib.lib (demoStateWith demoNoDepthOptions)
                            [EvRecv; EvTimeout; EvJoin [] 3])))
    by (by vm_compute).
  split; [exact Hd |]. split; [exact Hst |]. split; [exact Hr |].
  split; [reflexivity |].
  destruct (X25_negative_depth_crawls_nothing RefLib.lib "https://a.test/"
              (Some demoNoDepthOptions) _ _ _ Hd Hst Hr)
    as (_ & _ & _ & Ht & _).
  exact Ht.
Defined.

(** X26.  A call with nil options is a call with [DefaultSpiderOptions]:
    at most a hundred pages are counted and at most five goroutines hold a
    place in the semaphore, and from every state of the crawl the call can
    run on to its return, whatever the Fetcher answers. *)
Theorem X26_nil_options_defaults (L : GoLib) (targetURL : string)
    (s0 s : State) (t : list Event) :
  SpiderWebsite_start targetURL None = Started s0 →
  run s0 t = Some s →
  options s = DefaultSpiderOptions
  ∧ SpiderWebsite_start targetURL (Some DefaultSpiderOptions) = Started s0
  ∧ TotalPages (result s) <= 100
  ∧ Z.of_nat (sum_list_with holdsToken (workers s)) <= 5
  ∧ ∀ F : Fetcher,
      ∃ t' s', obeying F s t' ∧ run s t' = Some s' ∧ pc s' = SReturned.
Proof.
  intros Hst Hr.
  assert (Hwf : wellFormed (effectiveOptions None)).
  { constructor; vm_compute; (done || split; discriminate). }
  destruct (run_Live _ _ _ _ _ Hwf Hst Hr) as [HS HL].
  pose proof (run_Tokens _ _ _ _ _ Hst Hr) as HT.
  pose proof (run_options _ _ _ Hr) as [Ho _].
  pose proof (start_fields _ _ _ Hst) as (_ & Ho0 & _).
  assert (Hopt : options s = DefaultSpiderOptions) by (by rewrite Ho, Ho0).
  pose proof (safe_total _ HS) as Htot.
  pose proof (tok_room _ HT) as Hroom.
  rewrite (tok_cap _ HT), (tok_sem _ HT) in Hroom.
  rewrite Hopt in Htot, Hroom. simpl in Htot, Hroom.
  split_and!; [done | exact Hst | lia | lia |].
  intros F. by apply terminates.
Qed.

Lemma X26_nil_options_defaults_witness :
  @SpiderWebsite_start RefLib.lib "https://a.test/" None
  = Started (demoStateWith DefaultSpiderOptions)
  ∧ @run RefLib.lib (demoStateWith DefaultSpiderOptions) [EvRecv; EvAcquire]
    = Some (default demoState0
              (@run RefLib.lib (demoStateWith DefaultSpiderOptions)
                 [EvRecv; EvAcquire]))
  ∧ options (default demoState0
               (@run RefLib.lib (demoStateWith DefaultSpiderOptions)
                  [EvRecv; EvAcquire]))
    = DefaultSpiderOptions.
Proof.
  assert (Hst : @SpiderWebsite_start RefLib.lib "https://a.test/" None
                = Started (demoStateWith DefaultSpiderOptions))
    by reflexivity.
  assert (Hr : @run RefLib.lib (demoStateWith DefaultSpiderOptions)
                 [EvRecv; EvAcquire]
               = Some (default demoState0
                         (@run RefLib.lib (demoStateWith DefaultSpiderOptions)
                            [EvRecv; EvAcquire])))
    by (by vm_compute).
  split; [exact Hst |]. split; [exact Hr |].
  exact (proj1 (X26_nil_options_defaults RefLib.lib "https://a.test/"
                  _ _ _ Hst Hr)).
Defined.

(** ** The package [webcrawl] *)

Lemma countLF_append (a b : string) :
  countLF (a +:+ b) = (countLF a + countLF b)%nat.
Proof.
  induction a as [|x a IH]; [done |]. rewrite append_cons. simpl.
  rewrite IH. lia.
Qed.

Lemma reSpace_LF (c : ascii) : isLF c = true → reSpace c = true.
Proof. unfold isLF. by intros ->%Ascii.eqb_eq. Qed.

(** After the first replacement the only white space left is the space,
    one at a time. *)
Lemma multipleSpaces_ReplaceAllString_chars (inRun : bool) (content : string) :
  Forall (λ c, reSpace c = true → c = " "%char)
    (list_ascii_of_string (multipleSpaces_ReplaceAllString inRun content)).
Proof.
  revert inRun. induction content as [|c rest IH]; intros inRun; simpl.
  - constructor.
  - destruct (reSpace c) eqn:E; [destruct inRun |]; simpl; auto.
    constructor; [congruence | auto].
Qed.

Lemma multipleSpaces_ReplaceAllString_single (inRun : bool) (content a b : string) :
  multipleSpaces_ReplaceAllString inRun content ≠ a +:+ "  " +:+ b.
Proof.
  assert (Hrun : ∀ s b, multipleSpaces_ReplaceAllString true s ≠ String " " b).
  { induction s as [|c rest IH]; intros b'; simpl; [done |].
    destruct (reSpace c) eqn:E; [apply IH |].
    intros [= -> _]. done. }
  revert inRun a. induction content as [|c rest IH]; intros inRun a; simpl.
  - by destruct a.
  - destruct (reSpace c) eqn:E; [destruct inRun |].
    + apply IH.
    + destruct a as [|x a]; rewrite ?append_cons, ?append_nil_l.
      * intros [= Heq]. by apply Hrun in Heq.
      * intros [= _ Heq]. by apply IH in Heq.
    + destruct a as [|x a]; rewrite ?append_cons, ?append_nil_l.
      * intros [= -> _]. done.
      * intros [= _ Heq]. by apply IH in Heq.
Qed.

Lemma countLF_chars (s : string) :
  Forall (λ c, reSpace c = true → c = " "%char) (list_ascii_of_string s) →
  countLF s = 0%nat.
Proof.
  induction s as [|c s IH]; simpl; [done |].
  intros [Hc Hs]%Forall_cons. rewrite IH by done.
  destruct (isLF c) eqn:E; [| done].
  pose proof (Hc (reSpace_LF _ E)) as ->. done.
Qed.

Lemma countLF_infix (s pre post : string) :
  countLF (pre +:+ s +:+ post) = 0%nat → countLF s = 0%nat.
Proof. rewrite !countLF_append. lia. Qed.

(** Without a line feed there is nothing for the second pattern to
    match. *)
Lemma multipleNewlines_ReplaceAllString_id (fuel : nat) (content : string) :
  countLF content = 0%nat → multipleNewlines_ReplaceAllString fuel content = content.
Proof.
  revert content. induction fuel as [|fuel IH]; intros content; [done |].
  destruct content as [|c rest]; [done |]. cbn [countLF multipleNewlines_ReplaceAllString].
  destruct (isLF c); [lia |]. simpl. intros Hc. by rewrite IH.
Qed.

Section WebcrawlFacts.
Context `{GoLib}.

Lemma collapsedText_noLF (selection : goquery.Selection) :
  countLF (Webcrawl.collapsedText selection) = 0%nat.
Proof. apply countLF_chars, multipleSpaces_ReplaceAllString_chars. Qed.

Lemma eachAnchor_ok (baseURLParsed : URL) (n : nat) (links : Webcrawl.Links)
    (s : goquery.Node) :
  linksOk baseURLParsed n links →
  linksOk baseURLParsed (S n) (Webcrawl.eachAnchor baseURLParsed links s).
Proof.
  intros (Hi & He & Ht & Hl).
  assert (Hsame : linksOk baseURLParsed (S n) links).
  { split_and!; [done | done | done | lia]. }
  unfold Webcrawl.eachAnchor.
  destruct (goquery.Attr_href s) as [href|]; [| done].
  destruct (String.eqb_spec href "") as [|Hne]; [done |].
  destruct (url_Parse href) as [linkURL|]; [| done].
  set (resolvedURL := url_ResolveReference baseURLParsed linkURL).
  set (text := if String.eqb (TrimSpace (goquery.Text s)) "" then href
               else TrimSpace (goquery.Text s)).
  assert (Htext : text ≠ "").
  { unfold text. by destruct (String.eqb_spec (TrimSpace (goquery.Text s)) ""). }
  destruct (String.eqb_spec (Host resolvedURL) (Host baseURLParsed))
    as [Heq|Hneq]; unfold linksOk; simpl.
  - split_and!.
    + intros l [Hl'| ->%list_elem_of_singleton]%elem_of_app; auto.
    + done.
    + intros l [[Hl'| ->%list_elem_of_singleton]%elem_of_app|Hl']%elem_of_app.
      * apply Ht, elem_of_app. by left.
      * simpl. split; [done |]. by exists resolvedURL.
      * apply Ht, elem_of_app. by right.
    + rewrite length_app. simpl. lia.
  - split_and!.
    + done.
    + intros l [Hl'| ->%list_elem_of_singleton]%elem_of_app; auto.
    + intros l [Hl'|[Hl'| ->%list_elem_of_singleton]%elem_of_app]%elem_of_app.
      * apply Ht, elem_of_app. by left.
      * apply Ht, elem_of_app. by right.
      * simpl. split; [done |]. by exists resolvedURL.
    + rewrite length_app. simpl. lia.
Qed.

Lemma fold_eachAnchor_ok (baseURLParsed : URL) (anchors : list goquery.Node)
    (n : nat) (links : Webcrawl.Links) :
  linksOk baseURLParsed n links →
  linksOk baseURLParsed (n + length anchors)
    (fold_left (Webcrawl.eachAnchor baseURLParsed) anchors links).
Proof.
  revert n links. induction anchors as [|s anchors IH]; intros n links Hok.
  - simpl. by rewrite Nat.add_0_r.
  - simpl. replace (n + S (length anchors))%nat with (S n + length anchors)%nat
      by lia.
    by apply IH, eachAnchor_ok.
Qed.

(** An anchor that resolves to another host leaves the internal links as
    they are. *)
Lemma eachAnchor_other_host (baseURLParsed : URL) (links : Webcrawl.Links)
    (s : goquery.Node) :
  (∀ href u, goquery.Attr_href s = Some href → url_Parse href = Some u →
     Host (url_ResolveReference baseURLParsed u) ≠ Host baseURLParsed) →
  Webcrawl.Internal (Webcrawl.eachAnchor baseURLParsed links s)
  = Webcrawl.Internal links.
Proof.
  intros Hs. unfold Webcrawl.eachAnchor.
  destruct (goquery.Attr_href s) as [href|]; [| done].
  destruct (String.eqb href ""); [done |].
  destruct (url_Parse href) as [linkURL|] eqn:Ep; [| done].
  destruct (String.eqb_spec (Host (url_ResolveReference baseURLParsed linkURL))
              (Host baseURLParsed)) as [Heq|_]; [| done].
  by destruct (Hs href linkURL).
Qed.

Lemma fold_eachAnchor_other_host (baseURLParsed : URL)
    (anchors : list goquery.Node) (links : Webcrawl.Links) :
  (∀ s href u, s ∈ anchors → goquery.Attr_href s = Some href →
     url_Parse href = Some u →
     Host (url_ResolveReference baseURLParsed u) ≠ Host baseURLParsed) →
  Webcrawl.Internal (fold_left (Webcrawl.eachAnchor baseURLParsed) anchors
                       links)
  = Webcrawl.Internal links.
Proof.
  revert links. induction anchors as [|s anchors IH]; intros links Hs; [done |].
  simpl. rewrite IH.
  - apply eachAnchor_other_host. intros href u. apply Hs, list_elem_of_here.
  - intros s' href u Hin. by apply Hs, list_elem_of_further.
Qed.

End WebcrawlFacts.

(** X27.  [webcrawl.extractLinks] sorts the anchors by host: a link is
    internal exactly when the host of its resolved URL is, letter for
    letter, the host of the page, and external otherwise; every link has a
    text that is not empty and an href that is the rendering of its
    resolved URL; there are at most as many links as anchors; and a page
    URL that does not parse gives no link at all. *)
Theorem X27_webcrawl_links_partition (L : GoLib)
    (selection : goquery.Selection) (baseURL : string) :
  let links := Webcrawl.extractLinks selection baseURL in
  (url_Parse baseURL = None → links = Webcrawl.mkLinks [] [])
  ∧ ∀ baseURLParsed, url_Parse baseURL = Some baseURLParsed →
      (∀ l, l ∈ Webcrawl.Internal links →
            Webcrawl.BaseDomain l = Host baseURLParsed)
      ∧ (∀ l, l ∈ Webcrawl.External links →
              Webcrawl.BaseDomain l ≠ Host baseURLParsed)
      ∧ (∀ l, l ∈ Webcrawl.Internal links ++ Webcrawl.External links →
              Webcrawl.Text l ≠ ""
              ∧ ∃ u, Webcrawl.Href l = url_String u
                     ∧ Webcrawl.BaseDomain l = Host u)
      ∧ (length (Webcrawl.Internal links) + length (Webcrawl.External links)
         <= length (goquery.Find_a_href selection))%nat.
Proof.
  intros links. unfold links, Webcrawl.extractLinks.
  destruct (url_Parse baseURL) as [b|]; split; try done.
  intros ? [= <-].
  apply (fold_eachAnchor_ok b (goquery.Find_a_href selection) 0).
  split_and!; simpl; try done; by intros l ?%not_elem_of_nil.
Qed.

(** X28.  Links to another host never reach the classifier of the spider:
    when every anchor of a page resolves to a host other than the host of
    the page, a subdomain of it or the host with www. in front included,
    the page has no internal link, and [extractLinks] of the spider returns
    nothing for it, whatever the seed and whether subdomains are crawled or
    not. *)
Theorem X28_other_hosts_never_classified (L : GoLib)
    (selection : goquery.Selection) (pageURL : string) (pageParsed : URL) :
  url_Parse pageURL = Some pageParsed →
  (∀ s href u, s ∈ goquery.Find_a_href selection →
     goquery.Attr_href s = Some href → url_Parse href = Some u →
     Host (url_ResolveReference pageParsed u) ≠ Host pageParsed) →
  Webcrawl.Internal (Webcrawl.extractLinks selection pageURL) = []
  ∧ ∀ content baseURL seedURL crawlSubDomain crawlableLinks fileLinks,
      extractLinks
        (Webcrawl.asCrawlResult content
           (Webcrawl.extractLinks selection pageURL))
        baseURL seedURL crawlSubDomain crawlableLinks fileLinks →
      crawlableLinks = [] ∧ fileLinks = [].
Proof.
  intros Hp Hs.
  assert (Hi : Webcrawl.Internal (Webcrawl.extractLinks selection pageURL)
               = []).
  { unfold Webcrawl.extractLinks. rewrite Hp.
    by rewrite fold_eachAnchor_other_host. }
  split; [done |].
  intros content baseURL seedURL sub c f [Hc Hf].
  unfold extractLinkSets, Webcrawl.asCrawlResult in *. simpl in *.
  rewrite Hi in *. simpl in *. rewrite elements_empty in *.
  split; by apply Permutation_nil_r.
Qed.

Lemma X28_other_hosts_never_classified_witness :
  @url_Parse RefLib.lib "https://a.test/" = Some (hostURL "a.test")
  ∧ Webcrawl.External
      (@Webcrawl.extractLinks RefLib.lib demoSelection "https://a.test/")
    = [Webcrawl.mkLinkData "https://sub.a.test/x" "sub" "sub.a.test";
       Webcrawl.mkLinkData "https://b.test/" "other" "b.test"]
  ∧ Webcrawl.Internal
      (@Webcrawl.extractLinks RefLib.lib demoSelection "https://a.test/")
    = [].
Proof.
  assert (Hp : @url_Parse RefLib.lib "https://a.test/"
               = Some (hostURL "a.test")) by reflexivity.
  split; [exact Hp |]. split; [reflexivity |].
  apply (X28_other_hosts_never_classified RefLib.lib demoSelection
           "https://a.test/" (hostURL "a.test") Hp).
  intros s href u Hs Hh Hu.
  repeat (apply elem_of_cons in Hs as [-> | Hs];
          [simpl in Hh; injection Hh as <-; simpl in Hu;
           injection Hu as <-; by vm_compute |]).
  by apply not_elem_of_nil in Hs.
Defined.

(** X29.  In [htmlToCleanText] the second replacement never changes
    anything: after the first one the text holds no white space but single
    spaces, so no line feed is left for the second pattern, and the result
    is the trimmed text of the first replacement.  The line feeds written
    around headings, paragraphs and list items are all turned into spaces:
    a result that is a part of that text holds no line feed. *)
Theorem X29_htmlToCleanText_flat (L : GoLib) (selection : goquery.Selection) :
  Webcrawl.htmlToCleanText selection
  = TrimSpace (Webcrawl.collapsedText selection)
  ∧ Forall (λ c, reSpace c = true → c = " "%char)
      (list_ascii_of_string (Webcrawl.collapsedText selection))
  ∧ (∀ a b, Webcrawl.collapsedText selection ≠ a +:+ "  " +:+ b)
  ∧ (∀ pre post,
       Webcrawl.collapsedText selection
       = pre +:+ Webcrawl.htmlToCleanText selection +:+ post →
       countLF (Webcrawl.htmlToCleanText selection) = 0%nat).
Proof.
  assert (Hid : Webcrawl.htmlToCleanText selection
                = TrimSpace (Webcrawl.collapsedText selection)).
  { unfold Webcrawl.htmlToCleanText.
    by rewrite multipleNewlines_ReplaceAllString_id by apply collapsedText_noLF. }
  split_and!; [done | apply multipleSpaces_ReplaceAllString_chars
              | intros a b; apply multipleSpaces_ReplaceAllString_single |].
  intros pre post Heq. apply (countLF_infix _ pre post).
  rewrite <- Heq. apply collapsedText_noLF.
Qed.

(** The page of the example: the line feeds around the heading and the
    paragraph are gone. *)
Lemma demo_htmlToCleanText :
  @Webcrawl.htmlToCleanText RefLib.lib demoSelection
  = "# Title some text a paragraph".
Proof. by vm_compute. Qed.

(** ** [SpiderWebsite]: after the crawl *)

(** X30.  The step after [wg.Wait()] gives the logger the detected file
    URLs without repetition, each of them once and nothing else, and only
    when there is one; of the result it writes the processing time and
    nothing more, and the call returns. *)
Theorem X30_finalization_logs_unique_files (L : GoLib) (s s' : State)
    (finalFileList : list string) (elapsed : Z) :
  step s (EvJoin finalFileList elapsed) = Some s' →
  NoDup finalFileList
  ∧ (∀ u, u ∈ finalFileList ↔ u ∈ DetectedFileUrls (result s))
  ∧ infoLog s'
    = (if decide (DetectedFileUrls (result s) = []) then infoLog s
       else infoLog s ++ [finalFileList])
  ∧ result s' = set_ProcessingTime elapsed (result s)
  ∧ pc s' = SReturned.
Proof.
  simpl. unfold join. intros Hs.
  destruct (pc s); try done. destruct (wg s); [| done].
  destruct (decide (finalFileList
                    ≡ₚ elements (list_to_set (DetectedFileUrls (result s))
                                   : gset string))) as [Hp|]; [| done].
  injection Hs as <-.
  split_and!.
  - rewrite Hp. apply NoDup_elements.
  - intros u. by rewrite Hp, elem_of_elements, elem_of_list_to_set.
  - destruct (DetectedFileUrls (result s)) as [|f fs]; simpl; [done |].
    by destruct (decide (f :: fs = [])).
  - by destruct (0 <? _).
  - by destruct (0 <? _).
Qed.

Lemma X30_finalization_logs_unique_files_witness :
  let before := default demoState0
                  (@run RefLib.lib demoState0 (take 18 demoTrace)) in
  @step RefLib.lib before (EvJoin ["https://a.test/doc.pdf"] 5)
  = Some demoFinal
  ∧ DetectedFileUrls (result before)
    = ["https://a.test/doc.pdf"; "https://a.test/doc.pdf"]
  ∧ NoDup ["https://a.test/doc.pdf"]
  ∧ infoLog demoFinal = [["https://a.test/doc.pdf"]].
Proof.
  intros before.
  assert (Hs : @step RefLib.lib before (EvJoin ["https://a.test/doc.pdf"] 5)
               = Some demoFinal) by (by vm_compute).
  split; [exact Hs |]. split; [by vm_compute |].
  destruct (X30_finalization_logs_unique_files RefLib.lib before demoFinal
              ["https://a.test/doc.pdf"] 5 Hs) as (H1 & _ & H3 & _).
  split; [exact H1 |]. rewrite H3. by vm_compute.
Defined.

(** ** From an anchor of a page to the classifier *)



Section Pipeline.
Context `{GoLib}.







End Pipeline.


